(** * FxDK layer over Code-OSS: server, game view and credential store

    A shallow embedding of the parts of the FxDK customisation layer that
    carry behaviour of their own:

    - the HTTP / WebSocket server ([startServer], [serveFile], [serveError]),
    - the [GameView] custom element's input handlers ([mapMouseButton],
      [mapKey], [_resetStates], [_handleKeydown], ...),
    - the [LocalStorageCredentialsProvider] of the browser workbench.

    JavaScript strings are sequences of UTF-16 code units; they are
    modelled as [list N].  The Node.js and ECMAScript built-ins the code
    calls ([path.normalize], [path.join], [path.extname],
    [decodeURIComponent], [JSON.stringify] on strings, [String] on the
    Numbers of a stat result, SHA-1, base64) are written out as
    executable functions following their published algorithms (POSIX
    flavour of [path]).  [url.parse] and the editor's
    [URI.from(..).fsPath] are parameters of the server. *)

From Stdlib Require Import ZArith NArith QArith Lia String Ascii List Bool.
From Stdlib Require Import DecimalString DecimalPos DecimalZ.
From stdpp Require Import base decidable option list numbers gmap.

Local Open Scope N_scope.

(** ** JavaScript strings *)

Abbreviation jsstring := (list N).

Module JS.

(** A literal: every character of the Rocq string is one code unit. *)
Definition lit (s : string) : jsstring :=
  (fun a => N_of_ascii a) <$> list_ascii_of_string s.

(** Truthiness of a string: the empty string is falsy. *)
Definition truthy (s : jsstring) : bool :=
  match s with [] => false | _ :: _ => true end.

(** Truthiness of a possibly undefined string. *)
Definition truthyOpt (v : option jsstring) : bool :=
  match v with
  | Some s => truthy s
  | None => false
  end.

(** A literal in which the apostrophe stands for the double quote. *)
Definition litq (s : string) : jsstring :=
  (fun c => if c =? 39 then 34 else c) <$> lit s.

(** [String(v)] / string concatenation of a possibly undefined string. *)
Definition toString (v : option jsstring) : jsstring :=
  match v with
  | Some s => s
  | None => lit "undefined"
  end.

(** The decimal digits of an integer, a minus sign before a negative
    one. *)
Definition ofZ (z : Z) : jsstring :=
  lit (NilZero.string_of_int (Z.to_int z)).

(** *** Numbers that hold integers

    A Number is a binary64 double.  The Numbers met here hold integers
    and are given by the integer they hold; not every integer is one. *)

(** The double nearest to the integer [a >= 0], ties to the even
    mantissa: [a] itself while it has at most 53 bits, else the upper
    53 bits, rounded, followed by zero bits. *)
Definition roundMagnitude (a : Z) : Z :=
  let e := (Z.log2 a - 52)%Z in
  if (e <=? 0)%Z then a
  else
    let q := (a / 2 ^ e)%Z in
    let r := (a mod 2 ^ e)%Z in
    let half := (2 ^ (e - 1))%Z in
    if (half <? r)%Z || ((r =? half)%Z && Z.odd q)
    then ((q + 1) * 2 ^ e)%Z
    else (q * 2 ^ e)%Z.

(** The Number an integer becomes, as in the conversion of a 64-bit
    counter to a double.  The integers met here are below 2^64 in
    absolute value, far from the overflow to Infinity. *)
Definition toDouble (z : Z) : Z := (Z.sgn z * roundMagnitude (Z.abs z))%Z.

(** The multiples of [10^j] next to the double [d >= 0] on either side,
    if one of them reads back as [d]; of two that do, the nearer one,
    and the one with the even last digit when they are equally near. *)
Definition candidate (d : Z) (j : nat) : option Z :=
  let p := (10 ^ Z.of_nat j)%Z in
  let lo := (d / p * p)%Z in
  let hi := (lo + p)%Z in
  let okLo := (roundMagnitude lo =? d)%Z in
  let okHi := (roundMagnitude hi =? d)%Z in
  if okLo && okHi then
    if (d - lo <? hi - d)%Z then Some lo
    else if (hi - d <? d - lo)%Z then Some hi
    else if Z.even (d / p) then Some lo else Some hi
  else if okLo then Some lo
  else if okHi then Some hi
  else None.

(** The integer with the fewest significant digits that reads back as
    the double [d >= 0]: the candidates are tried from one significant
    digit ([j] zeros at the end) to all digits. *)
Fixpoint shortestFrom (d : Z) (j : nat) : Z :=
  match candidate d j with
  | Some c => c
  | None =>
      match j with
      | O => d
      | S j' => shortestFrom d j'
      end
  end.

(** [String(x)] / [Number.prototype.toString] of the Number that the
    integer [x] becomes, below 1e21 in absolute value, where the text
    has no exponent: the digits of the shortest decimal that reads back
    as the Number, zeros after them. *)
Definition numberToString (x : Z) : jsstring :=
  let d := Z.abs (toDouble x) in
  ofZ (Z.sgn (toDouble x) * shortestFrom d (length (ofZ d) - 1))%Z.

(** [String(v)] of a Number that holds an integer or is NaN ([None]). *)
Definition stringOfNumber (v : option Z) : jsstring :=
  match v with
  | Some x => numberToString x
  | None => lit "NaN"
  end.

(** A [Date]: its time value, whole milliseconds since the epoch, or
    an invalid date. *)
Inductive Date :=
| DateOf (t : Z)
| InvalidDate.

(** [d.getTime()], [None] being NaN.  A time value lies within
    8.64e15 ms of the epoch; a date made from anything beyond is
    invalid. *)
Definition getTime (d : Date) : option Z :=
  match d with
  | DateOf t => if (Z.abs t <=? 8640000000000000)%Z then Some t else None
  | InvalidDate => None
  end.

(** [Array.prototype.join] on an array of strings. *)
Fixpoint join (sep : jsstring) (parts : list jsstring) : jsstring :=
  match parts with
  | [] => []
  | [p] => p
  | p :: ps => p ++ sep ++ join sep ps
  end.

(** [s.split(c)] for a one-unit separator: always at least one piece. *)
Fixpoint split (sep : N) (s : jsstring) : list jsstring :=
  match s with
  | [] => [[]]
  | c :: rest =>
      if c =? sep then [] :: split sep rest
      else match split sep rest with
           | seg :: segs => (c :: seg) :: segs
           | [] => [[c]]
           end
  end.

(** [s.startsWith(p)], which is what the test [/^p/] decides for a
    literal pattern. *)
Fixpoint startsWith (p s : jsstring) : bool :=
  match p, s with
  | [], _ => true
  | _ :: _, [] => false
  | a :: p', b :: s' => (a =? b) && startsWith p' s'
  end.

(** [s.indexOf(p) !== -1]. *)
Fixpoint includes (p s : jsstring) : bool :=
  startsWith p s ||
  match s with
  | [] => false
  | _ :: s' => includes p s'
  end.

(** [s.substr(n)]. *)
Definition substr (n : nat) (s : jsstring) : jsstring := drop n s.

(** ASCII part of [String.prototype.toLowerCase]. *)
Definition lowerUnit (c : N) : N :=
  if (65 <=? c) && (c <=? 90) then c + 32 else c.

Definition toLowerCaseAscii (s : jsstring) : jsstring := lowerUnit <$> s.

End JS.

Notation "'js' s" := (JS.lit s%string) (at level 1, s at level 0, only parsing).

(** ** A small error monad for code that may throw *)

Inductive Error :=
| URIError            (* thrown by decodeURIComponent *)
| UrlParseError       (* thrown by url.parse *)
| UriValidationError. (* thrown by the editor's URI.from *)

Inductive Exc (A : Type) :=
| Ok (a : A)
| Throw (e : Error).
Arguments Ok {A} a.
Arguments Throw {A} e.

Definition bindExc {A B} (m : Exc A) (k : A -> Exc B) : Exc B :=
  match m with
  | Ok a => k a
  | Throw e => Throw e
  end.

Notation "x <-! m ;; k" := (bindExc m (fun x => k))
  (at level 100, m at next level, right associativity).

(** ** Node's [path] module, POSIX flavour *)

Module Path.

Definition SLASH : N := 47.
Definition DOT : N := 46.

Definition dot : jsstring := [DOT].
Definition dotdot : jsstring := [DOT; DOT].

(** One step of [normalizeString]: the segments kept so far are held
    innermost first.  Empty segments and "." are dropped; ".." removes
    the last kept segment unless there is none or it is ".." itself, in
    which case ".." is kept when [allowAboveRoot] and dropped otherwise;
    any other segment is kept. *)
Definition normStep (allowAboveRoot : bool) (kept : list jsstring)
    (seg : jsstring) : list jsstring :=
  if bool_decide (seg = []) || bool_decide (seg = dot) then kept
  else if bool_decide (seg = dotdot) then
    match kept with
    | top :: below =>
        if bool_decide (top = dotdot)
        then (if allowAboveRoot then dotdot :: kept else kept)
        else below
    | [] => if allowAboveRoot then [dotdot] else []
    end
  else seg :: kept.

Definition normSegments (allowAboveRoot : bool) (segs : list jsstring)
    : list jsstring :=
  rev (fold_left (normStep allowAboveRoot) segs []).

(** [normalizeString(path, allowAboveRoot, '/', isPosixPathSeparator)]. *)
Definition normalizeString (path : jsstring) (allowAboveRoot : bool)
    : jsstring :=
  JS.join [SLASH] (normSegments allowAboveRoot (JS.split SLASH path)).

Definition isAbsolute (path : jsstring) : bool :=
  match path with
  | c :: _ => c =? SLASH
  | [] => false
  end.

Definition trailingSeparator (path : jsstring) : bool :=
  match last path with
  | Some c => c =? SLASH
  | None => false
  end.

(** [path.posix.normalize]. *)
Definition normalize (path : jsstring) : jsstring :=
  match path with
  | [] => dot
  | _ :: _ =>
      let abs := isAbsolute path in
      let trail := trailingSeparator path in
      let p := normalizeString path (negb abs) in
      match p with
      | [] => if abs then [SLASH] else if trail then [DOT; SLASH] else dot
      | _ :: _ =>
          let p := if trail then p ++ [SLASH] else p in
          if abs then SLASH :: p else p
      end
  end.

(** The loop of [path.posix.join]: empty arguments are skipped, the
    others are glued with "/". *)
Fixpoint joinArgs (joined : option jsstring) (args : list jsstring)
    : option jsstring :=
  match args with
  | [] => joined
  | arg :: rest =>
      match arg with
      | [] => joinArgs joined rest
      | _ :: _ =>
          match joined with
          | None => joinArgs (Some arg) rest
          | Some j => joinArgs (Some (j ++ SLASH :: arg)) rest
          end
      end
  end.

(** [path.posix.join(...args)]. *)
Definition join (args : list jsstring) : jsstring :=
  match joinArgs None args with
  | None => dot
  | Some joined => normalize joined
  end.

(** State of the backwards scan of [path.posix.extname]. *)
Record ExtScan := {
  startDot : Z;
  startPart : Z;
  endIdx : Z;
  matchedSlash : bool;
  preDotState : Z;
  stopped : bool
}.

Definition extInit : ExtScan :=
  {| startDot := -1; startPart := 0; endIdx := -1;
     matchedSlash := true; preDotState := 0; stopped := false |}.

(** The body of the [for (i = path.length - 1; i >= 0; --i)] loop. *)
Definition extStep (st : ExtScan) (ic : Z * N) : ExtScan :=
  let '(i, code) := ic in
  if stopped st then st
  else if code =? SLASH then
    if negb (matchedSlash st)
    then {| startDot := startDot st; startPart := (i + 1)%Z;
            endIdx := endIdx st; matchedSlash := matchedSlash st;
            preDotState := preDotState st; stopped := true |}
    else st
  else
    let st1 :=
      if (endIdx st =? -1)%Z
      then {| startDot := startDot st; startPart := startPart st;
              endIdx := (i + 1)%Z; matchedSlash := false;
              preDotState := preDotState st; stopped := false |}
      else st in
    if code =? DOT then
      if (startDot st1 =? -1)%Z
      then {| startDot := i; startPart := startPart st1;
              endIdx := endIdx st1; matchedSlash := matchedSlash st1;
              preDotState := preDotState st1; stopped := false |}
      else if negb (preDotState st1 =? 1)%Z
      then {| startDot := startDot st1; startPart := startPart st1;
              endIdx := endIdx st1; matchedSlash := matchedSlash st1;
              preDotState := 1; stopped := false |}
      else st1
    else if negb (startDot st1 =? -1)%Z
      then {| startDot := startDot st1; startPart := startPart st1;
              endIdx := endIdx st1; matchedSlash := matchedSlash st1;
              preDotState := -1; stopped := false |}
      else st1.

(** Code units paired with their index, last index first. *)
Definition indexedRev (path : jsstring) : list (Z * N) :=
  rev (imap (fun i c => (Z.of_nat i, c)) path).

(** [path.slice(a, b)] for [0 <= a]. *)
Definition slice (a b : Z) (path : jsstring) : jsstring :=
  take (Z.to_nat (b - a)) (drop (Z.to_nat a) path).

(** [path.posix.extname]. *)
Definition extname (path : jsstring) : jsstring :=
  let st := fold_left extStep (indexedRev path) extInit in
  if (startDot st =? -1)%Z || (endIdx st =? -1)%Z
     || (preDotState st =? 0)%Z
     || ((preDotState st =? 1)%Z
         && (startDot st =? endIdx st - 1)%Z
         && (startDot st =? startPart st + 1)%Z)
  then []
  else slice (startDot st) (endIdx st) path.

End Path.

(** ** [decodeURIComponent] *)

Module URIDecode.

Definition PERCENT : N := 37.

Definition hexVal (c : N) : option N :=
  if (48 <=? c) && (c <=? 57) then Some (c - 48)
  else if (65 <=? c) && (c <=? 70) then Some (c - 55)
  else if (97 <=? c) && (c <=? 102) then Some (c - 87)
  else None.

(** Reads one escape "%XY" at the head of the string. *)
Definition readEscape (s : jsstring) : option (N * jsstring) :=
  match s with
  | p :: h :: l :: rest =>
      if p =? PERCENT then
        match hexVal h, hexVal l with
        | Some a, Some b => Some (16 * a + b, rest)
        | _, _ => None
        end
      else None
  | _ => None
  end.

(** Number of leading 1 bits of an octet. *)
Definition leadingOnes (b : N) : nat :=
  if b <? 128 then 0%nat
  else if b <? 192 then 1%nat
  else if b <? 224 then 2%nat
  else if b <? 240 then 3%nat
  else if b <? 248 then 4%nat
  else 5%nat.

(** Reads [n] further escapes, each a continuation octet "10xxxxxx". *)
Fixpoint readContinuation (n : nat) (s : jsstring)
    : option (list N * jsstring) :=
  match n with
  | O => Some ([], s)
  | S n' =>
      match readEscape s with
      | Some (b, rest) =>
          if (128 <=? b) && (b <? 192) then
            match readContinuation n' rest with
            | Some (bs, rest') => Some (b :: bs, rest')
            | None => None
            end
          else None
      | None => None
      end
  end.

(** The code point a well-formed UTF-8 sequence encodes: no overlong
    forms, no surrogates, nothing above U+10FFFF. *)
Definition codePoint (lead : N) (cont : list N) : option N :=
  match cont with
  | [c1] =>
      let v := (lead - 192) * 64 + (c1 - 128) in
      if 128 <=? v then Some v else None
  | [c1; c2] =>
      let v := (lead - 224) * 4096 + (c1 - 128) * 64 + (c2 - 128) in
      if (2048 <=? v) && negb ((55296 <=? v) && (v <=? 57343))
      then Some v else None
  | [c1; c2; c3] =>
      let v := (lead - 240) * 262144 + (c1 - 128) * 4096
               + (c2 - 128) * 64 + (c3 - 128) in
      if (65536 <=? v) && (v <=? 1114111) then Some v else None
  | _ => None
  end.

(** UTF-16 encoding of a code point. *)
Definition utf16 (v : N) : jsstring :=
  if v <? 65536 then [v]
  else [55296 + (v - 65536) / 1024; 56320 + (v - 65536) mod 1024].

(** The [Decode] loop with an empty reserved set.  Every round consumes
    at least one code unit, so [length s] rounds always suffice. *)
Fixpoint decodeLoop (fuel : nat) (s : jsstring) : Exc jsstring :=
  match s with
  | [] => Ok []
  | c :: rest =>
      match fuel with
      | O => Throw URIError
      | S fuel' =>
          if c =? PERCENT then
            match readEscape s with
            | None => Throw URIError
            | Some (b, after) =>
                match leadingOnes b with
                | O => r <-! decodeLoop fuel' after ;; Ok (b :: r)
                | S O => Throw URIError
                | S (S (S (S (S _)))) => Throw URIError
                | S m =>
                    match readContinuation m after with
                    | None => Throw URIError
                    | Some (cont, after') =>
                        match codePoint b cont with
                        | None => Throw URIError
                        | Some v =>
                            r <-! decodeLoop fuel' after' ;;
                            Ok (utf16 v ++ r)
                        end
                    end
                end
            end
          else r <-! decodeLoop fuel' rest ;; Ok (c :: r)
      end
  end.

Definition decodeURIComponent (s : jsstring) : Exc jsstring :=
  decodeLoop (length s) s.

End URIDecode.

(** ** [crypto.createHash('sha1').update(s).digest('base64')] *)

Module Crypto.

(** UTF-8 encoding of a JavaScript string, as [hash.update(string)]
    applies it: surrogate pairs are combined, a lone surrogate becomes
    U+FFFD. *)
Definition utf8OfCodePoint (v : N) : list N :=
  if v <? 128 then [v]
  else if v <? 2048 then [192 + v / 64; 128 + v mod 64]
  else if v <? 65536 then
    [224 + v / 4096; 128 + (v / 64) mod 64; 128 + v mod 64]
  else [240 + v / 262144; 128 + (v / 4096) mod 64;
        128 + (v / 64) mod 64; 128 + v mod 64].

Definition isHighSurrogate (c : N) : bool := (55296 <=? c) && (c <=? 56319).
Definition isLowSurrogate (c : N) : bool := (56320 <=? c) && (c <=? 57343).

Fixpoint utf8 (s : jsstring) : list N :=
  match s with
  | [] => []
  | c :: rest =>
      if isHighSurrogate c then
        match rest with
        | d :: rest' =>
            if isLowSurrogate d
            then utf8OfCodePoint (65536 + (c - 55296) * 1024 + (d - 56320))
                   ++ utf8 rest'
            else utf8OfCodePoint 65533 ++ utf8 rest
        | [] => utf8OfCodePoint 65533
        end
      else if isLowSurrogate c then utf8OfCodePoint 65533 ++ utf8 rest
      else utf8OfCodePoint c ++ utf8 rest
  end.

Definition W32 : N := 4294967296.
Definition add32 (a b : N) : N := (a + b) mod W32.
Definition rotl (n : N) (x : N) : N :=
  N.lor (N.shiftl x n mod W32) (N.shiftr x (32 - n)).
Definition not32 (x : N) : N := W32 - 1 - x.

(** Big-endian bytes of a number, [k] bytes wide. *)
Fixpoint bytesBE (k : nat) (x : N) : list N :=
  match k with
  | O => []
  | S k' => bytesBE k' (x / 256) ++ [x mod 256]
  end.

Definition wordBE (bs : list N) : N :=
  fold_left (fun acc b => acc * 256 + b) bs 0.

(** Message padding: a 1 bit, zeros up to 56 mod 64, the bit length. *)
Definition pad (msg : list N) : list N :=
  let len := N.of_nat (length msg) in
  let zeros := (55 + 64 - len mod 64) mod 64 in
  msg ++ [128] ++ replicate (N.to_nat zeros) 0 ++ bytesBE 8 (8 * len).

(** Cuts a list into pieces of [n] elements ([fuel] bounds their number). *)
Fixpoint chunks {A} (fuel n : nat) (l : list A) : list (list A) :=
  match fuel with
  | O => []
  | S fuel' =>
      match l with
      | [] => []
      | _ :: _ => take n l :: chunks fuel' n (drop n l)
      end
  end.

(** Message schedule, most recent word first. *)
Fixpoint extend (k : nat) (w : list N) : list N :=
  match k with
  | O => w
  | S k' =>
      let x := N.lxor (N.lxor (N.lxor (nth 2 w 0) (nth 7 w 0)) (nth 13 w 0))
                      (nth 15 w 0) in
      extend k' (rotl 1 x :: w)
  end.

Definition schedule (block : list N) : list N :=
  rev (extend 64 (rev (wordBE <$> chunks 16 4 block))).

Definition State : Type := N * N * N * N * N.

Definition round (st : State) (tw : nat * N) : State :=
  let '(a, b, c, d, e) := st in
  let '(t, w) := tw in
  let '(f, k) :=
    if (t <? 20)%nat then
      (N.lor (N.land b c) (N.land (not32 b) d), 1518500249)
    else if (t <? 40)%nat then
      (N.lxor (N.lxor b c) d, 1859775393)
    else if (t <? 60)%nat then
      (N.lor (N.lor (N.land b c) (N.land b d)) (N.land c d), 2400959708)
    else (N.lxor (N.lxor b c) d, 3395469782) in
  let temp := add32 (add32 (add32 (add32 (rotl 5 a) f) e) k) w in
  (temp, a, rotl 30 b, c, d).

Definition compress (h : State) (block : list N) : State :=
  let '(h0, h1, h2, h3, h4) := h in
  let '(a, b, c, d, e) :=
    fold_left round (imap (fun t w => (t, w)) (schedule block)) h in
  (add32 h0 a, add32 h1 b, add32 h2 c, add32 h3 d, add32 h4 e).

Definition initial : State :=
  (1732584193, 4023233417, 2562383102, 271733878, 3285377520).

(** SHA-1 digest of a byte string, 20 bytes. *)
Definition sha1 (msg : list N) : list N :=
  let padded := pad msg in
  let '(h0, h1, h2, h3, h4) :=
    fold_left compress (chunks (length padded) 64 padded) initial in
  bytesBE 4 h0 ++ bytesBE 4 h1 ++ bytesBE 4 h2 ++ bytesBE 4 h3
    ++ bytesBE 4 h4.

Definition b64Alphabet : jsstring :=
  js "ABCDEFGHIJKLMNOPQRSTUVWXYZabcdefghijklmnopqrstuvwxyz0123456789+/".

Definition b64Char (i : N) : N := nth (N.to_nat i) b64Alphabet 0.

Definition EQUALS : N := 61.

(** Base64 with padding. *)
Fixpoint base64 (bs : list N) : jsstring :=
  match bs with
  | [] => []
  | [a] => [b64Char (a / 4); b64Char ((a mod 4) * 16); EQUALS; EQUALS]
  | [a; b] =>
      [b64Char (a / 4); b64Char ((a mod 4) * 16 + b / 16);
       b64Char ((b mod 16) * 4); EQUALS]
  | a :: b :: c :: rest =>
      [b64Char (a / 4); b64Char ((a mod 4) * 16 + b / 16);
       b64Char ((b mod 16) * 4 + c / 64); b64Char (c mod 64)]
        ++ base64 rest
  end.

(** [createHash('sha1').update(s).digest('base64')]. *)
Definition sha1Base64 (s : jsstring) : jsstring := base64 (sha1 (utf8 s)).

End Crypto.

(** ** [JSON.stringify] on objects whose values are strings *)

Module JSON.

Definition hexDigit (d : N) : N := if d <? 10 then 48 + d else 87 + d.

(** The escape "\uXXXX" with lower-case digits. *)
Definition unicodeEscape (c : N) : jsstring :=
  [92; 117; hexDigit (c / 4096); hexDigit ((c / 256) mod 16);
   hexDigit ((c / 16) mod 16); hexDigit (c mod 16)].

Definition escapeUnit (c : N) : jsstring :=
  if c =? 8 then js "\b"
  else if c =? 9 then js "\t"
  else if c =? 10 then js "\n"
  else if c =? 12 then js "\f"
  else if c =? 13 then js "\r"
  else if c =? 34 then [92; 34]
  else if c =? 92 then [92; 92]
  else if c <? 32 then unicodeEscape c
  else [c].

(** [QuoteJSONString] without the surrounding quotes: paired
    surrogates are copied, lone ones are escaped. *)
Fixpoint escape (s : jsstring) : jsstring :=
  match s with
  | [] => []
  | c :: rest =>
      if Crypto.isHighSurrogate c then
        match rest with
        | d :: rest' =>
            if Crypto.isLowSurrogate d then c :: d :: escape rest'
            else unicodeEscape c ++ escape rest
        | [] => unicodeEscape c
        end
      else if Crypto.isLowSurrogate c then unicodeEscape c ++ escape rest
      else escapeUnit c ++ escape rest
  end.

Definition quote (s : jsstring) : jsstring := [34] ++ escape s ++ [34].

(** [JSON.stringify(o)] for an object literal given as its properties
    in insertion order. *)
Definition stringify (o : list (jsstring * jsstring)) : jsstring :=
  js "{" ++ JS.join (js ",")
              ((fun kv => quote kv.1 ++ js ":" ++ quote kv.2) <$> o)
        ++ js "}".

End JSON.

(** ** The static / remote-resource server

    A handler is modelled by the calls it makes on its response or
    socket, in order.  The calls of [logService] only write to the log
    and are left out. *)

Module Server.

(** A value of the object [url.parse(u, true).query]: a string, or an
    array of strings when the key is repeated. *)
Inductive QueryValue :=
| QString (s : jsstring)
| QArray (l : list jsstring).

(** The fields of [url.parse(u, true)] the server reads. *)
Record UrlWithParsedQuery := {
  pathname : option jsstring;
  query : gmap jsstring QueryValue
}.

(** [http.IncomingMessage]: header names are lower-cased by Node. *)
Record IncomingMessage := {
  method : jsstring;
  url : option jsstring;
  headers : gmap jsstring jsstring
}.

(** An unsigned 64-bit counter of stat(2). *)
Record uint64 := {
  toN : N;
  toN_range : (toN <? 18446744073709551616) = true
}.

(** The fields of [fs.Stats] that [serveFile] reads.  Node fills [ino]
    and [size] with the 64-bit counters of stat(2) converted to Numbers;
    the record keeps the counter, and [JS.numberToString] prints the
    Number it becomes.  [mtime] is a [Date]. *)
Record Stats := {
  ino : uint64;
  size : uint64;
  mtime : JS.Date
}.

(** An object literal used as header set, properties in insertion
    order. *)
Abbreviation OutgoingHttpHeaders := (list (jsstring * jsstring)).

(** [o[k] = v]. *)
Fixpoint setProp (o : OutgoingHttpHeaders) (k v : jsstring)
    : OutgoingHttpHeaders :=
  match o with
  | [] => [(k, v)]
  | (k', v') :: rest =>
      if bool_decide (k' = k) then (k, v) :: rest
      else (k', v') :: setProp rest k v
  end.

(** [o[k]]. *)
Fixpoint getProp (o : OutgoingHttpHeaders) (k : jsstring)
    : option jsstring :=
  match o with
  | [] => None
  | (k', v') :: rest => if bool_decide (k' = k) then Some v' else getProp rest k
  end.

(** What a handler does to its [http.ServerResponse]. *)
Inductive ResEffect :=
| WriteHead (status : N) (hdrs : OutgoingHttpHeaders)
| End (body : option jsstring)
| PipeFile (filePath : jsstring).

(** What the upgrade handler does to the raw [net.Socket]. *)
Inductive SocketEffect :=
| SocketEnd (data : jsstring)
| SocketOnError
| SocketWrite (data : jsstring)
| HandleWebSocket (q : gmap jsstring QueryValue) (permessageDeflate : bool).

Definition devMode : bool := true.

Definition textMimeType : list (jsstring * jsstring) :=
  [ (js ".html", js "text/html");
    (js ".js", js "text/javascript");
    (js ".json", js "application/json");
    (js ".css", js "text/css");
    (js ".svg", js "image/svg+xml") ].

Definition mapExtToMediaMimes : list (jsstring * jsstring) :=
  [ (js ".bmp", js "image/bmp");
    (js ".gif", js "image/gif");
    (js ".ico", js "image/x-icon");
    (js ".jpe", js "image/jpg");
    (js ".jpeg", js "image/jpg");
    (js ".jpg", js "image/jpg");
    (js ".png", js "image/png");
    (js ".tga", js "image/x-tga");
    (js ".tif", js "image/tiff");
    (js ".tiff", js "image/tiff");
    (js ".woff", js "application/font-woff") ].

(** [getMediaMime].  The keys of the table are ASCII and hold no "k",
    so lower-casing the ASCII letters decides the lookup exactly as the
    full [toLowerCase] does. *)
Definition getMediaMime (forPath : jsstring) : option jsstring :=
  let ext := Path.extname forPath in
  getProp mapExtToMediaMimes (JS.toLowerCaseAscii ext).

(** [a || b] on possibly undefined, never empty strings. *)
Definition orElse (a b : option jsstring) : option jsstring :=
  match a with
  | Some _ => a
  | None => b
  end.

Definition contentTypeOf (filePath : jsstring) : jsstring :=
  default (js "text/plain")
    (orElse (getProp textMimeType (Path.extname filePath))
            (getMediaMime filePath)).

(** The weak validator
    [`W/"${[stat.ino, stat.size, stat.mtime.getTime()].join('-')}"`]. *)
Definition etagOf (st : Stats) : jsstring :=
  js "W/" ++ [34]
    ++ JS.join (js "-")
         [JS.numberToString (Z.of_N (toN (ino st)));
          JS.numberToString (Z.of_N (toN (size st)));
          JS.stringOfNumber (JS.getTime (mtime st))]
    ++ [34].

(** [serveError]. *)
Definition serveError (errorCode : N) (errorMessage : jsstring)
    : list ResEffect :=
  [WriteHead errorCode [(js "Content-Type", js "text/plain")];
   End (Some errorMessage)].

Definition GUID : jsstring := js "258EAFA5-E914-47DA-95CA-C5AB0DC85B11".

Definition badRequestLine : jsstring := js "HTTP/1.1 400 Bad Request".

Definition CRLF : jsstring := [13; 10].

Definition manifest : list (jsstring * jsstring) :=
  [ (js "name", js "FxDK long");
    (js "short_name", js "FxDK short");
    (js "start_url", js "/");
    (js "lang", js "en-US");
    (js "display", js "standalone") ].

Section Handlers.

(** [url.parse(u, true)]; it may throw. *)
Variable url_parse : jsstring -> Exc UrlWithParsedQuery.

(** [URI.from({ scheme: 'file', path }).fsPath]; it may throw. *)
Variable fileUriFsPath : jsstring -> Exc jsstring.

(** [__dirname] of the server module. *)
Variable dirname : jsstring.

(** [fs.promises.stat]: [None] when the promise is rejected. *)
Variable stat : jsstring -> option Stats.

Definition APP_ROOT : jsstring := Path.join [dirname; js "../../../.."].

Definition WEB_MAIN : jsstring :=
  Path.join [APP_ROOT; js "out"; js "vs"; js "fxdk"; js "browser";
             js "workbench"; js "workbench.html"].

Definition WEB_MAIN_DEV : jsstring :=
  Path.join [APP_ROOT; js "out"; js "vs"; js "fxdk"; js "browser";
             js "workbench"; js "workbench-dev.html"].

(** [serveFile]: every failure inside its [try] block ends in the
    404 answer of its [catch] block. *)
Definition serveFile (req : IncomingMessage) (filePath : jsstring)
    (responseHeaders : OutgoingHttpHeaders) : list ResEffect :=
  let filePath := Path.normalize filePath in
  match stat filePath with
  | None =>
      [WriteHead 404 [(js "Content-Type", js "text/plain")];
       End (Some (js "Not found"))]
  | Some st =>
      let etag := etagOf st in
      if bool_decide (headers req !! js "if-none-match" = Some etag)
      then [WriteHead 304 []; End None]
      else
        let responseHeaders :=
          setProp responseHeaders (js "Content-Type")
                  (contentTypeOf filePath) in
        let responseHeaders := setProp responseHeaders (js "Etag") etag in
        [WriteHead 200 responseHeaders; PipeFile filePath]
  end.

(** The [try] block of the request listener. *)
Definition handleRequest (req : IncomingMessage) (u : jsstring)
    : Exc (list ResEffect) :=
  parsedUrl <-! url_parse u ;;
  let pathname := pathname parsedUrl in
  if bool_decide (pathname = Some (js "/vscode-remote-resource")) then
    match query parsedUrl !! js "path" with
    | Some (QString filePath) =>
        fsPath <-! fileUriFsPath filePath ;;
        if JS.truthy fsPath then Ok (serveFile req fsPath [])
        else Ok (serveError 400 (js "Bad Request."))
    | _ => Ok (serveError 400 (js "Bad Request."))
    end
  else if bool_decide (pathname = Some (js "/")) then
    Ok (serveFile req (if devMode then WEB_MAIN_DEV else WEB_MAIN) [])
  else if bool_decide (pathname = Some (js "/manifest.json")) then
    Ok [WriteHead 200 [(js "Content-Type", js "application/json")];
        End (Some (JSON.stringify manifest))]
  else
    if JS.truthyOpt pathname then
        let pathname := JS.toString pathname in
        relativeFilePath <-!
          (if JS.startsWith (js "/static/") pathname
           then d <-! URIDecode.decodeURIComponent
                        (JS.substr (length (js "/static/")) pathname) ;;
                Ok (Path.normalize d)
           else d <-! URIDecode.decodeURIComponent pathname ;;
                Ok (Path.normalize d)) ;;
        Ok (serveFile req (Path.join [APP_ROOT; relativeFilePath]) [])
    else Ok (serveError 404 (js "Not found.")).

(** The request listener given to [http.createServer]. *)
Definition requestListener (req : IncomingMessage) : list ResEffect :=
  if negb (JS.truthyOpt (url req)) then serveError 400 (js "Bad Request.")
  else
    match handleRequest req (JS.toString (url req)) with
    | Ok effects => effects
    | Throw _ => serveError 500 (js "Internal Server Error.")
    end.

(** The reconnection token the upgrade listener extracts. *)
Definition tokenOf (q : gmap jsstring QueryValue) : option jsstring :=
  match q !! js "reconnectionToken" with
  | Some (QString s) => Some s
  | _ => None
  end.

(** Lines of the handshake answer. *)
Definition handshakeHeaders (req : IncomingMessage) : list jsstring :=
  let acceptKey := headers req !! js "sec-websocket-key" in
  let hash := Crypto.sha1Base64 (JS.toString acceptKey ++ GUID) in
  let responseHeaders :=
    [js "HTTP/1.1 101 Web Socket Protocol Handshake";
     js "Upgrade: WebSocket";
     js "Connection: Upgrade";
     js "Sec-WebSocket-Accept: " ++ hash] in
  if JS.includes (js "permessage-deflate")
       (JS.toString (headers req !! js "sec-websocket-extensions"))
  then responseHeaders
         ++ [js "Sec-WebSocket-Extensions: permessage-deflate; server_max_window_bits=15"]
  else responseHeaders.

Definition permessageDeflateOf (req : IncomingMessage) : bool :=
  JS.includes (js "permessage-deflate")
    (JS.toString (headers req !! js "sec-websocket-extensions")).

(** The listener of the server's 'upgrade' event.  An exception of
    [url.parse] leaves the socket untouched. *)
Definition upgradeListener (req : IncomingMessage)
    : Exc (list SocketEffect) :=
  if negb (bool_decide (headers req !! js "upgrade" = Some (js "websocket")))
     || negb (JS.truthyOpt (url req))
  then Ok [SocketEnd badRequestLine]
  else
    parsed <-! url_parse (JS.toString (url req)) ;;
    let token := tokenOf (query parsed) in
    if negb (JS.truthyOpt token) then Ok [SocketEnd badRequestLine]
    else
      Ok [SocketOnError;
          SocketWrite (JS.join CRLF (handshakeHeaders req) ++ CRLF ++ CRLF);
          HandleWebSocket (query parsed) (permessageDeflateOf req)].

End Handlers.

End Server.

(** ** The game-view custom element *)

Module GameView.

(** A JavaScript array of booleans.  [None] is a hole: an index below
    [length] that was never written. *)
Abbreviation BoolArray := (list (option bool)).

(** [arr[i]] read in a condition: holes and indices out of range give
    [undefined], which is falsy. *)
Definition truthyAt (arr : BoolArray) (i : nat) : bool :=
  match arr !! i with
  | Some (Some b) => b
  | _ => false
  end.

(** [arr[i] = v]: writing at or beyond [length] extends the array, the
    indices in between become holes. *)
Definition setAt (arr : BoolArray) (i : nat) (v : bool) : BoolArray :=
  if decide (i < length arr)%nat then <[i := Some v]> arr
  else arr ++ replicate (i - length arr) None ++ [Some v].

(** [arr[b] = v] for a button number: a negative number names an
    ordinary property, not an element, and no element changes. *)
Definition setAtZ (arr : BoolArray) (b : Z) (v : bool) : BoolArray :=
  if decide (0 <= b)%Z then setAt arr (Z.to_nat b) v else arr.

(** The argument of [setInputChar]: a string, or the number [e.which]. *)
Inductive InputChar :=
| CharString (s : jsstring)
| CharNumber (n : nat).

(** Calls of the global bridge functions and of the DOM, in order. *)
Inductive Effect :=
| SetKeyState (vk : nat) (state : bool)
| SetMouseButtonState (button : Z) (state : bool)
| SetInputChar (c : InputChar)
| SetRawMouseCapture (capture : bool)
| PreventDefault
| StopPropagation
| ExitFullscreen
| ExitPointerLock
| RequestPointerLock
| DispatchPointerLockChange (locked : bool)
| HintActive (active : bool).

Definition ModeControling : N := 0.
Definition ModeObserving : N := 1.

(** The private fields of the element that the handlers use. *)
Record GameView := {
  _mode : N;
  _keysState : BoolArray;
  _buttonsState : BoolArray;
  _acceptInput : bool;
  _pointerLocked : bool;
  _fullscreenActive : bool
}.

Definition initial : GameView :=
  {| _mode := ModeControling; _keysState := []; _buttonsState := [];
     _acceptInput := false; _pointerLocked := false;
     _fullscreenActive := false |}.

Definition isObservingMode (g : GameView) : bool := _mode g =? ModeObserving.
Definition isControlingMode (g : GameView) : bool := _mode g =? ModeControling.

Record KeyboardEvent := {
  key : jsstring;
  shiftKey : bool;
  which : nat;
  location : nat
}.

Record MouseEvent := { button : Z }.

Definition mapMouseButton (button : Z) : Z :=
  if (button =? 2)%Z then 1%Z
  else if (button =? 1)%Z then 2%Z
  else button.

Definition mapKey (which location : nat) : nat :=
  if (which =? 18)%nat then (if (location =? 1)%nat then 164 else 165)%nat
  else if (which =? 17)%nat then (if (location =? 1)%nat then 162 else 163)%nat
  else if (which =? 16)%nat then (if (location =? 1)%nat then 160 else 161)%nat
  else which.

Definition isLMB (e : MouseEvent) : bool := (button e =? 0)%Z.

(** One call of the callback given to [Array.prototype.map] in
    [_resetStates]: index [i] is visited against the array as it is by
    then; holes are skipped. *)
Definition resetStep (release : nat -> Effect)
    (acc : BoolArray * list Effect) (i : nat) : BoolArray * list Effect :=
  match acc.1 !! i with
  | Some (Some true) => (<[i := Some false]> acc.1, acc.2 ++ [release i])
  | _ => acc
  end.

(** [arr.map((active, i) => { if (active) { arr[i] = false; release(i) } })]:
    the indices below the length read at the start, in ascending order. *)
Definition resetArray (release : nat -> Effect) (arr : BoolArray)
    : BoolArray * list Effect :=
  fold_left (resetStep release) (seq 0 (length arr)) (arr, []).

Definition NUL : jsstring := [0].

(** [_resetStates]. *)
Definition _resetStates (g : GameView) : GameView * list Effect :=
  let '(keys, keyEffects) :=
    resetArray (fun k => SetKeyState k false) (_keysState g) in
  let '(buttons, buttonEffects) :=
    resetArray (fun b => SetMouseButtonState (Z.of_nat b) false)
               (_buttonsState g) in
  ({| _mode := _mode g; _keysState := keys; _buttonsState := buttons;
      _acceptInput := _acceptInput g; _pointerLocked := _pointerLocked g;
      _fullscreenActive := _fullscreenActive g |},
   [SetInputChar (CharString NUL)] ++ keyEffects ++ buttonEffects).

(** [_handleWindowBlur]. *)
Definition _handleWindowBlur (g : GameView) : GameView * list Effect :=
  _resetStates g.

(** [_handlePointerLockChange]; [pointerLocked] is the outcome of
    [document.pointerLockElement === this]. *)
Definition _handlePointerLockChange (pointerLocked : bool) (g : GameView)
    : GameView * list Effect :=
  let wasPointerLocked := _pointerLocked g in
  let g1 :=
    {| _mode := _mode g; _keysState := _keysState g;
       _buttonsState := _buttonsState g; _acceptInput := pointerLocked;
       _pointerLocked := pointerLocked;
       _fullscreenActive := _fullscreenActive g |} in
  let changeEffects :=
    if negb (eqb pointerLocked wasPointerLocked)
    then [SetRawMouseCapture pointerLocked;
          DispatchPointerLockChange pointerLocked;
          HintActive pointerLocked]
    else [] in
  if negb pointerLocked && wasPointerLocked then
    let '(g2, resetEffects) := _resetStates g1 in
    (g2, changeEffects ++ resetEffects)
  else (g1, changeEffects).

Definition withAcceptInput (g : GameView) (a : bool) : GameView :=
  {| _mode := _mode g; _keysState := _keysState g;
     _buttonsState := _buttonsState g; _acceptInput := a;
     _pointerLocked := _pointerLocked g;
     _fullscreenActive := _fullscreenActive g |}.

Definition withKeys (g : GameView) (keys : BoolArray) : GameView :=
  {| _mode := _mode g; _keysState := keys;
     _buttonsState := _buttonsState g; _acceptInput := _acceptInput g;
     _pointerLocked := _pointerLocked g;
     _fullscreenActive := _fullscreenActive g |}.

Definition withButtons (g : GameView) (buttons : BoolArray) : GameView :=
  {| _mode := _mode g; _keysState := _keysState g;
     _buttonsState := buttons; _acceptInput := _acceptInput g;
     _pointerLocked := _pointerLocked g;
     _fullscreenActive := _fullscreenActive g |}.

(** [_handleMousedown]. *)
Definition _handleMousedown (e : MouseEvent) (g : GameView)
    : GameView * list Effect :=
  let leftMouseButton := isLMB e in
  let eff1 := if negb leftMouseButton then [PreventDefault] else [] in
  let g1 :=
    if isObservingMode g && leftMouseButton then withAcceptInput g true
    else g in
  if isControlingMode g1 then
    if negb (_pointerLocked g1) && leftMouseButton
    then (g1, eff1 ++ [RequestPointerLock])
    else (withButtons g1 (setAtZ (_buttonsState g1) (button e) true),
          eff1 ++ [SetMouseButtonState (mapMouseButton (button e)) true])
  else (g1, eff1).

(** [_handleMouseup]. *)
Definition _handleMouseup (e : MouseEvent) (g : GameView)
    : GameView * list Effect :=
  let leftMouseButton := isLMB e in
  let '(g1, eff1) :=
    if isObservingMode g && leftMouseButton
    then _resetStates (withAcceptInput g false)
    else (g, []) in
  if isControlingMode g1 then
    (withButtons g1 (setAtZ (_buttonsState g1) (button e) false),
     [PreventDefault] ++ eff1
       ++ [SetMouseButtonState (mapMouseButton (button e)) false])
  else (g1, [PreventDefault] ++ eff1).

(** [_handleKeydown]. *)
Definition _handleKeydown (e : KeyboardEvent) (g : GameView)
    : GameView * list Effect :=
  if negb (_acceptInput g) then (g, [])
  else if bool_decide (key e = js "Escape") && shiftKey e then
    (g, [PreventDefault; StopPropagation]
          ++ (if _fullscreenActive g then [ExitFullscreen] else [])
          ++ (if _pointerLocked g then [ExitPointerLock] else []))
  else
    let vk := mapKey (which e) (location e) in
    if truthyAt (_keysState g) vk then (g, [PreventDefault; StopPropagation])
    else
      (withKeys g (setAt (_keysState g) vk true),
       [PreventDefault; StopPropagation; SetKeyState vk true]
         ++ (if (length (key e) =? 1)%nat
             then [SetInputChar (CharString (key e))]
             else if (2 <? length (key e))%nat
             then [SetInputChar (CharNumber (which e))]
             else [])).

(** [_handleKeyup]. *)
Definition _handleKeyup (e : KeyboardEvent) (g : GameView)
    : GameView * list Effect :=
  if negb (_acceptInput g) then (g, [])
  else
    let vk := mapKey (which e) (location e) in
    (withKeys g (setAt (_keysState g) vk false),
     [PreventDefault; StopPropagation; SetKeyState vk false;
      SetInputChar (CharString NUL)]).

End GameView.

(** ** The credential store of the browser workbench *)

Module Credentials.

Record ICredential := {
  service : jsstring;
  account : jsstring;
  password : jsstring
}.

(** The provider object together with the one local-storage item it
    uses.  The item is held as the array [JSON.parse] yields for it;
    [None] stands for a missing item, one that does not parse, and one
    that is not an array, which the getter all turns into []. *)
Record Provider := {
  _credentials : option (list ICredential);
  stored : option (list ICredential)
}.

(** The getter [credentials]: loads the item on first use. *)
Definition credentials (p : Provider) : Provider * list ICredential :=
  match _credentials p with
  | Some creds => (p, creds)
  | None =>
      let creds := default [] (stored p) in
      ({| _credentials := Some creds; stored := stored p |}, creds)
  end.

(** [save]. *)
Definition save (p : Provider) : Provider :=
  let '(p1, creds) := credentials p in
  {| _credentials := _credentials p1; stored := Some creds |}.

(** The test inside [deletePassword]'s filter callback. *)
Definition matches (service0 account0 : jsstring) (c : ICredential) : bool :=
  bool_decide (service c = service0) && bool_decide (account c = account0).

(** The loop of [getPassword]; [account0] is [None] when the argument
    is not a string. *)
Fixpoint lookupPassword (service0 : jsstring) (account0 : option jsstring)
    (creds : list ICredential) : option jsstring :=
  match creds with
  | [] => None
  | c :: rest =>
      if bool_decide (service c = service0)
         && match account0 with
            | None => true
            | Some a => bool_decide (a = account c)
            end
      then Some (password c)
      else lookupPassword service0 account0 rest
  end.

(** [getPassword]. *)
Definition getPassword (service0 : jsstring) (account0 : option jsstring)
    (p : Provider) : Provider * option jsstring :=
  let '(p1, creds) := credentials p in
  (p1, lookupPassword service0 account0 creds).

(** [deletePassword]. *)
Definition deletePassword (service0 account0 : jsstring) (p : Provider)
    : Provider * bool :=
  let '(p1, creds) := credentials p in
  let found := existsb (matches service0 account0) creds in
  let p2 :=
    {| _credentials :=
         Some (List.filter (fun c => negb (matches service0 account0 c)) creds);
       stored := stored p1 |} in
  (if found then save p2 else p2, found).

(** [setPassword]. *)
Definition setPassword (service0 account0 password0 : jsstring)
    (p : Provider) : Provider :=
  let '(p1, _) := deletePassword service0 account0 p in
  let '(p2, creds) := credentials p1 in
  let p3 :=
    {| _credentials :=
         Some (creds ++ [{| service := service0; account := account0;
                            password := password0 |}]);
       stored := stored p2 |} in
  save p3.

(** [findPassword] and [findCredentials] answer null and [] always. *)
Definition findPassword (_service : jsstring) (p : Provider)
    : Provider * option jsstring :=
  (p, None).

Definition findCredentials (_service : jsstring) (p : Provider)
    : Provider * list (jsstring * jsstring) :=
  (p, []).

End Credentials.

(** ** Vocabulary of the properties *)

Module GameViewSpec.
Import GameView.

#[global] Instance InputChar_eq_dec : EqDecision InputChar.
Proof. solve_decision. Defined.

#[global] Instance Effect_eq_dec : EqDecision Effect.
Proof. solve_decision. Defined.

(** Number of times the call [e] occurs in a log. *)
Definition calls (e : Effect) (log : list Effect) : nat :=
  count_occ Effect_eq_dec log e.

(** An array in which every [true] element has become [false]. *)
Definition released (arr : BoolArray) : BoolArray :=
  (fun o => match o with Some true => Some false | _ => o end) <$> arr.

(** Indices of the [true] elements, ascending, counted from [off]. *)
Fixpoint activeFrom (off : nat) (arr : BoolArray) : list nat :=
  match arr with
  | [] => []
  | Some true :: rest => off :: activeFrom (S off) rest
  | _ :: rest => activeFrom (S off) rest
  end.

End GameViewSpec.

Module CredentialsSpec.
Import Credentials.

(** The credentials the provider works on at its next use. *)
Definition current (p : Provider) : list ICredential := (credentials p).2.

Definition keyOf (c : ICredential) : jsstring * jsstring :=
  (service c, account c).

(** At most one credential per (service, account) pair. *)
Definition onePerAccount (creds : list ICredential) : Prop :=
  NoDup (keyOf <$> creds).

(** The credentials of other (service, account) pairs, in their order. *)
Definition others (service0 account0 : jsstring) (creds : list ICredential)
    : list ICredential :=
  List.filter (fun c => negb (matches service0 account0 c)) creds.

End CredentialsSpec.

Module ServerSpec.
Import Server.

(** The segments an absolute path resolves to. *)
Definition pathSegments (p : jsstring) : list jsstring :=
  Path.normSegments false (JS.split Path.SLASH p).

Fixpoint isPrefix (l1 l2 : list jsstring) : bool :=
  match l1, l2 with
  | [], _ => true
  | _ :: _, [] => false
  | a :: l1', b :: l2' => bool_decide (a = b) && isPrefix l1' l2'
  end.

(** [p] names [root] or something below it. *)
Definition withinRoot (root p : jsstring) : bool :=
  Path.isAbsolute p && isPrefix (pathSegments root) (pathSegments p).

(** A segment without separator. *)
Definition noSlash (seg : jsstring) : Prop := Forall (fun c => c <> Path.SLASH) seg.

(** A segment that [normalizeString] keeps as it is. *)
Definition plain (seg : jsstring) : Prop :=
  seg <> [] /\ seg <> Path.dot /\ seg <> Path.dotdot /\ noSlash seg.

(** The non-empty pieces of a split path. *)
Definition dropEmpty (segs : list jsstring) : list jsstring :=
  List.filter (fun seg => negb (bool_decide (seg = []))) segs.

(** The text of the manifest; an apostrophe stands for a double quote. *)
Definition manifestText : jsstring :=
  JS.litq
    "{'name':'FxDK long','short_name':'FxDK short','start_url':'/','lang':'en-US','display':'standalone'}".

(** The upgrade listener closes the socket with the 400 status line. *)
Definition rejected (outcome : Exc (list SocketEffect)) : Prop :=
  outcome = Ok [SocketEnd badRequestLine].

(** The condition under which an upgrade is said to be rejected: the
    Upgrade header is not "websocket", or the reconnectionToken
    parameter of the parsed query [q] is absent or not a single string. *)
Definition statedRejectCondition (req : IncomingMessage)
    (q : gmap jsstring QueryValue) : Prop :=
  headers req !! js "upgrade" <> Some (js "websocket")
  \/ ~ exists s, q !! js "reconnectionToken" = Some (QString s).

(** The file a request for an ordinary path is answered from:
    the decoded, normalised pathname below the application root, a
    leading "/static/" being cut off first. *)
Definition requestedFile (appRoot pathname : jsstring) : Exc jsstring :=
  d <-! URIDecode.decodeURIComponent
          (if JS.startsWith (js "/static/") pathname
           then JS.substr 8 pathname else pathname) ;;
  Ok (Path.join [appRoot; Path.normalize d]).

(** The three Numbers a validator is made of: the inode number and the
    size as the doubles they become, and the time value of [mtime]. *)
Definition validatorNumbers (st : Stats) : Z * Z * option Z :=
  (JS.toDouble (Z.of_N (toN (ino st))),
   JS.toDouble (Z.of_N (toN (size st))),
   JS.getTime (mtime st)).

(** The validator as it is said to be, W/"<ino>-<size>-<mtimeMs>", from
    the texts of [stat.ino], [stat.size] and [stat.mtimeMs]. *)
Definition statedEtag (inoText sizeText mtimeMsText : jsstring) : jsstring :=
  js "W/" ++ [34] ++ inoText ++ js "-" ++ sizeText ++ js "-" ++ mtimeMsText
    ++ [34].

End ServerSpec.

(** ** Sample requests and a sample file system *)

Module Sample.
Import Server.

(** [url.parse(u, true)] at the request targets of the examples. *)
Definition parsedTargets : list (jsstring * UrlWithParsedQuery) :=
  [ (js "/manifest.json",
     {| pathname := Some (js "/manifest.json"); query := ∅ |});
    (js "/vscode-remote-resource",
     {| pathname := Some (js "/vscode-remote-resource"); query := ∅ |});
    (js "/%", {| pathname := Some (js "/%"); query := ∅ |});
    (js "/out/vs/loader.js",
     {| pathname := Some (js "/out/vs/loader.js"); query := ∅ |});
    (js "/static/out/vs/loader.js",
     {| pathname := Some (js "/static/out/vs/loader.js"); query := ∅ |});
    (js "/../../etc/passwd",
     {| pathname := Some (js "/../../etc/passwd"); query := ∅ |});
    (js "/static/../../etc/passwd",
     {| pathname := Some (js "/static/../../etc/passwd"); query := ∅ |});
    (js "/?reconnectionToken=",
     {| pathname := Some (js "/");
        query := {[ js "reconnectionToken" := QString [] ]} |});
    (js "/?reconnectionToken=c0e3a8af&reconnection=false",
     {| pathname := Some (js "/");
        query := <[ js "reconnectionToken" := QString (js "c0e3a8af") ]>
                   {[ js "reconnection" := QString (js "false") ]} |}) ].

Fixpoint lookupTarget (table : list (jsstring * UrlWithParsedQuery))
    (u : jsstring) : Exc UrlWithParsedQuery :=
  match table with
  | [] => Throw UrlParseError
  | (u', parsed) :: rest =>
      if bool_decide (u' = u) then Ok parsed else lookupTarget rest u
  end.

(** The sample parser knows the targets above and raises on all others. *)
Definition url_parse (u : jsstring) : Exc UrlWithParsedQuery :=
  lookupTarget parsedTargets u.

(** [URI.from({ scheme: 'file', path }).fsPath] on POSIX.  A path
    without a leading slash gets one; a path that begins with two
    slashes is refused, the URI having no authority; the slash before a
    drive letter is dropped and the letter lower-cased. *)
Definition fileUriFsPath (p : jsstring) : Exc jsstring :=
  if JS.startsWith (js "//") p then Throw UriValidationError
  else
    let path := if JS.startsWith (js "/") p then p else Path.SLASH :: p in
    match path with
    | _ :: c :: 58 :: rest =>
        if ((65 <=? c) && (c <=? 90)) || ((97 <=? c) && (c <=? 122))
        then Ok (JS.lowerUnit c :: 58 :: rest)
        else Ok path
    | _ => Ok path
    end.

Definition dirname : jsstring := js "/srv/fxcode/out/vs/fxdk/node".

Definition passwdStats : Stats :=
  {| ino := {| toN := 1311; toN_range := eq_refl |};
     size := {| toN := 2903; toN_range := eq_refl |};
     mtime := JS.DateOf 1604310000000 |}.

(** The loader was last modified 1604311200500.25 ms after the epoch:
    its [mtimeMs] is 1604311200500.25 and its [mtime] holds the whole
    milliseconds. *)
Definition loaderStats : Stats :=
  {| ino := {| toN := 52; toN_range := eq_refl |};
     size := {| toN := 30213; toN_range := eq_refl |};
     mtime := JS.DateOf 1604311200500 |}.

(** The same file with an inode number beyond 2^53, and one with the
    inode number after it. *)
Definition bigInodeStats : Stats :=
  {| ino := {| toN := 9007199254740992; toN_range := eq_refl |};
     size := {| toN := 30213; toN_range := eq_refl |};
     mtime := JS.DateOf 1604311200500 |}.

Definition nextInodeStats : Stats :=
  {| ino := {| toN := 9007199254740993; toN_range := eq_refl |};
     size := {| toN := 30213; toN_range := eq_refl |};
     mtime := JS.DateOf 1604311200500 |}.

(** A file system with two files. *)
Definition stat (p : jsstring) : option Stats :=
  if bool_decide (p = js "/etc/passwd") then Some passwdStats
  else if bool_decide (p = js "/srv/fxcode/out/vs/loader.js")
  then Some loaderStats
  else None.

Definition emptyTokenTarget : jsstring := js "/?reconnectionToken=".

Definition tokenTarget : jsstring :=
  js "/?reconnectionToken=c0e3a8af&reconnection=false".

Definition tokenQuery : gmap jsstring QueryValue :=
  <[ js "reconnectionToken" := QString (js "c0e3a8af") ]>
    {[ js "reconnection" := QString (js "false") ]}.

Definition request (target : jsstring) (hdrs : list (jsstring * jsstring))
    : IncomingMessage :=
  {| method := js "GET"; url := Some target; headers := list_to_map hdrs |}.

(** The client handshake of RFC 6455, section 1.3. *)
Definition upgradeRequest (target : jsstring) : IncomingMessage :=
  request target
    [ (js "upgrade", js "websocket");
      (js "connection", js "Upgrade");
      (js "sec-websocket-key", js "dGhlIHNhbXBsZSBub25jZQ==");
      (js "sec-websocket-version", js "13") ].

End Sample.

(** ** The game view as a whole: API, DOM events, rendering, listeners *)

Module GameViewElement.
Import GameView.

(** Everything the element calls: what the input handlers call, and the
    calls of the API methods and of the remaining handlers. *)
Inductive Call :=
| Handled (e : Effect)
| SendMouseWheel (deltaY : Q)
| Resize (width height : Q)
| DispatchModeChange (mode : N)
| RequestFullscreen
| ConsoleWarn (message : jsstring).

Definition withMode (g : GameView) (m : N) : GameView :=
  {| _mode := m; _keysState := _keysState g;
     _buttonsState := _buttonsState g; _acceptInput := _acceptInput g;
     _pointerLocked := _pointerLocked g;
     _fullscreenActive := _fullscreenActive g |}.

Definition withFullscreen (g : GameView) (active : bool) : GameView :=
  {| _mode := _mode g; _keysState := _keysState g;
     _buttonsState := _buttonsState g; _acceptInput := _acceptInput g;
     _pointerLocked := _pointerLocked g;
     _fullscreenActive := active |}.

Definition handled (r : GameView * list Effect) : GameView * list Call :=
  (r.1, Handled <$> r.2).

(** The setter [mode]. *)
Definition setMode (newMode : N) (g : GameView) : GameView * list Call :=
  (withMode g newMode, [DispatchModeChange newMode]).

(** [enterFullscreenControlingMode]. *)
Definition enterFullscreenControlingMode (g : GameView)
    : GameView * list Call :=
  let '(g1, calls) := setMode ModeControling g in
  (g1, calls ++ [Handled (SetRawMouseCapture true);
                 Handled RequestPointerLock; RequestFullscreen]).

(** [lockPointer], with its answer. *)
Definition lockPointer (g : GameView) : bool * list Call :=
  if negb (isControlingMode g) then
    (false,
     [ConsoleWarn (js "game-view is not in controling mode thus it is impossible to lock pointer")])
  else (true, [Handled RequestPointerLock]).

(** [enterFullscreen], with its answer. *)
Definition enterFullscreen (g : GameView) : bool * list Call :=
  if negb (isControlingMode g) then
    (false,
     [ConsoleWarn (js "game-view is not in controling mode thus it is impossible to enter fullscreen")])
  else (true, [RequestFullscreen]).

(** [_handleFullscreenChange]; [active] is the outcome of
    [document.fullscreenElement === this], [rect] the width and height
    of [getBoundingClientRect()]. *)
Definition _handleFullscreenChange (active : bool) (rect : Q * Q)
    (g : GameView) : GameView * list Call :=
  (withFullscreen g active,
   if active then [Resize rect.1 rect.2] else []).

(** [_handleDocumentMouseMove]; [onElement] is the outcome of
    [e.target === this]. *)
Definition _handleDocumentMouseMove (onElement : bool) (g : GameView)
    : GameView * list Call :=
  (g, if _pointerLocked g && negb onElement
      then [Handled ExitPointerLock] else []).

(** [_handleMousewheel]. *)
Definition _handleMousewheel (deltaY : Q) (g : GameView)
    : GameView * list Call :=
  (g, Handled PreventDefault
        :: (if _acceptInput g then [SendMouseWheel (- deltaY)] else [])).

(** [_handleMousemove]. *)
Definition _handleMousemove (g : GameView) : GameView * list Call :=
  (g, [Handled PreventDefault]).

(** What can happen to a connected element. *)
Inductive Event :=
| Keydown (e : KeyboardEvent)
| Keyup (e : KeyboardEvent)
| Mousedown (e : MouseEvent)
| Mouseup (e : MouseEvent)
| Mousewheel (deltaY : Q)
| Mousemove
| DocumentMouseMove (onElement : bool)
| WindowBlur
| PointerLockChange (locked : bool)
| FullscreenChange (active : bool) (rect : Q * Q)
| SetMode (newMode : N)
| EnterFullscreenControlingMode
| LockPointer
| EnterFullscreen.

Definition dispatch (ev : Event) (g : GameView) : GameView * list Call :=
  match ev with
  | Keydown e => handled (_handleKeydown e g)
  | Keyup e => handled (_handleKeyup e g)
  | Mousedown e => handled (_handleMousedown e g)
  | Mouseup e => handled (_handleMouseup e g)
  | Mousewheel deltaY => _handleMousewheel deltaY g
  | Mousemove => _handleMousemove g
  | DocumentMouseMove onElement => _handleDocumentMouseMove onElement g
  | WindowBlur => handled (_handleWindowBlur g)
  | PointerLockChange locked => handled (_handlePointerLockChange locked g)
  | FullscreenChange active rect => _handleFullscreenChange active rect g
  | SetMode newMode => setMode newMode g
  | EnterFullscreenControlingMode => enterFullscreenControlingMode g
  | LockPointer => (g, (lockPointer g).2)
  | EnterFullscreen => (g, (enterFullscreen g).2)
  end.

(** A history of events, oldest first, with all the calls it made. *)
Fixpoint run (events : list Event) (g : GameView) : GameView * list Call :=
  match events with
  | [] => (g, [])
  | ev :: rest =>
      let '(g1, calls1) := dispatch ev g in
      let '(g2, calls2) := run rest g1 in
      (g2, calls1 ++ calls2)
  end.

(** The keys the game holds pressed after a log of calls: the last
    [setKeyState] of a key decides. *)
Fixpoint gameKeys (log : list Call) (pressed : nat -> bool) : nat -> bool :=
  match log with
  | [] => pressed
  | Handled (SetKeyState vk state) :: rest =>
      gameKeys rest (fun k => if (k =? vk)%nat then state else pressed k)
  | _ :: rest => gameKeys rest pressed
  end.

(** ** The draw loop *)

(** [animationFrame] of the element, the frame requests the browser
    holds for it, the handle the next [requestAnimationFrame] answers,
    and the number of [draw] calls so far. *)
Record Renderer := {
  animationFrame : option N;
  pendingFrames : list N;
  nextHandle : N;
  draws : nat
}.

Definition idle : Renderer :=
  {| animationFrame := None; pendingFrames := []; nextHandle := 1;
     draws := 0 |}.

(** [drawRoutine]: draw, then ask for the next frame. *)
Definition drawRoutine (r : Renderer) : Renderer :=
  {| animationFrame := Some (nextHandle r);
     pendingFrames := pendingFrames r ++ [nextHandle r];
     nextHandle := nextHandle r + 1;
     draws := S (draws r) |}.

(** [pauseRendering]. *)
Definition pauseRendering (r : Renderer) : Renderer :=
  match animationFrame r with
  | Some h =>
      {| animationFrame := None;
         pendingFrames := List.filter (fun h' => negb (h' =? h)) (pendingFrames r);
         nextHandle := nextHandle r; draws := draws r |}
  | None => r
  end.

(** [unpauseRendering]. *)
Definition unpauseRendering (r : Renderer) : Renderer :=
  match animationFrame r with
  | None => drawRoutine r
  | Some _ => r
  end.

(** The browser runs the frame request [h] if it still holds it. *)
Definition frame (h : N) (r : Renderer) : Renderer :=
  if existsb (N.eqb h) (pendingFrames r) then
    drawRoutine
      {| animationFrame := animationFrame r;
         pendingFrames := List.filter (fun h' => negb (h' =? h)) (pendingFrames r);
         nextHandle := nextHandle r; draws := draws r |}
  else r.

Inductive RenderStep :=
| Pause
| Unpause
| Frame (h : N).

Definition renderStep (st : RenderStep) (r : Renderer) : Renderer :=
  match st with
  | Pause => pauseRendering r
  | Unpause => unpauseRendering r
  | Frame h => frame h r
  end.

Definition renderRun (steps : list RenderStep) (r : Renderer) : Renderer :=
  fold_left (fun r st => renderStep st r) steps r.

(** ** Event listeners *)

Inductive Target := OnElement | OnDocument | OnWindow.

(** The handler fields of the element, and the listeners of others. *)
Inductive Callback :=
| HandleMousedown
| HandleMouseup
| HandleMousemove
| HandleMousewheel
| HandleKeydown
| HandleKeyup
| HandlePointerLockChange
| HandleFullscreenChange
| HandleDocumentMouseMove
| HandleWindowBlur
| Foreign (id : N).

Record Listener := {
  target : Target;
  type : jsstring;
  callback : Callback;
  capture : bool
}.

#[global] Instance Target_eq_dec : EqDecision Target.
Proof. solve_decision. Defined.

#[global] Instance Callback_eq_dec : EqDecision Callback.
Proof. solve_decision. Defined.

#[global] Instance Listener_eq_dec : EqDecision Listener.
Proof. solve_decision. Defined.

(** [target.addEventListener(type, callback, capture)]: a listener
    that is registered already is not registered twice. *)
Definition addEventListener (l : Listener) (reg : list Listener)
    : list Listener :=
  if bool_decide (l ∈ reg) then reg else reg ++ [l].

(** [target.removeEventListener(type, callback, capture)]. *)
Definition removeEventListener (l : Listener) (reg : list Listener)
    : list Listener :=
  List.filter (fun l' => negb (bool_decide (l' = l))) reg.

(** The listeners of [_addEventListeners], in its order. *)
Definition ownListeners : list Listener :=
  [ {| target := OnElement; type := js "mousedown";
       callback := HandleMousedown; capture := false |};
    {| target := OnElement; type := js "mouseup";
       callback := HandleMouseup; capture := false |};
    {| target := OnElement; type := js "mousemove";
       callback := HandleMousemove; capture := false |};
    {| target := OnElement; type := js "mousewheel";
       callback := HandleMousewheel; capture := false |};
    {| target := OnDocument; type := js "keydown";
       callback := HandleKeydown; capture := true |};
    {| target := OnDocument; type := js "keyup";
       callback := HandleKeyup; capture := true |};
    {| target := OnDocument; type := js "pointerlockchange";
       callback := HandlePointerLockChange; capture := false |};
    {| target := OnDocument; type := js "fullscreenchange";
       callback := HandleFullscreenChange; capture := false |};
    {| target := OnDocument; type := js "mousemove";
       callback := HandleDocumentMouseMove; capture := false |};
    {| target := OnWindow; type := js "blur";
       callback := HandleWindowBlur; capture := false |} ].

(** The listeners [_removeEventListeners] names, in its order. *)
Definition removedListeners : list Listener :=
  [ {| target := OnElement; type := js "mousedown";
       callback := HandleMousedown; capture := false |};
    {| target := OnElement; type := js "mouseup";
       callback := HandleMouseup; capture := false |};
    {| target := OnElement; type := js "mousemove";
       callback := HandleMousemove; capture := false |};
    {| target := OnElement; type := js "mousewheel";
       callback := HandleMousewheel; capture := false |};
    {| target := OnDocument; type := js "keydown";
       callback := HandleKeydown; capture := true |};
    {| target := OnDocument; type := js "keyup";
       callback := HandleKeyup; capture := true |};
    {| target := OnDocument; type := js "pointerlockchange";
       callback := HandlePointerLockChange; capture := false |};
    {| target := OnDocument; type := js "fullscreenchange";
       callback := HandleFullscreenChange; capture := false |};
    {| target := OnDocument; type := js "mousemove";
       callback := HandleDocumentMouseMove; capture := false |};
    {| target := OnWindow; type := js "blur";
       callback := HandleWindowBlur; capture := false |} ].

(** [_addEventListeners]. *)
Definition _addEventListeners (reg : list Listener) : list Listener :=
  fold_left (fun reg l => addEventListener l reg) ownListeners reg.

(** [_removeEventListeners]. *)
Definition _removeEventListeners (reg : list Listener) : list Listener :=
  fold_left (fun reg l => removeEventListener l reg) removedListeners reg.

(** The page as far as the element's life cycle touches it. *)
Record Page := {
  listeners : list Listener;
  renderer : Renderer
}.

(** [connectedCallback]. *)
Definition connectedCallback (pg : Page) : Page :=
  {| listeners := _addEventListeners (listeners pg);
     renderer := unpauseRendering (renderer pg) |}.

(** [disconnectedCallback]. *)
Definition disconnectedCallback (pg : Page) : Page :=
  {| listeners := _removeEventListeners (listeners pg);
     renderer := pauseRendering (renderer pg) |}.

End GameViewElement.

(** ** Vocabulary of the further properties *)

Module AnswerSpec.
Import Server.

(** The status codes the server sends. *)
Definition knownStatus (status : N) : Prop :=
  status = 200 \/ status = 304 \/ status = 400 \/ status = 404
  \/ status = 500.

(** One head, then either the end of the response or one file piped
    into it; a piped file goes with status 200. *)
Definition answeredOnce (effects : list ResEffect) : Prop :=
  (exists status hdrs body,
      effects = [WriteHead status hdrs; End body] /\ knownStatus status)
  \/ (exists hdrs filePath, effects = [WriteHead 200 hdrs; PipeFile filePath]).

Definition DASH : N := 45.

(** The text of a normalised absolute path with the given segments. *)
Definition absoluteForm (segs : list jsstring) (trailing : bool) : jsstring :=
  match segs with
  | [] => [Path.SLASH]
  | _ :: _ =>
      Path.SLASH
        :: JS.join [Path.SLASH] segs ++ (if trailing then [Path.SLASH] else [])
  end.

End AnswerSpec.

Module GameViewElementSpec.
Import GameView GameViewElement.

(** What one handler call does to the keys the game holds pressed. *)
Definition keyUpdate (pressed : nat -> bool) (e : Effect) : nat -> bool :=
  match e with
  | SetKeyState vk state => fun k => if (k =? vk)%nat then state else pressed k
  | _ => pressed
  end.

(** The game holds exactly the keys pressed that [_keysState] marks. *)
Definition mirrors (g : GameView) (pressed : nat -> bool) : Prop :=
  forall k, pressed k = truthyAt (_keysState g) k.

Definition nothingPressed : nat -> bool := fun _ => false.

(** The browser holds the frame request the element remembers, and no
    other. *)
Definition oneFrame (r : Renderer) : Prop :=
  pendingFrames r
  = match animationFrame r with
    | Some h => [h]
    | None => []
    end.

(** A keydown event other than Shift+Escape. *)
Definition ordinaryKey (e : KeyboardEvent) : Prop :=
  (bool_decide (key e = js "Escape") && shiftKey e) = false.

End GameViewElementSpec.

Module CredentialsRun.
Import Credentials.

(** The calls a user of the provider makes. *)
Inductive Op :=
| Get (service0 : jsstring) (account0 : option jsstring)
| Set_ (service0 account0 password0 : jsstring)
| Delete (service0 account0 : jsstring).

Definition apply (op : Op) (p : Provider) : Provider :=
  match op with
  | Get service0 account0 => (getPassword service0 account0 p).1
  | Set_ service0 account0 password0 =>
      setPassword service0 account0 password0 p
  | Delete service0 account0 => (deletePassword service0 account0 p).1
  end.

Definition applyAll (ops : list Op) (p : Provider) : Provider :=
  fold_left (fun p op => apply op p) ops p.

(** A provider object as the constructor leaves it, on a page whose
    local storage holds [item]. *)
Definition fresh (item : option (list ICredential)) : Provider :=
  {| _credentials := None; stored := item |}.

(** The provider a reload of the page creates. *)
Definition reload (p : Provider) : Provider := fresh (stored p).

End CredentialsRun.

(** ** The model behind the settings search *)

Module SearchResultModel.

Inductive SearchResultIdx := Local | Remote.

(** The numeric value of the enum, used as array index. *)
Definition idx (type : SearchResultIdx) : nat :=
  match type with Local => 0%nat | Remote => 1%nat end.

(** [arr[i] = v] on a JavaScript array: writing beyond the end leaves
    holes.  [None] is a falsy entry: a hole, [undefined] or [null]. *)
Fixpoint setAt {A : Type} (arr : list (option A)) (i : nat) (v : option A)
    : list (option A) :=
  match i, arr with
  | O, [] => [v]
  | O, _ :: rest => v :: rest
  | S i', [] => None :: setAt [] i' v
  | S i', x :: rest => x :: setAt rest i' v
  end.

(** [arr[i]] of a JavaScript array, [None] when falsy. *)
Definition at_ {A : Type} (arr : list (option A)) (i : nat) : option A :=
  match arr !! i with
  | Some v => v
  | None => None
  end.

Section Model.

(** [ISetting], [ISettingMatch] and the metadata of a result belong to
    the preferences service; the model reads the setting of a match and
    the key of a setting, nothing else. *)
Context {ISetting ISettingMatch Metadata : Type}.
Variable key : ISetting -> jsstring.
Variable setting : ISettingMatch -> ISetting.

Record ISearchResult := {
  filterMatches : list ISettingMatch;
  metadata : option Metadata
}.

Record IResolvedTOCEntry := {
  id : jsstring;
  settings : list ISetting;
  label : jsstring
}.

(** The two private fields; both start out [undefined]. *)
Record State := {
  rawSearchResults : option (list (option ISearchResult));
  cachedUniqueSearchResults : option (list (option ISearchResult))
}.

Definition initial : State :=
  {| rawSearchResults := None; cachedUniqueSearchResults := None |}.

(** The body of [getUniqueResults] below its two early returns.
    [objects.deepClone] yields an equal value. *)
Definition uniqueOf (raw : list (option ISearchResult))
    : list (option ISearchResult) :=
  let localResult := at_ raw (idx Local) in
  let localMatchKeys : gset jsstring :=
    match localResult with
    | Some l => list_to_set (map (fun m => key (setting m)) (filterMatches l))
    | None => ∅
    end in
  let remoteResult :=
    match at_ raw (idx Remote) with
    | Some r =>
        Some {| filterMatches :=
                  List.filter
                    (fun m => negb (bool_decide (key (setting m) ∈ localMatchKeys)))
                    (filterMatches r);
                metadata := metadata r |}
    | None => None
    end in
  [localResult; remoteResult].

Definition getUniqueResults (st : State)
    : list (option ISearchResult) * State :=
  match cachedUniqueSearchResults st with
  | Some cached => (cached, st)
  | None =>
      match rawSearchResults st with
      | None => ([], st)
      | Some raw =>
          let unique := uniqueOf raw in
          (unique,
           {| rawSearchResults := rawSearchResults st;
              cachedUniqueSearchResults := Some unique |})
      end
  end.

Definition getRawResults (st : State) : option (list (option ISearchResult)) :=
  rawSearchResults st.

Definition setResult (type : SearchResultIdx) (result : option ISearchResult)
    (st : State) : State :=
  {| cachedUniqueSearchResults := None;
     rawSearchResults :=
       Some (setAt (default [] (rawSearchResults st)) (idx type) result) |}.

Definition resultsAsGroup (st : State) : IResolvedTOCEntry * State :=
  let '(unique, st') := getUniqueResults st in
  let flatSettings :=
    flat_map (fun r => map setting (filterMatches r)) (omap (fun r => r) unique) in
  ({| id := js "settingsSearchResultGroup";
      settings := flatSettings;
      label := js "searchResults" |}, st').

(** The calls a settings editor makes on the model. *)
Inductive Call :=
| CallSetResult (type : SearchResultIdx) (result : option ISearchResult)
| CallGetUniqueResults
| CallGetRawResults
| CallResultsAsGroup.

Definition call (st : State) (c : Call) : State :=
  match c with
  | CallSetResult type result => setResult type result st
  | CallGetUniqueResults => snd (getUniqueResults st)
  | CallGetRawResults => st
  | CallResultsAsGroup => snd (resultsAsGroup st)
  end.

Definition run (calls : list Call) : State := fold_left call calls initial.

(** The keys of the settings a result matches. *)
Definition keysOf (r : ISearchResult) : list jsstring :=
  map (fun m => key (setting m)) (filterMatches r).

End Model.

Arguments ISearchResult : clear implicits.
Arguments State : clear implicits.
Arguments Call : clear implicits.
Arguments IResolvedTOCEntry : clear implicits.

End SearchResultModel.

(** Decides the comparisons between string literals in the goal. *)
Ltac decide_literals :=
  repeat match goal with
  | |- context [bool_decide ?P] =>
      let b := eval vm_compute in (bool_decide P) in
      change (bool_decide P) with b; cbv iota
  end.

(** ** Sanity checks of the built-ins *)

Example normalize_examples :
  Path.normalize (js "/foo/bar//baz/asdf/quux/..") = js "/foo/bar/baz/asdf"
  /\ Path.normalize (js "../../etc/passwd") = js "../../etc/passwd"
  /\ Path.normalize (js "/../../etc/passwd") = js "/etc/passwd"
  /\ Path.normalize (js "a/../../b/") = js "../b/"
  /\ Path.normalize (js "./") = js "./"
  /\ Path.normalize ([]) = js "."
  /\ Path.normalize (js "///") = js "/"
  /\ Path.normalize (js "a/./b/../c") = js "a/c".
Proof. vm_compute. repeat split. Qed.

Example join_examples :
  Path.join [js "/foo"; js "bar"; js "baz/asdf"; js "quux"; js ".."]
    = js "/foo/bar/baz/asdf"
  /\ Path.join [js "/srv/app"; js "../../etc/passwd"] = js "/etc/passwd"
  /\ Path.join [[]; []] = js ".".
Proof. vm_compute. repeat split. Qed.

Example extname_examples :
  Path.extname (js "index.html") = js ".html"
  /\ Path.extname (js "index.coffee.md") = js ".md"
  /\ Path.extname (js "index.") = js "."
  /\ Path.extname (js "index") = []
  /\ Path.extname (js ".index") = []
  /\ Path.extname (js ".index.md") = js ".md"
  /\ Path.extname (js "/a.b/c") = []
  /\ Path.extname (js "a/b.png/") = js ".png"
  /\ Path.extname (js "..") = []
  /\ Path.extname (js "a/..") = [].
Proof. vm_compute. repeat split. Qed.

Example decode_examples :
  URIDecode.decodeURIComponent (js "/a%20b") = Ok (js "/a b")
  /\ URIDecode.decodeURIComponent (js "%2e%2E%2f") = Ok (js "../")
  /\ URIDecode.decodeURIComponent (js "%C3%A9") = Ok [233]
  /\ URIDecode.decodeURIComponent (js "%E2%82%AC") = Ok [8364]
  /\ URIDecode.decodeURIComponent (js "%F0%9F%98%80") = Ok [55357; 56832]
  /\ URIDecode.decodeURIComponent (js "%") = Throw URIError
  /\ URIDecode.decodeURIComponent (js "%zz") = Throw URIError
  /\ URIDecode.decodeURIComponent (js "%C0%80") = Throw URIError
  /\ URIDecode.decodeURIComponent (js "%ED%A0%80") = Throw URIError
  /\ URIDecode.decodeURIComponent (js "%80") = Throw URIError
  /\ URIDecode.decodeURIComponent (js "%C3x") = Throw URIError.
Proof. vm_compute. repeat split. Qed.

Example sha1_examples :
  Crypto.sha1 (Crypto.utf8 (js "abc"))
    = [169; 153; 62; 54; 71; 6; 129; 106; 186; 62; 37; 113; 120; 80; 194;
       108; 156; 208; 216; 157]
  /\ Crypto.sha1Base64 ([]) = js "2jmj7l5rSw0yVb/vlWAYkK/YBwk="
  /\ Crypto.sha1Base64
       (js "dGhlIHNhbXBsZSBub25jZQ==258EAFA5-E914-47DA-95CA-C5AB0DC85B11")
     = js "s3pPLMBiTxaQ9kYGzzhZRbK+xOo="
  /\ Crypto.sha1Base64
       (js "abcdbcdecdefdefgefghfghighijhijkijkljklmklmnlmnomnopnopq")
     = js "hJg+RBw70m66rkqh+VEp5eVGcPE=".
Proof. vm_compute. repeat split. Qed.

Example contentType_examples :
  Server.contentTypeOf (js "/srv/app/index.html") = js "text/html"
  /\ Server.contentTypeOf (js "/srv/app/INDEX.HTML") = js "text/plain"
  /\ Server.contentTypeOf (js "/srv/app/logo.PNG") = js "image/png"
  /\ Server.contentTypeOf (js "/srv/app/.png") = js "text/plain"
  /\ Server.contentTypeOf (js "/srv/app/LICENSE") = js "text/plain"
  /\ Server.etagOf Sample.loaderStats
     = JS.litq "W/'52-30213-1604311200500'"
  /\ Server.APP_ROOT Sample.dirname = js "/srv/fxcode"
  /\ Server.WEB_MAIN_DEV Sample.dirname
     = js "/srv/fxcode/out/vs/fxdk/browser/workbench/workbench-dev.html".
Proof. vm_compute. repeat split. Qed.

Example json_examples :
  JSON.stringify Server.manifest = ServerSpec.manifestText
  /\ JSON.stringify [(js "a\b", [34; 10; 233; 55357])]
     = JS.litq "{'a\\b':'\'\n" ++ [233] ++ js "\ud83d" ++ JS.litq "'}".
Proof. vm_compute. repeat split. Qed.

Example keydown_examples :
  let g := GameView.withAcceptInput GameView.initial true in
  let w := {| GameView.key := js "w"; GameView.shiftKey := false;
              GameView.which := 87; GameView.location := 0 |} in
  let shift := {| GameView.key := js "Shift"; GameView.shiftKey := true;
                  GameView.which := 16; GameView.location := 1 |} in
  (GameView._handleKeydown w g).2
    = [GameView.PreventDefault; GameView.StopPropagation;
       GameView.SetKeyState 87 true;
       GameView.SetInputChar (GameView.CharString (js "w"))]
  /\ (GameView._handleKeydown w (GameView._handleKeydown w g).1).2
     = [GameView.PreventDefault; GameView.StopPropagation]
  /\ (GameView._handleKeydown shift g).2
     = [GameView.PreventDefault; GameView.StopPropagation;
        GameView.SetKeyState 160 true;
        GameView.SetInputChar (GameView.CharNumber 16)]
  /\ length (GameView._keysState (GameView._handleKeydown w g).1) = 88%nat.
Proof. vm_compute. repeat split. Qed.

(** The right button is announced to the game as button 1, but it is
    stored, and later released, under its DOM number 2. *)
Example right_button_examples :
  let g := GameView.withAcceptInput GameView.initial true in
  let down := GameView._handleMousedown {| GameView.button := 2 |} g in
  down.2 = [GameView.PreventDefault; GameView.SetMouseButtonState 1 true]
  /\ GameView._buttonsState down.1 = [None; None; Some true]
  /\ (GameView._resetStates down.1).2
     = [GameView.SetInputChar (GameView.CharString GameView.NUL);
        GameView.SetMouseButtonState 2 false].
Proof. vm_compute. repeat split. Qed.

(** ** [decodeURIComponent]: the loop never runs short of rounds *)

Section DecodeFacts.
Import URIDecode.

Lemma readEscape_length (s rest : jsstring) (b : N) :
  readEscape s = Some (b, rest) -> length s = (3 + length rest)%nat.
Proof.
  unfold readEscape.
  destruct s as [|p [|h [|l s]]]; try discriminate.
  destruct (p =? PERCENT); [|discriminate].
  destruct (hexVal h); [|discriminate].
  destruct (hexVal l); [|discriminate].
  intros H. injection H as _ <-. reflexivity.
Qed.

Lemma readContinuation_length (n : nat) (s rest : jsstring) (bs : list N) :
  readContinuation n s = Some (bs, rest) -> (length rest <= length s)%nat.
Proof.
  revert s bs. induction n as [|n IH]; intros s bs; cbn [readContinuation].
  - intros H. injection H as _ <-. lia.
  - destruct (readEscape s) as [[b after]|] eqn:E; [|discriminate].
    destruct ((128 <=? b) && (b <? 192)); [|discriminate].
    destruct (readContinuation n after) as [[bs' rest']|] eqn:E'; [|discriminate].
    intros H. injection H as _ <-.
    apply readEscape_length in E. apply IH in E'. lia.
Qed.

(** Any number of rounds from [length s] on gives the same outcome. *)
Lemma decodeLoop_fuel (fuel fuel' : nat) (s : jsstring) :
  (length s <= fuel)%nat -> (length s <= fuel')%nat ->
  decodeLoop fuel s = decodeLoop fuel' s.
Proof.
  revert fuel' s. induction fuel as [|fuel IH]; intros fuel' s Hf Hf'.
  - destruct s; [destruct fuel'; reflexivity | simpl in Hf; lia].
  - destruct s as [|c s]; [destruct fuel'; reflexivity|].
    destruct fuel' as [|fuel']; [simpl in Hf'; lia|].
    cbn [decodeLoop]. simpl in Hf, Hf'.
    destruct (c =? PERCENT).
    + destruct (readEscape (c :: s)) as [[b after]|] eqn:E; [|reflexivity].
      apply readEscape_length in E. simpl in E.
      destruct (leadingOnes b) as [|[|m]].
      * rewrite (IH fuel' after) by lia. reflexivity.
      * reflexivity.
      * destruct m as [|[|[|m]]]; try reflexivity;
          (destruct (readContinuation _ after) as [[cont after']|] eqn:E';
           [|reflexivity];
           apply readContinuation_length in E';
           destruct (codePoint b cont); [|reflexivity];
           rewrite (IH fuel' after') by lia; reflexivity).
    + rewrite (IH fuel' s) by lia. reflexivity.
Qed.

(** A string without "%" decodes to itself. *)
Lemma decode_without_escape (s : jsstring) :
  Forall (fun c => c <> PERCENT) s -> decodeURIComponent s = Ok s.
Proof.
  unfold decodeURIComponent.
  induction 1 as [|c s Hc _ IH]; [reflexivity|].
  cbn [length decodeLoop].
  destruct (N.eqb_spec c PERCENT); [contradiction|].
  rewrite IH. reflexivity.
Qed.

End DecodeFacts.

(** ** Path resolution below a root *)

Section PathFacts.
Import ServerSpec.

Lemma split_nonempty (sep : N) (s : jsstring) : JS.split sep s <> [].
Proof.
  destruct s as [|c s]; simpl; [discriminate|].
  destruct (c =? sep); [discriminate|].
  destruct (JS.split sep s); discriminate.
Qed.

Lemma split_app (sep : N) (a b : jsstring) :
  JS.split sep (a ++ sep :: b) = JS.split sep a ++ JS.split sep b.
Proof.
  induction a as [|c a IH]; simpl.
  - rewrite N.eqb_refl. reflexivity.
  - destruct (c =? sep); [rewrite IH; reflexivity|].
    rewrite IH.
    pose proof (split_nonempty sep a) as Hne.
    destruct (JS.split sep a) as [|seg segs]; [contradiction|]. reflexivity.
Qed.

Lemma split_noSlash_pieces (s : jsstring) :
  Forall noSlash (JS.split Path.SLASH s).
Proof.
  induction s as [|c s IH]; simpl.
  - repeat constructor.
  - destruct (N.eqb_spec c Path.SLASH) as [->|Hc].
    + constructor; [constructor | exact IH].
    + destruct (JS.split Path.SLASH s) as [|seg segs];
        [repeat constructor; exact Hc|].
      inversion IH; subst. constructor; [constructor; assumption | assumption].
Qed.

Lemma split_noSlash (seg : jsstring) :
  noSlash seg -> JS.split Path.SLASH seg = [seg].
Proof.
  induction 1 as [|c seg Hc _ IH]; simpl; [reflexivity|].
  destruct (N.eqb_spec c Path.SLASH); [contradiction|].
  rewrite IH. reflexivity.
Qed.

Lemma split_join (segs : list jsstring) :
  segs <> [] -> Forall noSlash segs ->
  JS.split Path.SLASH (JS.join [Path.SLASH] segs) = segs.
Proof.
  induction segs as [|seg segs IH]; [congruence|].
  intros _ Hall. inversion Hall as [|? ? Hseg Hrest]; subst.
  destruct segs as [|seg' segs].
  - simpl. apply split_noSlash, Hseg.
  - change (JS.join [Path.SLASH] (seg :: seg' :: segs))
      with (seg ++ Path.SLASH :: JS.join [Path.SLASH] (seg' :: segs)).
    rewrite split_app, (split_noSlash seg Hseg), IH by (congruence || assumption).
    reflexivity.
Qed.

Lemma normStep_plain (kept : list jsstring) (seg : jsstring) :
  Forall plain kept -> noSlash seg ->
  Forall plain (Path.normStep false kept seg).
Proof.
  intros Hkept Hseg. unfold Path.normStep.
  destruct (bool_decide (seg = [])) eqn:E1; [exact Hkept|].
  destruct (bool_decide (seg = Path.dot)) eqn:E2; [exact Hkept|].
  simpl.
  destruct (bool_decide (seg = Path.dotdot)) eqn:E3.
  - destruct kept as [|top below]; [constructor|].
    destruct (bool_decide (top = Path.dotdot)); [exact Hkept|].
    inversion Hkept; assumption.
  - apply bool_decide_eq_false in E1, E2, E3.
    constructor; [repeat split; assumption | exact Hkept].
Qed.

Lemma fold_normStep_plain (segs kept : list jsstring) :
  Forall plain kept -> Forall noSlash segs ->
  Forall plain (fold_left (Path.normStep false) segs kept).
Proof.
  revert kept. induction segs as [|seg segs IH]; intros kept Hkept Hsegs;
    simpl; [exact Hkept|].
  inversion Hsegs; subst. apply IH; [apply normStep_plain|]; assumption.
Qed.

Lemma pathSegments_plain (p : jsstring) : Forall plain (pathSegments p).
Proof.
  unfold pathSegments, Path.normSegments.
  rewrite <- (rev_involutive (fold_left _ _ _)), rev_involutive.
  apply Forall_rev.
  apply fold_normStep_plain; [constructor | apply split_noSlash_pieces].
Qed.

(** Empty pieces are skipped and plain segments are kept. *)
Lemma fold_normStep_tame (segs kept : list jsstring) :
  Forall (fun seg => seg = [] \/ plain seg) segs ->
  fold_left (Path.normStep false) segs kept = rev (dropEmpty segs) ++ kept.
Proof.
  revert kept. induction segs as [|seg segs IH]; intros kept Hall; simpl;
    [reflexivity|].
  inversion Hall as [|? ? Hseg Hrest]; subst. rewrite IH by exact Hrest.
  destruct Hseg as [->|(Hne & Hdot & Hdotdot & _)].
  - reflexivity.
  - unfold Path.normStep.
    rewrite !bool_decide_eq_false_2 by assumption. simpl.
    rewrite <- app_assoc. reflexivity.
Qed.

Lemma dropEmpty_plain (segs : list jsstring) :
  Forall plain segs -> dropEmpty segs = segs.
Proof.
  induction 1 as [|seg segs (Hne & _) _ IH]; simpl; [reflexivity|].
  rewrite bool_decide_eq_false_2 by exact Hne. simpl. rewrite IH. reflexivity.
Qed.

Lemma dropEmpty_app (l1 l2 : list jsstring) :
  dropEmpty (l1 ++ l2) = dropEmpty l1 ++ dropEmpty l2.
Proof. unfold dropEmpty. apply List.filter_app. Qed.

Lemma plain_noSlash (segs : list jsstring) :
  Forall plain segs -> Forall noSlash segs.
Proof.
  intros H. eapply Forall_impl; [exact H|].
  intros seg (_ & _ & _ & Hseg). exact Hseg.
Qed.

(** The pieces of a normalised absolute path are empty or plain, and the
    non-empty ones are the resolved segments of the path. *)
Lemma split_normalize (x : jsstring) :
  Path.isAbsolute x = true ->
  Path.isAbsolute (Path.normalize x) = true
  /\ Forall (fun seg => seg = [] \/ plain seg)
            (JS.split Path.SLASH (Path.normalize x))
  /\ dropEmpty (JS.split Path.SLASH (Path.normalize x)) = pathSegments x.
Proof.
  intros Habs. destruct x as [|c x]; [discriminate|].
  unfold Path.normalize. rewrite Habs.
  change (negb true) with false.
  change (Path.normalizeString (c :: x) false)
    with (JS.join [Path.SLASH] (pathSegments (c :: x))).
  pose proof (pathSegments_plain (c :: x)) as Hplain.
  destruct (pathSegments (c :: x)) as [|seg segs] eqn:Esegs.
  - simpl. split; [reflexivity|]. split; [|reflexivity].
    repeat constructor.
  - assert (Hjoin_ne : JS.join [Path.SLASH] (seg :: segs) <> []).
    { inversion Hplain as [|? ? (Hne & _) _]; subst.
      destruct seg; [congruence|]. destruct segs; discriminate. }
    destruct (JS.join [Path.SLASH] (seg :: segs)) as [|j0 jrest] eqn:Ejoin;
      [congruence|].
    assert (Hsplit : JS.split Path.SLASH (j0 :: jrest) = seg :: segs).
    { rewrite <- Ejoin. apply split_join; [discriminate|].
      apply plain_noSlash, Hplain. }
    assert (Htame : Forall (fun s => s = [] \/ plain s) (seg :: segs))
      by (eapply Forall_impl; [exact Hplain|]; intros s Hs; right; exact Hs).
    destruct (Path.trailingSeparator (c :: x)).
    + split; [reflexivity|].
      change (Path.SLASH :: (j0 :: jrest) ++ [Path.SLASH])
        with ([] ++ Path.SLASH :: ((j0 :: jrest) ++ Path.SLASH :: [])).
      rewrite !split_app, Hsplit.
      split.
      * simpl. constructor; [left; reflexivity|].
        apply (Forall_app_2 _ (seg :: segs) [[]]); [exact Htame|].
        constructor; [left; reflexivity | constructor].
      * rewrite !dropEmpty_app. simpl. rewrite app_nil_r.
        apply (dropEmpty_plain _ Hplain).
    + split; [reflexivity|].
      change (Path.SLASH :: j0 :: jrest) with ([] ++ Path.SLASH :: (j0 :: jrest)).
      rewrite split_app, Hsplit.
      split.
      * simpl. constructor; [left; reflexivity | exact Htame].
      * rewrite dropEmpty_app. simpl. apply (dropEmpty_plain _ Hplain).
Qed.

Lemma pathSegments_normalize (x : jsstring) :
  Path.isAbsolute x = true ->
  pathSegments (Path.normalize x) = pathSegments x.
Proof.
  intros Habs.
  destruct (split_normalize x Habs) as (_ & Htame & Hsegs).
  unfold pathSegments at 1. unfold Path.normSegments.
  rewrite (fold_normStep_tame _ [] Htame), app_nil_r, rev_involutive.
  exact Hsegs.
Qed.

(** Joining an absolute root and a normalised absolute path resolves to
    the segments of the root followed by the segments of the path. *)
Lemma pathSegments_join (root d : jsstring) :
  Path.isAbsolute root = true ->
  Path.isAbsolute d = true ->
  Path.isAbsolute (Path.join [root; Path.normalize d]) = true
  /\ pathSegments (Path.join [root; Path.normalize d])
     = pathSegments root ++ pathSegments d.
Proof.
  intros Hroot Hd.
  destruct (split_normalize d Hd) as (Habs & Htame & Hsegs).
  destruct root as [|r root]; [discriminate|].
  destruct (Path.normalize d) as [|n nd] eqn:En; [discriminate|].
  unfold Path.join. cbn [Path.joinArgs].
  assert (Hx : Path.isAbsolute ((r :: root) ++ Path.SLASH :: n :: nd) = true)
    by exact Hroot.
  split; [apply (split_normalize _ Hx)|].
  rewrite (pathSegments_normalize _ Hx).
  unfold pathSegments at 1. unfold Path.normSegments.
  rewrite split_app, fold_left_app.
  rewrite (fold_normStep_tame _ _ Htame), Hsegs.
  rewrite rev_app_distr, rev_involutive. reflexivity.
Qed.

Lemma isPrefix_app (l1 l2 : list jsstring) : isPrefix l1 (l1 ++ l2) = true.
Proof.
  induction l1 as [|a l1 IH]; simpl; [reflexivity|].
  rewrite bool_decide_eq_true_2 by reflexivity. exact IH.
Qed.

Lemma decode_keeps_slash (p d : jsstring) :
  Path.isAbsolute p = true ->
  URIDecode.decodeURIComponent p = Ok d ->
  Path.isAbsolute d = true.
Proof.
  destruct p as [|c p]; [discriminate|].
  unfold Path.isAbsolute at 1. intros Hc.
  apply N.eqb_eq in Hc. subst c.
  unfold URIDecode.decodeURIComponent. simpl.
  destruct (URIDecode.decodeLoop (length p) p); simpl; [|discriminate].
  intros H. injection H as <-. reflexivity.
Qed.

End PathFacts.

(** ** Game view: mouse buttons and inactive input capture *)

Section GameViewFacts.
Import GameView.

(** C9: [mapMouseButton] sends 1 to 2 and 2 to 1, returns every other
    button code unchanged, and applying it twice gives the button code
    back. *)
Theorem mapMouseButton_swap_involution :
  mapMouseButton 1 = 2%Z
  /\ mapMouseButton 2 = 1%Z
  /\ (forall b : Z, b <> 1%Z -> b <> 2%Z -> mapMouseButton b = b)
  /\ (forall b : Z, mapMouseButton (mapMouseButton b) = b).
Proof.
  unfold mapMouseButton. repeat split.
  - intros b H1 H2.
    destruct (Z.eqb_spec b 2); [lia|].
    destruct (Z.eqb_spec b 1); [lia|]. reflexivity.
  - intros b.
    destruct (Z.eqb_spec b 2) as [->|H2]; [reflexivity|].
    destruct (Z.eqb_spec b 1) as [->|H1]; [reflexivity|].
    destruct (Z.eqb_spec b 2); [lia|].
    destruct (Z.eqb_spec b 1); [lia|]. reflexivity.
Qed.

Lemma mapMouseButton_swap_involution_witness :
  mapMouseButton 4 = 4%Z /\ mapMouseButton (mapMouseButton 2) = 2%Z.
Proof.
  destruct mapMouseButton_swap_involution as (_ & _ & Hother & Hinv).
  split; [apply Hother; lia | apply Hinv].
Defined.

(** C6: a keydown event that arrives while [_acceptInput] is false
    leaves the element as it is and makes no call at all: no bridge
    function, no [preventDefault], no [stopPropagation]. *)
Theorem keydown_inactive_is_noop (e : KeyboardEvent) (g : GameView) :
  _acceptInput g = false ->
  _handleKeydown e g = (g, []).
Proof.
  intros Hoff. unfold _handleKeydown. rewrite Hoff. reflexivity.
Qed.

Lemma keydown_inactive_is_noop_witness :
  let e := {| key := js "w"; shiftKey := false; which := 87; location := 0 |} in
  _acceptInput initial = false /\ _handleKeydown e initial = (initial, []).
Proof.
  split; [reflexivity | apply keydown_inactive_is_noop; reflexivity].
Defined.

End GameViewFacts.

(** ** Game view: releasing every key and button *)

Section ResetFacts.
Import GameView GameViewSpec.

Lemma released_lookup (arr : BoolArray) (i : nat) (b : bool) :
  released arr !! i = Some (Some b) -> b = false.
Proof.
  unfold released. rewrite list_lookup_fmap.
  destruct (arr !! i) as [[[|]|]|]; simpl; congruence.
Qed.

Lemma released_truthyAt (arr : BoolArray) (i : nat) :
  truthyAt (released arr) i = false.
Proof.
  unfold truthyAt.
  destruct (released arr !! i) as [[b|]|] eqn:E; try reflexivity.
  apply released_lookup in E. exact E.
Qed.

Lemma released_length (arr : BoolArray) : length (released arr) = length arr.
Proof. unfold released. apply length_fmap. Qed.

(** The loop of [Array.prototype.map], started after a prefix [done]
    that is already visited. *)
Lemma resetArray_from (release : nat -> Effect) (rest done : BoolArray)
    (log : list Effect) :
  fold_left (resetStep release) (seq (length done) (length rest))
            (done ++ rest, log)
  = (done ++ released rest,
     log ++ (release <$> activeFrom (length done) rest)).
Proof.
  revert done log.
  induction rest as [|x rest IH]; intros done log; simpl.
  - rewrite !app_nil_r. reflexivity.
  - unfold resetStep at 2. simpl.
    rewrite list_lookup_middle by reflexivity.
    assert (Hnext : forall y : option bool,
               done ++ y :: rest = (done ++ [y]) ++ rest)
      by (intros y; rewrite <- app_assoc; reflexivity).
    assert (Hlen : forall y : option bool,
               length (done ++ [y]) = S (length done))
      by (intros y; rewrite length_app; simpl; lia).
    destruct x as [[|]|].
    + rewrite (insert_app_r_alt done (Some true :: rest) (length done))
        by reflexivity.
      rewrite Nat.sub_diag. simpl.
      rewrite (Hnext (Some false)), <- (Hlen (Some false)), IH.
      rewrite Hlen, <- !app_assoc. reflexivity.
    + rewrite (Hnext (Some false)), <- (Hlen (Some false)), IH.
      rewrite Hlen, <- !app_assoc. reflexivity.
    + rewrite (Hnext None), <- (Hlen None), IH.
      rewrite Hlen, <- !app_assoc. reflexivity.
Qed.

Lemma resetArray_spec (release : nat -> Effect) (arr : BoolArray) :
  resetArray release arr = (released arr, release <$> activeFrom 0 arr).
Proof.
  unfold resetArray.
  exact (resetArray_from release arr [] []).
Qed.

Lemma activeFrom_count (arr : BoolArray) (off k : nat) :
  count_occ Nat.eq_dec (activeFrom off arr) k
  = if decide (off <= k)%nat
    then (if truthyAt arr (k - off) then 1 else 0)%nat
    else 0%nat.
Proof.
  revert off.
  induction arr as [|x arr IH]; intros off.
  - simpl. unfold truthyAt.
    destruct (decide _); [destruct (k - off)%nat|]; reflexivity.
  - assert (Htail : count_occ Nat.eq_dec (activeFrom (S off) arr) k
                    = if decide (off < k)%nat
                      then (if truthyAt (x :: arr) (k - off) then 1 else 0)%nat
                      else 0%nat).
    { rewrite IH. destruct (decide (S off <= k)%nat), (decide (off < k)%nat);
        try lia; try reflexivity.
      unfold truthyAt. replace (k - off)%nat with (S (k - S off)) by lia.
      reflexivity. }
    destruct x as [[|]|]; simpl; rewrite ?Htail.
    + destruct (Nat.eq_dec off k) as [->|Hne].
      * rewrite Nat.sub_diag. unfold truthyAt. simpl.
        destruct (decide (k < k)%nat); [lia|].
        destruct (decide (k <= k)%nat); [reflexivity|lia].
      * destruct (decide (off < k)%nat), (decide (off <= k)%nat);
          try lia; reflexivity.
    + destruct (decide (off < k)%nat), (decide (off <= k)%nat);
        try lia; try reflexivity.
      assert (k = off) as -> by lia.
      rewrite Nat.sub_diag. reflexivity.
    + destruct (decide (off < k)%nat), (decide (off <= k)%nat);
        try lia; try reflexivity.
      assert (k = off) as -> by lia.
      rewrite Nat.sub_diag. reflexivity.
Qed.




End ResetFacts.

Section ResetTheorem.
Import GameView GameViewSpec.

Lemma resetStates_spec (g : GameView) :
  _resetStates g
  = ({| _mode := _mode g;
        _keysState := released (_keysState g);
        _buttonsState := released (_buttonsState g);
        _acceptInput := _acceptInput g;
        _pointerLocked := _pointerLocked g;
        _fullscreenActive := _fullscreenActive g |},
     [SetInputChar (CharString NUL)]
       ++ ((fun k => SetKeyState k false) <$> activeFrom 0 (_keysState g))
       ++ ((fun b => SetMouseButtonState (Z.of_nat b) false)
             <$> activeFrom 0 (_buttonsState g))).
Proof.
  unfold _resetStates. rewrite !resetArray_spec. reflexivity.
Qed.



End ResetTheorem.

(** ** Credential store *)

Section CredentialFacts.
Import Credentials CredentialsSpec.

Lemma matches_iff (s a : jsstring) (c : ICredential) :
  matches s a c = true <-> service c = s /\ account c = a.
Proof.
  unfold matches. rewrite andb_true_iff, !bool_decide_eq_true. reflexivity.
Qed.

Lemma matches_keyOf (s a : jsstring) (c : ICredential) :
  matches s a c = true <-> keyOf c = (s, a).
Proof.
  rewrite matches_iff. unfold keyOf. split.
  - intros [-> ->]. reflexivity.
  - intros H. injection H. auto.
Qed.

Lemma others_In (s a : jsstring) (creds : list ICredential) (c : ICredential) :
  In c (others s a creds)
  <-> In c creds /\ ~ (service c = s /\ account c = a).
Proof.
  unfold others. rewrite filter_In, negb_true_iff, <- matches_iff.
  destruct (matches s a c); intuition congruence.
Qed.

Lemma others_keys_sublist (s a : jsstring) (creds : list ICredential) :
  sublist (keyOf <$> others s a creds) (keyOf <$> creds).
Proof.
  induction creds as [|c creds IH]; simpl; [constructor|].
  destruct (negb (matches s a c)); simpl; now constructor.
Qed.

Lemma others_onePerAccount (s a : jsstring) (creds : list ICredential) :
  onePerAccount creds -> onePerAccount (others s a creds).
Proof.
  unfold onePerAccount. intros H.
  eapply sublist_NoDup; [exact H | apply others_keys_sublist].
Qed.

Lemma others_no_key (s a : jsstring) (creds : list ICredential) :
  (s, a) ∉ keyOf <$> others s a creds.
Proof.
  intros Hin. apply list_elem_of_fmap in Hin as (c & Hkey & Hc).
  apply list_elem_of_In, others_In in Hc as [_ Hc].
  apply Hc. apply matches_iff, matches_keyOf. congruence.
Qed.

Lemma current_credentials (p : Provider) :
  _credentials (credentials p).1 = Some (current p).
Proof.
  unfold current, credentials. destruct (_credentials p) eqn:E; simpl; auto.
Qed.

Lemma deletePassword_current (s a : jsstring) (p : Provider) :
  current (deletePassword s a p).1 = others s a (current p).
Proof.
  unfold deletePassword, current, others, save, credentials.
  destruct (_credentials p); simpl;
    destruct (existsb _ _); reflexivity.
Qed.

Lemma deletePassword_found (s a : jsstring) (p : Provider) :
  (deletePassword s a p).2 = existsb (matches s a) (current p).
Proof.
  unfold deletePassword, current, credentials.
  destruct (_credentials p); reflexivity.
Qed.

Lemma setPassword_current (s a pw : jsstring) (p : Provider) :
  current (setPassword s a pw p)
  = others s a (current p)
      ++ [{| service := s; account := a; password := pw |}].
Proof.
  unfold setPassword, deletePassword, current, others, save, credentials.
  destruct (_credentials p); simpl;
    destruct (existsb _ _); reflexivity.
Qed.

Lemma setPassword_stored (s a pw : jsstring) (p : Provider) :
  stored (setPassword s a pw p) = Some (current (setPassword s a pw p)).
Proof.
  unfold setPassword, deletePassword, current, others, save, credentials.
  destruct (_credentials p); simpl;
    destruct (existsb _ _); reflexivity.
Qed.

(** C8: at most one credential per (service, account) pair is an
    invariant of [setPassword] and [deletePassword].  [setPassword]
    leaves the credentials of the other pairs, in their order, followed
    by the new credential, and stores that array.  [deletePassword]
    answers true exactly when a credential of that pair was present,
    removes every credential of that pair and keeps all the others.
    After [setPassword] the pair has exactly the new credential, after
    [deletePassword] it has none, whatever the array held before. *)
Theorem credentials_one_per_account (s a pw : jsstring) (p : Provider) :
  current (setPassword s a pw p)
    = others s a (current p)
        ++ [{| service := s; account := a; password := pw |}]
  /\ stored (setPassword s a pw p) = Some (current (setPassword s a pw p))
  /\ (onePerAccount (current p) ->
      onePerAccount (current (setPassword s a pw p)))
  /\ ((deletePassword s a p).2 = true
      <-> exists c, In c (current p) /\ service c = s /\ account c = a)
  /\ current (deletePassword s a p).1 = others s a (current p)
  /\ (forall c, In c (current (deletePassword s a p).1)
        <-> In c (current p) /\ ~ (service c = s /\ account c = a))
  /\ (onePerAccount (current p) ->
      onePerAccount (current (deletePassword s a p).1))
  /\ List.filter (matches s a) (current (setPassword s a pw p))
     = [{| service := s; account := a; password := pw |}]
  /\ List.filter (matches s a) (current (deletePassword s a p).1) = [].
Proof.
  rewrite setPassword_current, deletePassword_current, deletePassword_found.
  assert (Hnone : List.filter (matches s a) (others s a (current p)) = []).
  { unfold others. induction (current p) as [|c l IH]; simpl; [reflexivity|].
    destruct (matches s a c) eqn:E; simpl; [exact IH|].
    rewrite E. exact IH. }
  assert (Hself : matches s a {| service := s; account := a; password := pw |}
                  = true) by (apply matches_iff; split; reflexivity).
  split; [reflexivity|].
  split; [rewrite setPassword_stored, setPassword_current; reflexivity|].
  split.
  { intros Hinv. unfold onePerAccount. rewrite fmap_app.
    apply NoDup_app. split; [apply others_onePerAccount, Hinv|].
    split; [|apply NoDup_singleton].
    intros k Hk Hnew. apply list_elem_of_singleton in Hnew. subst k.
    exact (others_no_key s a (current p) Hk). }
  split.
  { rewrite existsb_exists. split.
    - intros (c & Hin & Hm). exists c. split; [exact Hin|].
      apply matches_iff, Hm.
    - intros (c & Hin & Hm). exists c. split; [exact Hin|].
      apply matches_iff, Hm. }
  split; [reflexivity|].
  split; [intros c; apply others_In|].
  split; [apply others_onePerAccount|].
  split; [|exact Hnone].
  rewrite List.filter_app, Hnone. simpl. rewrite Hself. reflexivity.
Qed.

Lemma credentials_one_per_account_witness :
  let github := {| service := js "github"; account := js "ada";
                   password := js "old" |} in
  let gitlab := {| service := js "gitlab"; account := js "ada";
                   password := js "pw" |} in
  let p := {| _credentials := None; stored := Some [github; gitlab] |} in
  onePerAccount (current p)
  /\ onePerAccount (current (setPassword (js "github") (js "ada") (js "new") p))
  /\ onePerAccount (current (deletePassword (js "github") (js "ada") p).1)
  /\ current (setPassword (js "github") (js "ada") (js "new") p)
     = [gitlab; {| service := js "github"; account := js "ada";
                   password := js "new" |}].
Proof.
  intros github gitlab p.
  assert (Hinv : onePerAccount (current p)).
  { unfold onePerAccount. vm_compute.
    repeat constructor; rewrite ?list_elem_of_In; simpl; intuition congruence. }
  destruct (credentials_one_per_account (js "github") (js "ada") (js "new") p)
    as (_ & _ & Hset & _ & _ & _ & Hdel & _ & _).
  split; [exact Hinv|].
  split; [exact (Hset Hinv)|].
  split; [exact (Hdel Hinv)|].
  reflexivity.
Defined.

End CredentialFacts.

(** ** Numbers: rounding to a double and the text of a Number *)

Example numberToString_examples :
  JS.numberToString 0 = js "0"
  /\ JS.numberToString 30213 = js "30213"
  /\ JS.numberToString (-1604311200500) = js "-1604311200500"
  /\ JS.numberToString 9007199254740991 = js "9007199254740991"
  /\ JS.numberToString 9007199254740993 = js "9007199254740992"
  /\ JS.numberToString 9007199254740995 = js "9007199254740996"
  /\ JS.numberToString 1152921504606846976 = js "1152921504606847000"
  /\ JS.numberToString 12345678901234567890 = js "12345678901234567000"
  /\ JS.numberToString 18446744073709551615 = js "18446744073709552000"
  /\ JS.toDouble 18446744073709551615 = 18446744073709551616%Z
  /\ JS.stringOfNumber (JS.getTime (JS.DateOf 8640000000000001)) = js "NaN".
Proof. vm_compute. repeat split. Qed.

Section NumberFacts.
Import AnswerSpec.
Local Open Scope Z_scope.

Lemma sgn_mul_abs (x : Z) : Z.sgn x * Z.abs x = x.
Proof. destruct x; reflexivity. Qed.

Lemma roundMagnitude_small (a : Z) :
  0 <= a < 2 ^ 53 -> JS.roundMagnitude a = a.
Proof.
  intros [Hlo Hhi]. unfold JS.roundMagnitude.
  assert (Hlog : Z.log2 a - 52 <= 0).
  { destruct (Z.eq_dec a 0) as [->|Hne]; [cbn; lia|].
    assert (Z.log2 a < 53) by (apply Z.log2_lt_pow2; lia). lia. }
  apply Z.leb_le in Hlog. rewrite Hlog. reflexivity.
Qed.

(** A 53-bit mantissa times a power of two is a double. *)
Lemma roundMagnitude_exact (m k : Z) :
  2 ^ 52 <= m < 2 ^ 53 -> 0 <= k ->
  JS.roundMagnitude (m * 2 ^ k) = m * 2 ^ k.
Proof.
  intros Hm Hk. unfold JS.roundMagnitude.
  assert (Hlog : Z.log2 (m * 2 ^ k) = k + 52).
  { rewrite Z.log2_mul_pow2 by lia. f_equal.
    apply Z.log2_unique; [lia|]. exact Hm. }
  rewrite Hlog. replace (k + 52 - 52) with k by lia.
  destruct (k <=? 0) eqn:Hle; [reflexivity|].
  apply Z.leb_gt in Hle.
  assert (Hpow : 0 < 2 ^ k) by (apply Z.pow_pos_nonneg; lia).
  rewrite Z.div_mul by lia. rewrite Z.mod_mul by lia.
  assert (Hhalf : 0 < 2 ^ (k - 1)) by (apply Z.pow_pos_nonneg; lia).
  replace (2 ^ (k - 1) <? 0) with false by (symmetry; apply Z.ltb_ge; lia).
  replace (0 =? 2 ^ (k - 1)) with false by (symmetry; apply Z.eqb_neq; lia).
  reflexivity.
Qed.

(** Above 53 bits the result is a 53-bit mantissa, or 2^53, times the
    power of two that was cut off. *)
Lemma roundMagnitude_form (a : Z) :
  2 ^ 53 <= a ->
  exists m k, 2 ^ 52 <= m <= 2 ^ 53 /\ 1 <= k
              /\ JS.roundMagnitude a = m * 2 ^ k.
Proof.
  intros Ha. unfold JS.roundMagnitude.
  assert (Hpos : 0 < a) by lia.
  assert (Hlog : 53 <= Z.log2 a) by (apply Z.log2_le_pow2; lia).
  pose proof (Z.log2_spec a Hpos) as [Hlo Hhi].
  set (e := Z.log2 a - 52) in *.
  assert (He : 1 <= e) by (unfold e; lia).
  replace (e <=? 0) with false by (symmetry; apply Z.leb_gt; lia).
  assert (HE : 0 < 2 ^ e) by (apply Z.pow_pos_nonneg; lia).
  assert (Hlo' : 2 ^ 52 * 2 ^ e <= a).
  { rewrite <- Z.pow_add_r by lia.
    replace (52 + e) with (Z.log2 a) by (unfold e; lia). exact Hlo. }
  assert (Hhi' : a < 2 ^ 53 * 2 ^ e).
  { rewrite <- Z.pow_add_r by lia.
    replace (53 + e) with (Z.succ (Z.log2 a)) by (unfold e; lia). exact Hhi. }
  assert (Hq : 2 ^ 52 <= a / 2 ^ e < 2 ^ 53).
  { split.
    - apply Z.div_le_lower_bound; lia.
    - apply Z.div_lt_upper_bound; lia. }
  destruct (_ || _).
  - exists (a / 2 ^ e + 1), e. repeat split; lia.
  - exists (a / 2 ^ e), e. repeat split; lia.
Qed.

Lemma roundMagnitude_large (a : Z) :
  2 ^ 53 <= a -> 2 ^ 53 <= JS.roundMagnitude a.
Proof.
  intros Ha. destruct (roundMagnitude_form a Ha) as (m & k & Hm & Hk & ->).
  assert (2 ^ 1 <= 2 ^ k) by (apply Z.pow_le_mono_r; lia).
  change (2 ^ 53) with (2 ^ 52 * 2 ^ 1) at 1. nia.
Qed.

Lemma roundMagnitude_nonneg (a : Z) : 0 <= a -> 0 <= JS.roundMagnitude a.
Proof.
  intros Ha. destruct (Z.lt_ge_cases a (2 ^ 53)) as [Hsmall|Hlarge].
  - rewrite roundMagnitude_small by lia. exact Ha.
  - pose proof (roundMagnitude_large a Hlarge). lia.
Qed.

(** Rounding gives a double: rounding again changes nothing. *)
Lemma roundMagnitude_idempotent (a : Z) :
  0 <= a -> JS.roundMagnitude (JS.roundMagnitude a) = JS.roundMagnitude a.
Proof.
  intros Ha. destruct (Z.lt_ge_cases a (2 ^ 53)) as [Hsmall|Hlarge].
  - rewrite !(roundMagnitude_small a) by lia. reflexivity.
  - destruct (roundMagnitude_form a Hlarge) as (m & k & Hm & Hk & ->).
    destruct (Z.eq_dec m (2 ^ 53)) as [->|Hne].
    + replace (2 ^ 53 * 2 ^ k) with (2 ^ 52 * 2 ^ (k + 1))
        by (rewrite Z.pow_add_r by lia; change (2 ^ 53) with (2 ^ 52 * 2); ring).
      apply roundMagnitude_exact; lia.
    + apply roundMagnitude_exact; lia.
Qed.

Lemma candidate_sound (d c : Z) (j : nat) :
  0 <= d -> JS.candidate d j = Some c ->
  JS.roundMagnitude c = d /\ 0 <= c.
Proof.
  intros Hd. unfold JS.candidate. cbv zeta.
  set (p := 10 ^ Z.of_nat j).
  assert (Hp : 0 < p) by (apply Z.pow_pos_nonneg; lia).
  assert (Hlo : 0 <= d / p * p).
  { apply Z.mul_nonneg_nonneg; [apply Z.div_pos|]; lia. }
  assert (Hhi : 0 <= d / p * p + p) by lia.
  destruct (JS.roundMagnitude (d / p * p) =? d) eqn:HokLo;
    destruct (JS.roundMagnitude (d / p * p + p) =? d) eqn:HokHi;
    cbn [andb];
    try apply Z.eqb_eq in HokLo; try apply Z.eqb_eq in HokHi;
    repeat match goal with
           | |- context [if ?b then _ else _] => destruct b
           end;
    intros [= <-]; split; assumption.
Qed.

Lemma shortestFrom_sound (d : Z) (j : nat) :
  0 <= d -> JS.roundMagnitude d = d ->
  JS.roundMagnitude (JS.shortestFrom d j) = d /\ 0 <= JS.shortestFrom d j.
Proof.
  intros Hd Hdouble. induction j as [|j IH]; cbn [JS.shortestFrom];
    destruct (JS.candidate d _) as [c|] eqn:Hc;
    try (apply (candidate_sound d c _ Hd Hc));
    [split; assumption | exact IH].
Qed.

Lemma shortestFrom_safe (d : Z) (j : nat) :
  0 <= d < 2 ^ 53 -> JS.shortestFrom d j = d.
Proof.
  intros Hd.
  assert (Hcand : forall i c, JS.candidate d i = Some c -> c = d).
  { intros i c Hc. apply candidate_sound in Hc as [Hround Hc]; [|lia].
    destruct (Z.lt_ge_cases c (2 ^ 53)) as [Hsmall|Hlarge].
    - rewrite roundMagnitude_small in Hround by lia. exact Hround.
    - pose proof (roundMagnitude_large c Hlarge). lia. }
  induction j as [|j IH]; cbn [JS.shortestFrom];
    destruct (JS.candidate d _) as [c|] eqn:Hc;
    [apply (Hcand _ _ Hc) | reflexivity | apply (Hcand _ _ Hc) | exact IH].
Qed.

Lemma toDouble_safe (x : Z) : Z.abs x < 2 ^ 53 -> JS.toDouble x = x.
Proof.
  intros Hx. unfold JS.toDouble.
  rewrite roundMagnitude_small by lia. apply sgn_mul_abs.
Qed.

Lemma toDouble_magnitude (x : Z) :
  JS.roundMagnitude (Z.abs (JS.toDouble x)) = Z.abs (JS.toDouble x).
Proof.
  unfold JS.toDouble.
  pose proof (roundMagnitude_nonneg (Z.abs x) (Z.abs_nonneg x)) as Hr.
  destruct (Z.eq_dec x 0) as [->|Hne]; [reflexivity|].
  replace (Z.abs (Z.sgn x * JS.roundMagnitude (Z.abs x)))
    with (JS.roundMagnitude (Z.abs x)).
  - apply roundMagnitude_idempotent. lia.
  - rewrite Z.abs_mul, (Z.abs_eq (JS.roundMagnitude (Z.abs x))) by exact Hr.
    destruct x; cbn [Z.sgn Z.abs]; [congruence | lia | lia].
Qed.

(** The digits chosen read back as the Number. *)
Lemma toDouble_shortest (x : Z) (j : nat) :
  JS.toDouble
    (Z.sgn (JS.toDouble x) * JS.shortestFrom (Z.abs (JS.toDouble x)) j)
  = JS.toDouble x.
Proof.
  set (D := JS.toDouble x).
  destruct (shortestFrom_sound (Z.abs D) j (Z.abs_nonneg D)
              (toDouble_magnitude x)) as [Hround Hc].
  set (c := JS.shortestFrom (Z.abs D) j) in *.
  unfold JS.toDouble at 1.
  destruct (Z.eq_dec D 0) as [HD|HD].
  - rewrite HD. reflexivity.
  - assert (Hcpos : 0 < c).
    { destruct (Z.eq_dec c 0) as [Hc0|]; [|lia].
      rewrite Hc0, (roundMagnitude_small 0) in Hround by lia. lia. }
    rewrite Z.sgn_mul, Z.abs_mul, (Z.sgn_pos c Hcpos), (Z.abs_eq c) by lia.
    rewrite Z.sgn_sgn, Z.mul_1_r.
    replace (Z.abs (Z.sgn D)) with 1
      by (symmetry; generalize D HD; intros [|p|p] Hz; [congruence | | ];
          reflexivity).
    rewrite Z.mul_1_l, Hround. apply sgn_mul_abs.
Qed.

(** Two integers print alike exactly when they are the same Number. *)
Lemma numberToString_same (x y : Z) :
  JS.toDouble x = JS.toDouble y -> JS.numberToString x = JS.numberToString y.
Proof. unfold JS.numberToString. intros ->. reflexivity. Qed.


Lemma lit_inj (s1 s2 : string) : JS.lit s1 = JS.lit s2 -> s1 = s2.
Proof.
  unfold JS.lit. intros H.
  rewrite <- (string_of_list_ascii_of_string s1),
          <- (string_of_list_ascii_of_string s2).
  f_equal. revert H.
  generalize (list_ascii_of_string s1) (list_ascii_of_string s2).
  intros l1. induction l1 as [|a l1 IH]; intros [|b l2] H;
    try discriminate; [reflexivity|].
  simpl in H. injection H as Hab Hrest.
  f_equal; [|apply IH, Hrest].
  rewrite <- (ascii_N_embedding a), <- (ascii_N_embedding b), Hab.
  reflexivity.
Qed.

Lemma to_int_printable (z : Z) :
  Z.to_int z <> Decimal.Pos Decimal.Nil /\ Z.to_int z <> Decimal.Neg Decimal.Nil.
Proof.
  destruct z as [|p|p]; simpl; split; try discriminate;
    intros H; injection H as H;
    exact (DecimalPos.Unsigned.to_uint_nonnil p H).
Qed.

Lemma ofZ_inj (a b : Z) : JS.ofZ a = JS.ofZ b -> a = b.
Proof.
  unfold JS.ofZ. intros H. apply lit_inj in H.
  apply DecimalZ.to_int_inj.
  destruct (to_int_printable a) as [Ha1 Ha2].
  destruct (to_int_printable b) as [Hb1 Hb2].
  pose proof (NilZero.isi (Z.to_int a) Ha1 Ha2) as Ea.
  pose proof (NilZero.isi (Z.to_int b) Hb1 Hb2) as Eb.
  rewrite H in Ea. congruence.
Qed.

Lemma digits_no_dash (u : Decimal.uint) :
  Forall (fun c => (c <> DASH)%N) (JS.lit (NilEmpty.string_of_uint u)).
Proof.
  induction u; simpl; constructor; try assumption; discriminate.
Qed.

Lemma ofZ_no_dash (n : N) :
  Forall (fun c => (c <> DASH)%N) (JS.ofZ (Z.of_N n)).
Proof.
  unfold JS.ofZ.
  assert (Hpos : exists u, Z.to_int (Z.of_N n) = Decimal.Pos u)
    by (destruct n; simpl; eauto).
  destruct Hpos as [u ->]. simpl.
  destruct u; try apply digits_no_dash.
  repeat constructor. discriminate.
Qed.

Lemma ofZ_not_NaN (z : Z) : JS.ofZ z <> js "NaN".
Proof.
  unfold JS.ofZ. intros H. apply lit_inj in H.
  destruct (to_int_printable z) as [Hz1 Hz2].
  pose proof (NilZero.isi (Z.to_int z) Hz1 Hz2) as Hread.
  rewrite H in Hread. discriminate.
Qed.

(** Two integers print alike only when they become the same Number. *)
Lemma numberToString_inj (x y : Z) :
  JS.numberToString x = JS.numberToString y -> JS.toDouble x = JS.toDouble y.
Proof.
  unfold JS.numberToString. intros H. apply ofZ_inj in H.
  apply (f_equal JS.toDouble) in H.
  rewrite !toDouble_shortest in H. exact H.
Qed.

(** Below 2^53 every digit of the integer is printed. *)
Lemma numberToString_safe (x : Z) :
  Z.abs x < 2 ^ 53 -> JS.numberToString x = JS.ofZ x.
Proof.
  intros Hx. unfold JS.numberToString.
  rewrite (toDouble_safe x Hx), shortestFrom_safe by lia.
  rewrite sgn_mul_abs. reflexivity.
Qed.

Lemma numberToString_no_dash (n : N) :
  Forall (fun c => (c <> DASH)%N) (JS.numberToString (Z.of_N n)).
Proof.
  unfold JS.numberToString.
  set (D := JS.toDouble (Z.of_N n)).
  destruct (shortestFrom_sound (Z.abs D)
              (length (JS.ofZ (Z.abs D)) - 1) (Z.abs_nonneg D)
              (toDouble_magnitude (Z.of_N n))) as [_ Hc].
  assert (HD : 0 <= D).
  { unfold D, JS.toDouble.
    pose proof (roundMagnitude_nonneg (Z.abs (Z.of_N n)) (Z.abs_nonneg _)).
    apply Z.mul_nonneg_nonneg; [|assumption].
    apply Z.sgn_nonneg. lia. }
  assert (Hprod : 0 <= Z.sgn D
                       * JS.shortestFrom (Z.abs D)
                           (length (JS.ofZ (Z.abs D)) - 1)).
  { apply Z.mul_nonneg_nonneg; [apply Z.sgn_nonneg; exact HD | exact Hc]. }
  rewrite <- (Z2N.id _ Hprod). apply ofZ_no_dash.
Qed.

Lemma getTime_safe (d : JS.Date) (t : Z) :
  JS.getTime d = Some t -> Z.abs t < 2 ^ 53.
Proof.
  destruct d as [t'|]; cbn [JS.getTime]; [|discriminate].
  destruct (Z.abs t' <=? 8640000000000000) eqn:Hle; [|discriminate].
  intros [= <-]. apply Z.leb_le in Hle. lia.
Qed.

(** The text of a time value tells the time value. *)
Lemma stringOfNumber_getTime_inj (d d' : JS.Date) :
  JS.stringOfNumber (JS.getTime d) = JS.stringOfNumber (JS.getTime d') ->
  JS.getTime d = JS.getTime d'.
Proof.
  destruct (JS.getTime d) as [t|] eqn:Ht;
    destruct (JS.getTime d') as [t'|] eqn:Ht'; cbn [JS.stringOfNumber];
    intros H.
  - apply numberToString_inj in H.
    rewrite !toDouble_safe in H by (eapply getTime_safe; eassumption).
    congruence.
  - exfalso. exact (ofZ_not_NaN _ H).
  - exfalso. symmetry in H. exact (ofZ_not_NaN _ H).
  - reflexivity.
Qed.

End NumberFacts.

(** ** Server: answers of the request listener *)

Section RequestFacts.
Import Server ServerSpec.

Variable url_parse : jsstring -> Exc UrlWithParsedQuery.
Variable fileUriFsPath : jsstring -> Exc jsstring.
Variable dirname : jsstring.
Variable stat : jsstring -> option Stats.

Lemma requestListener_parsed (req : IncomingMessage)
    (parsed : UrlWithParsedQuery) :
  JS.truthyOpt (url req) = true ->
  url_parse (JS.toString (url req)) = Ok parsed ->
  requestListener url_parse fileUriFsPath dirname stat req
  = match handleRequest (fun _ => Ok parsed) fileUriFsPath dirname stat req
            (JS.toString (url req)) with
    | Ok effects => effects
    | Throw _ => serveError 500 (js "Internal Server Error.")
    end.
Proof.
  intros Hurl Hparse. unfold requestListener, handleRequest.
  rewrite Hurl, Hparse. reflexivity.
Qed.

Lemma getProp_setProp_eq (o : OutgoingHttpHeaders) (k v : jsstring) :
  getProp (setProp o k v) k = Some v.
Proof.
  induction o as [|[k' v'] o IH]; simpl.
  - rewrite bool_decide_eq_true_2; reflexivity.
  - destruct (bool_decide (k' = k)) eqn:E; simpl.
    + rewrite bool_decide_eq_true_2; reflexivity.
    + rewrite E. exact IH.
Qed.

(** C7: whatever the method and the headers of the request, the answer
    to the pathname /manifest.json is status 200 with Content-Type
    application/json and the JSON text of the fixed manifest object. *)
Theorem manifest_json_response (req : IncomingMessage)
    (parsed : UrlWithParsedQuery) :
  JS.truthyOpt (url req) = true ->
  url_parse (JS.toString (url req)) = Ok parsed ->
  pathname parsed = Some (js "/manifest.json") ->
  requestListener url_parse fileUriFsPath dirname stat req
  = [WriteHead 200 [(js "Content-Type", js "application/json")];
     End (Some manifestText)]
  /\ JSON.stringify manifest = manifestText.
Proof.
  intros Hurl Hparse Hpath.
  rewrite (requestListener_parsed req parsed Hurl Hparse).
  unfold handleRequest. simpl. rewrite Hpath.
  decide_literals.
  split; vm_compute; reflexivity.
Qed.

(** C2, amended: for a file whose [stat] succeeds, the weak ETag is
    W/"<ino>-<size>-<time>", made of [stat.ino], [stat.size] and
    [stat.mtime.getTime()], the whole milliseconds of the modification
    time, each as JavaScript prints the Number (all digits while the
    Number is below 2^53).  A request whose If-None-Match header is that
    ETag gets 304 and an empty body; any other request gets 200, the
    ETag in the Etag header, and the file piped into the response. *)
Theorem serveFile_conditional_get (req : IncomingMessage)
    (filePath : jsstring) (responseHeaders : OutgoingHttpHeaders)
    (st : Stats) :
  stat (Path.normalize filePath) = Some st ->
  etagOf st
    = js "W/" ++ [34] ++ JS.numberToString (Z.of_N (toN (ino st))) ++ js "-"
        ++ JS.numberToString (Z.of_N (toN (size st))) ++ js "-"
        ++ JS.stringOfNumber (JS.getTime (mtime st)) ++ [34]
  /\ (forall t,
        toN (ino st) < 2 ^ 53 -> toN (size st) < 2 ^ 53 ->
        JS.getTime (mtime st) = Some t ->
        etagOf st
        = js "W/" ++ [34] ++ JS.ofZ (Z.of_N (toN (ino st))) ++ js "-"
            ++ JS.ofZ (Z.of_N (toN (size st))) ++ js "-" ++ JS.ofZ t ++ [34])
  /\ (headers req !! js "if-none-match" = Some (etagOf st) ->
      serveFile stat req filePath responseHeaders
      = [WriteHead 304 []; End None])
  /\ (headers req !! js "if-none-match" <> Some (etagOf st) ->
      exists hdrs,
        serveFile stat req filePath responseHeaders
        = [WriteHead 200 hdrs; PipeFile (Path.normalize filePath)]
        /\ getProp hdrs (js "Etag") = Some (etagOf st)
        /\ (responseHeaders = [] ->
            hdrs = [(js "Content-Type",
                     contentTypeOf (Path.normalize filePath));
                    (js "Etag", etagOf st)])).
Proof.
  intros Hstat. unfold serveFile. rewrite Hstat.
  assert (Hform : etagOf st
            = js "W/" ++ [34] ++ JS.numberToString (Z.of_N (toN (ino st)))
                ++ js "-" ++ JS.numberToString (Z.of_N (toN (size st)))
                ++ js "-" ++ JS.stringOfNumber (JS.getTime (mtime st)) ++ [34]).
  { unfold etagOf. cbn [JS.join]. rewrite <- !app_assoc. reflexivity. }
  split; [exact Hform|].
  split.
  { intros t Hino Hsize Htime. rewrite Hform, Htime. cbn [JS.stringOfNumber].
    rewrite !numberToString_safe; [reflexivity | | |].
    - eapply getTime_safe. exact Htime.
    - change (2 ^ 53)%Z with (Z.of_N (2 ^ 53)). lia.
    - change (2 ^ 53)%Z with (Z.of_N (2 ^ 53)). lia. }
  split.
  - intros Hmatch. rewrite bool_decide_eq_true_2 by exact Hmatch. reflexivity.
  - intros Hother. rewrite bool_decide_eq_false_2 by exact Hother.
    eexists. split; [reflexivity|].
    split; [apply getProp_setProp_eq|].
    intros ->. reflexivity.
Qed.

(** C5: a file whose [stat] fails is answered 404 "Not found" as
    text/plain; /vscode-remote-resource without a single string [path]
    parameter is answered 400 "Bad Request." as text/plain; an exception
    raised inside the handler's [try] block is answered 500 "Internal
    Server Error." as text/plain. *)
Theorem request_error_answers (req : IncomingMessage) :
  (forall filePath responseHeaders,
      stat (Path.normalize filePath) = None ->
      serveFile stat req filePath responseHeaders
      = [WriteHead 404 [(js "Content-Type", js "text/plain")];
         End (Some (js "Not found"))])
  /\ (forall parsed,
        JS.truthyOpt (url req) = true ->
        url_parse (JS.toString (url req)) = Ok parsed ->
        pathname parsed = Some (js "/vscode-remote-resource") ->
        (forall s, query parsed !! js "path" <> Some (QString s)) ->
        requestListener url_parse fileUriFsPath dirname stat req
        = [WriteHead 400 [(js "Content-Type", js "text/plain")];
           End (Some (js "Bad Request."))])
  /\ (forall e,
        JS.truthyOpt (url req) = true ->
        handleRequest url_parse fileUriFsPath dirname stat req
          (JS.toString (url req)) = Throw e ->
        requestListener url_parse fileUriFsPath dirname stat req
        = [WriteHead 500 [(js "Content-Type", js "text/plain")];
           End (Some (js "Internal Server Error."))]).
Proof.
  split.
  { intros filePath responseHeaders Hstat.
    unfold serveFile. rewrite Hstat. reflexivity. }
  split.
  { intros parsed Hurl Hparse Hpath Hquery.
    rewrite (requestListener_parsed req parsed Hurl Hparse).
    unfold handleRequest. simpl. rewrite Hpath.
    decide_literals.
    destruct (query parsed !! js "path") as [[s|l]|] eqn:E;
      [exfalso; exact (Hquery s eq_refl) | reflexivity | reflexivity]. }
  intros e Hurl Hthrow.
  unfold requestListener. rewrite Hurl, Hthrow. reflexivity.
Qed.

End RequestFacts.

Section RequestWitnesses.
Import Server.

Lemma manifest_json_response_witness :
  requestListener Sample.url_parse Sample.fileUriFsPath Sample.dirname
    Sample.stat
    (Sample.request (js "/manifest.json") [(js "if-none-match", js "W/x")])
  = [WriteHead 200 [(js "Content-Type", js "application/json")];
     End (Some (JSON.stringify manifest))].
Proof.
  refine (proj1 (manifest_json_response Sample.url_parse Sample.fileUriFsPath
                   Sample.dirname Sample.stat _ _ _ _ _));
    vm_compute; reflexivity.
Defined.

Lemma serveFile_conditional_get_witness :
  serveFile Sample.stat
    (Sample.request (js "/out/vs/loader.js")
       [(js "if-none-match", js "W/" ++ [34] ++ js "52-30213-1604311200500" ++ [34])])
    (js "/srv/fxcode/out/vs/./loader.js") []
  = [WriteHead 304 []; End None]
  /\ etagOf Sample.loaderStats
     = js "W/" ++ [34] ++ js "52-30213-1604311200500" ++ [34]
  /\ exists hdrs,
      serveFile Sample.stat (Sample.request (js "/out/vs/loader.js") [])
        (js "/srv/fxcode/out/vs/./loader.js") []
      = [WriteHead 200 hdrs; PipeFile (js "/srv/fxcode/out/vs/loader.js")]
      /\ getProp hdrs (js "Etag")
         = Some (js "W/" ++ [34] ++ js "52-30213-1604311200500" ++ [34]).
Proof.
  split; [|split].
  - refine (proj1 (proj2 (proj2 (serveFile_conditional_get Sample.stat _ _ _
                                   Sample.loaderStats _))) _);
      vm_compute; reflexivity.
  - rewrite (proj1 (proj2 (serveFile_conditional_get Sample.stat
                             (Sample.request (js "/out/vs/loader.js") [])
                             (js "/srv/fxcode/out/vs/./loader.js") []
                             Sample.loaderStats eq_refl))
               1604311200500%Z eq_refl eq_refl eq_refl).
    vm_compute. reflexivity.
  - destruct (proj2 (proj2 (proj2 (serveFile_conditional_get Sample.stat
                              (Sample.request (js "/out/vs/loader.js") [])
                              (js "/srv/fxcode/out/vs/./loader.js") []
                              Sample.loaderStats eq_refl))))
      as (hdrs & Hserve & Hetag & _); [vm_compute; discriminate|].
    exists hdrs. split; [exact Hserve | exact Hetag].
Defined.

(** C2 as first stated fails: the loader has inode 52, size 30213 and
    an [mtimeMs] of 1604311200500.25, so the validator made of
    [stat.mtimeMs] is W/"52-30213-1604311200500.25".  A request that
    carries it in If-None-Match is answered 200, not 304: the validator
    of the code ends in the whole milliseconds of [stat.mtime]. *)
Lemma stated_validator_answers_200 :
  Sample.stat (js "/srv/fxcode/out/vs/loader.js") = Some Sample.loaderStats
  /\ JS.getTime (mtime Sample.loaderStats) = Some 1604311200500%Z
  /\ ServerSpec.statedEtag (js "52") (js "30213") (js "1604311200500.25")
     = JS.litq "W/'52-30213-1604311200500.25'"
  /\ serveFile Sample.stat
       (Sample.request (js "/out/vs/loader.js")
          [(js "if-none-match",
            ServerSpec.statedEtag (js "52") (js "30213")
              (js "1604311200500.25"))])
       (js "/srv/fxcode/out/vs/loader.js") []
     = [WriteHead 200
          [(js "Content-Type", js "text/javascript");
           (js "Etag", JS.litq "W/'52-30213-1604311200500'")];
        PipeFile (js "/srv/fxcode/out/vs/loader.js")].
Proof. repeat split; vm_compute; reflexivity. Qed.

Lemma request_error_answers_witness :
  serveFile Sample.stat (Sample.request (js "/nothing") []) (js "/srv/nothing") []
  = [WriteHead 404 [(js "Content-Type", js "text/plain")];
     End (Some (js "Not found"))]
  /\ requestListener Sample.url_parse Sample.fileUriFsPath Sample.dirname
       Sample.stat (Sample.request (js "/vscode-remote-resource") [])
     = [WriteHead 400 [(js "Content-Type", js "text/plain")];
        End (Some (js "Bad Request."))]
  /\ requestListener Sample.url_parse Sample.fileUriFsPath Sample.dirname
       Sample.stat (Sample.request (js "/%") [])
     = [WriteHead 500 [(js "Content-Type", js "text/plain")];
        End (Some (js "Internal Server Error."))].
Proof.
  split; [|split].
  - refine (proj1 (request_error_answers Sample.url_parse Sample.fileUriFsPath
                     Sample.dirname Sample.stat _) _ _ _).
    vm_compute; reflexivity.
  - refine (proj1 (proj2 (request_error_answers Sample.url_parse
                            Sample.fileUriFsPath Sample.dirname Sample.stat _))
              {| pathname := Some (js "/vscode-remote-resource");
                 query := ∅ |} _ _ _ _);
      try (vm_compute; reflexivity).
    intros s. vm_compute. discriminate.
  - refine (proj2 (proj2 (request_error_answers Sample.url_parse
                            Sample.fileUriFsPath Sample.dirname Sample.stat _))
              URIError _ _);
      vm_compute; reflexivity.
Defined.

End RequestWitnesses.

(** ** Server: WebSocket upgrades *)

Section UpgradeFacts.
Import Server ServerSpec.

Variable url_parse : jsstring -> Exc UrlWithParsedQuery.

Lemma truthyOpt_token (q : gmap jsstring QueryValue) :
  JS.truthyOpt (tokenOf q) = true
  <-> exists c t, q !! js "reconnectionToken" = Some (QString (c :: t)).
Proof.
  unfold tokenOf.
  destruct (q !! js "reconnectionToken") as [[[|c t]|l]|]; simpl; split;
    try discriminate; try (intros (c' & t' & H); discriminate); eauto.
Qed.

(** What the listener does once [url.parse] has answered. *)
Lemma upgradeListener_parsed (req : IncomingMessage)
    (parsed : UrlWithParsedQuery) :
  headers req !! js "upgrade" = Some (js "websocket") ->
  JS.truthyOpt (url req) = true ->
  url_parse (JS.toString (url req)) = Ok parsed ->
  upgradeListener url_parse req
  = if JS.truthyOpt (tokenOf (query parsed))
    then Ok [SocketOnError;
             SocketWrite (JS.join CRLF (handshakeHeaders req) ++ CRLF ++ CRLF);
             HandleWebSocket (query parsed) (permessageDeflateOf req)]
    else Ok [SocketEnd badRequestLine].
Proof.
  intros Hup Hurl Hparse. unfold upgradeListener.
  rewrite bool_decide_eq_true_2 by exact Hup.
  rewrite Hurl, Hparse. simpl.
  destruct (JS.truthyOpt (tokenOf (query parsed))); reflexivity.
Qed.

(** C3, amended: when [url.parse] accepts the URL, the upgrade is
    rejected with the 400 status line exactly when the Upgrade header is
    not "websocket", the request has no URL, or the reconnectionToken
    parameter is absent, not a single string, or the empty string; in
    every other case the handshake is written and the socket is handed
    to [handleWebSocket]. *)
Theorem upgrade_rejected_iff (req : IncomingMessage)
    (parsed : UrlWithParsedQuery) :
  (JS.truthyOpt (url req) = true ->
   url_parse (JS.toString (url req)) = Ok parsed) ->
  (rejected (upgradeListener url_parse req)
   <-> (headers req !! js "upgrade" <> Some (js "websocket")
        \/ JS.truthyOpt (url req) = false
        \/ ~ exists c t,
             query parsed !! js "reconnectionToken" = Some (QString (c :: t))))
  /\ (~ rejected (upgradeListener url_parse req) ->
      upgradeListener url_parse req
      = Ok [SocketOnError;
            SocketWrite (JS.join CRLF (handshakeHeaders req) ++ CRLF ++ CRLF);
            HandleWebSocket (query parsed) (permessageDeflateOf req)]).
Proof.
  intros Hparse. unfold rejected.
  destruct (decide (headers req !! js "upgrade" = Some (js "websocket")))
    as [Hup|Hup].
  2:{ assert (Hrej : upgradeListener url_parse req
                     = Ok [SocketEnd badRequestLine]).
      { unfold upgradeListener.
        rewrite bool_decide_eq_false_2 by exact Hup. reflexivity. }
      rewrite Hrej. split; [tauto | intros H; contradiction]. }
  destruct (JS.truthyOpt (url req)) eqn:Hurl.
  2:{ assert (Hrej : upgradeListener url_parse req
                     = Ok [SocketEnd badRequestLine]).
      { unfold upgradeListener. rewrite Hurl.
        rewrite bool_decide_eq_true_2 by exact Hup. reflexivity. }
      rewrite Hrej. split; [tauto | intros H; contradiction]. }
  rewrite (upgradeListener_parsed req parsed Hup Hurl (Hparse eq_refl)).
  pose proof (truthyOpt_token (query parsed)) as Htok.
  destruct (JS.truthyOpt (tokenOf (query parsed))).
  - split; [|reflexivity]. split.
    + discriminate.
    + intros [H|[H|H]]; [contradiction | discriminate |].
      exfalso. apply H, Htok. reflexivity.
  - split; [|intros H; contradiction].
    split; [|reflexivity].
    intros _. right. right. intros H. apply Htok in H. discriminate.
Qed.

(** C4: an accepted upgrade writes this handshake and nothing else to
    the socket: the status line HTTP/1.1 101 Web Socket Protocol
    Handshake, Upgrade: WebSocket, Connection: Upgrade, and
    Sec-WebSocket-Accept with the base64 SHA-1 of the request's
    Sec-WebSocket-Key followed by the RFC 6455 GUID, then the
    permessage-deflate line if that extension was agreed; every line
    ends in CR LF and an empty line closes the head.  The key is the
    header as sent, and the text "undefined" when the header is
    missing. *)
Theorem upgrade_handshake_accept (req : IncomingMessage)
    (effects : list SocketEffect) :
  upgradeListener url_parse req = Ok effects ->
  ~ rejected (Ok effects) ->
  exists (key : jsstring) (q : gmap jsstring QueryValue) (deflate : bool),
    effects
    = [SocketOnError;
       SocketWrite
         (js "HTTP/1.1 101 Web Socket Protocol Handshake" ++ [13; 10]
            ++ js "Upgrade: WebSocket" ++ [13; 10]
            ++ js "Connection: Upgrade" ++ [13; 10]
            ++ js "Sec-WebSocket-Accept: "
            ++ Crypto.base64
                 (Crypto.sha1
                    (Crypto.utf8
                       (key ++ js "258EAFA5-E914-47DA-95CA-C5AB0DC85B11")))
            ++ (if deflate
                then [13; 10]
                       ++ js "Sec-WebSocket-Extensions: permessage-deflate; server_max_window_bits=15"
                else [])
            ++ [13; 10; 13; 10]);
       HandleWebSocket q deflate]
    /\ key = match headers req !! js "sec-websocket-key" with
             | Some k => k
             | None => js "undefined"
             end.
Proof.
  unfold rejected, upgradeListener.
  intros Hrun Hnot.
  destruct (negb (bool_decide _) || negb (JS.truthyOpt (url req)));
    [congruence|].
  destruct (url_parse _) as [parsed|e]; cbn [bindExc] in Hrun; [|discriminate].
  destruct (negb (JS.truthyOpt (tokenOf (query parsed)))); [congruence|].
  injection Hrun as <-.
  exists (JS.toString (headers req !! js "sec-websocket-key")),
    (query parsed), (permessageDeflateOf req).
  split; [|reflexivity].
  unfold handshakeHeaders, permessageDeflateOf, Crypto.sha1Base64, GUID, CRLF.
  destruct (JS.includes _ _); cbn [JS.join app];
    repeat (rewrite <- !app_assoc; cbn [app]); reflexivity.
Qed.

End UpgradeFacts.

Section UpgradeExamples.
Import Server ServerSpec.

(** C3 as first stated fails: the request carries Upgrade: websocket and
    a reconnectionToken that is a single string, the empty one, so the
    stated condition for a rejection does not hold, and the request is
    rejected all the same. *)
Lemma upgrade_empty_token_rejected :
  Sample.url_parse Sample.emptyTokenTarget
    = Ok {| pathname := Some (js "/");
            query := {[ js "reconnectionToken" := QString [] ]} |}
  /\ rejected (upgradeListener Sample.url_parse
                 (Sample.upgradeRequest Sample.emptyTokenTarget))
  /\ ~ statedRejectCondition
         (Sample.upgradeRequest Sample.emptyTokenTarget)
         {[ js "reconnectionToken" := QString [] ]}.
Proof.
  split; [vm_compute; reflexivity|].
  split; [vm_compute; reflexivity|].
  intros [Hup|Htoken].
  - apply Hup. vm_compute. reflexivity.
  - apply Htoken. exists []. vm_compute. reflexivity.
Qed.

Lemma upgrade_rejected_iff_witness :
  rejected (upgradeListener Sample.url_parse
              (Sample.upgradeRequest Sample.emptyTokenTarget))
  /\ upgradeListener Sample.url_parse
       (Sample.upgradeRequest Sample.tokenTarget)
     = Ok [SocketOnError;
           SocketWrite
             (js "HTTP/1.1 101 Web Socket Protocol Handshake" ++ CRLF
                ++ js "Upgrade: WebSocket" ++ CRLF
                ++ js "Connection: Upgrade" ++ CRLF
                ++ js "Sec-WebSocket-Accept: s3pPLMBiTxaQ9kYGzzhZRbK+xOo="
                ++ CRLF ++ CRLF);
           HandleWebSocket Sample.tokenQuery false].
Proof.
  split.
  - refine (proj2 (proj1 (upgrade_rejected_iff Sample.url_parse
                            (Sample.upgradeRequest Sample.emptyTokenTarget)
                            {| pathname := Some (js "/");
                               query := {[ js "reconnectionToken"
                                           := QString [] ]} |} _)) _).
    + intros _. vm_compute. reflexivity.
    + right. right. intros (c & t & H). vm_compute in H. discriminate.
  - rewrite (proj2 (upgrade_rejected_iff Sample.url_parse
               (Sample.upgradeRequest Sample.tokenTarget)
               {| pathname := Some (js "/"); query := Sample.tokenQuery |}
               (fun _ => eq_refl))).
    + vm_compute. reflexivity.
    + unfold rejected. vm_compute. discriminate.
Defined.

Lemma upgrade_handshake_accept_witness :
  upgradeListener Sample.url_parse (Sample.upgradeRequest Sample.tokenTarget)
  = Ok [SocketOnError;
        SocketWrite
          (js "HTTP/1.1 101 Web Socket Protocol Handshake" ++ [13; 10]
             ++ js "Upgrade: WebSocket" ++ [13; 10]
             ++ js "Connection: Upgrade" ++ [13; 10]
             ++ js "Sec-WebSocket-Accept: s3pPLMBiTxaQ9kYGzzhZRbK+xOo="
             ++ [13; 10; 13; 10]);
        HandleWebSocket Sample.tokenQuery false].
Proof.
  destruct (upgradeListener Sample.url_parse
              (Sample.upgradeRequest Sample.tokenTarget))
    as [effects|e] eqn:Hrun; [|vm_compute in Hrun; discriminate].
  destruct (upgrade_handshake_accept Sample.url_parse
              (Sample.upgradeRequest Sample.tokenTarget) effects Hrun)
    as (key & q & deflate & Heff & ->).
  - unfold rejected. vm_compute in Hrun. congruence.
  - rewrite Heff in Hrun |- *.
    vm_compute in Hrun. injection Hrun as _ Hq Hd.
    rewrite <- Hq, <- Hd.
    vm_compute. reflexivity.
Defined.

End UpgradeExamples.

(** ** Server: files below the application root *)

Section StaticFacts.
Import Server ServerSpec.

Variable url_parse : jsstring -> Exc UrlWithParsedQuery.
Variable fileUriFsPath : jsstring -> Exc jsstring.
Variable dirname : jsstring.
Variable stat : jsstring -> option Stats.

(** Every pathname other than the three fixed routes is answered by
    [serveFile] on the decoded, normalised pathname joined to the
    application root, "/static/" cut off first. *)
Theorem ordinary_path_served (req : IncomingMessage)
    (parsed : UrlWithParsedQuery) (p file : jsstring) :
  JS.truthyOpt (url req) = true ->
  url_parse (JS.toString (url req)) = Ok parsed ->
  pathname parsed = Some p ->
  p <> [] ->
  p <> js "/" ->
  p <> js "/manifest.json" ->
  p <> js "/vscode-remote-resource" ->
  requestedFile (APP_ROOT dirname) p = Ok file ->
  requestListener url_parse fileUriFsPath dirname stat req
  = serveFile stat req file [].
Proof.
  intros Hurl Hparse Hpath Hne Hroot Hmanifest Hremote Hfile.
  rewrite (requestListener_parsed url_parse fileUriFsPath dirname stat
             req parsed Hurl Hparse).
  unfold handleRequest. cbn [bindExc]. rewrite Hpath.
  rewrite !bool_decide_eq_false_2 by congruence.
  destruct p as [|c p]; [congruence|].
  cbn [JS.truthyOpt JS.truthy JS.toString].
  unfold requestedFile in Hfile.
  change (length (js "/static/")) with 8%nat.
  destruct (JS.startsWith (js "/static/") (c :: p));
    destruct (URIDecode.decodeURIComponent _) as [d|e];
    cbn [bindExc] in Hfile |- *; congruence.
Qed.

End StaticFacts.

Section StaticExamples.
Import Server ServerSpec.

Lemma ordinary_path_served_witness :
  requestListener Sample.url_parse Sample.fileUriFsPath Sample.dirname
    Sample.stat (Sample.request (js "/static/out/vs/loader.js") [])
  = serveFile Sample.stat (Sample.request (js "/static/out/vs/loader.js") [])
      (js "/srv/fxcode/out/vs/loader.js") [].
Proof.
  refine (ordinary_path_served Sample.url_parse Sample.fileUriFsPath
            Sample.dirname Sample.stat _
            {| pathname := Some (js "/static/out/vs/loader.js"); query := ∅ |}
            (js "/static/out/vs/loader.js") _ _ _ _ _ _ _ _ _);
    try (vm_compute; reflexivity); vm_compute; discriminate.
Defined.

(** C1 fails on the code: with the application root /srv/fxcode, the
    request target /static/../../etc/passwd is answered with the file
    /etc/passwd, which is not below the root.  The same traversal without
    the /static/ prefix stays below the root. *)
Theorem static_traversal_escapes_root :
  APP_ROOT Sample.dirname = js "/srv/fxcode"
  /\ requestedFile (APP_ROOT Sample.dirname) (js "/static/../../etc/passwd")
     = Ok (js "/etc/passwd")
  /\ withinRoot (APP_ROOT Sample.dirname) (js "/etc/passwd") = false
  /\ requestListener Sample.url_parse Sample.fileUriFsPath Sample.dirname
       Sample.stat (Sample.request (js "/static/../../etc/passwd") [])
     = [WriteHead 200
          [(js "Content-Type", js "text/plain");
           (js "Etag",
            js "W/" ++ [34] ++ js "1311-2903-1604310000000" ++ [34])];
        PipeFile (js "/etc/passwd")]
  /\ requestedFile (APP_ROOT Sample.dirname) (js "/../../etc/passwd")
     = Ok (js "/srv/fxcode/etc/passwd")
  /\ withinRoot (APP_ROOT Sample.dirname) (js "/srv/fxcode/etc/passwd") = true.
Proof. vm_compute. repeat split. Qed.

End StaticExamples.

Section ContainmentFacts.
Import Server ServerSpec.

(** A request path that starts with "/" and not with "/static/" is
    answered from a file at or below the application root, whatever
    ".." segments it holds. *)
Theorem plain_request_within_root (root p file : jsstring) :
  Path.isAbsolute root = true ->
  Path.isAbsolute p = true ->
  JS.startsWith (js "/static/") p = false ->
  requestedFile root p = Ok file ->
  withinRoot root file = true.
Proof.
  intros Hroot Hp Hstatic. unfold requestedFile. rewrite Hstatic.
  destruct (URIDecode.decodeURIComponent p) as [d|e] eqn:Hdec;
    cbn [bindExc]; [|discriminate].
  intros H. injection H as <-.
  pose proof (decode_keeps_slash p d Hp Hdec) as Hd.
  destruct (pathSegments_join root d Hroot Hd) as [Habs Hsegs].
  unfold withinRoot. rewrite Habs, Hsegs, isPrefix_app. reflexivity.
Qed.

Lemma plain_request_within_root_witness :
  requestedFile (js "/srv/fxcode") (js "/a/%2e%2e/../../etc/passwd")
    = Ok (js "/srv/fxcode/etc/passwd")
  /\ withinRoot (js "/srv/fxcode") (js "/srv/fxcode/etc/passwd") = true.
Proof.
  split; [vm_compute; reflexivity|].
  apply (plain_request_within_root (js "/srv/fxcode")
           (js "/a/%2e%2e/../../etc/passwd"));
    vm_compute; reflexivity.
Defined.

End ContainmentFacts.


(** ** Server: every request is answered once *)

Section AnswerFacts.
Import Server AnswerSpec.

Variable url_parse : jsstring -> Exc UrlWithParsedQuery.
Variable fileUriFsPath : jsstring -> Exc jsstring.
Variable dirname : jsstring.
Variable stat : jsstring -> option Stats.

Lemma serveError_answeredOnce (status : N) (message : jsstring) :
  knownStatus status -> answeredOnce (serveError status message).
Proof.
  intros Hs. left. exists status, [(js "Content-Type", js "text/plain")],
    (Some message). split; [reflexivity | exact Hs].
Qed.

Lemma serveFile_answeredOnce (req : IncomingMessage) (filePath : jsstring)
    (responseHeaders : OutgoingHttpHeaders) :
  answeredOnce (serveFile stat req filePath responseHeaders).
Proof.
  unfold serveFile.
  destruct (stat (Path.normalize filePath)) as [st|].
  - destruct (bool_decide _).
    + left. do 3 eexists. split; [reflexivity|]. unfold knownStatus. auto.
    + right. do 2 eexists. reflexivity.
  - left. do 3 eexists. split; [reflexivity|]. unfold knownStatus. auto 6.
Qed.

(** Whatever the request, the file system and the outcome of the
    parsers, the request listener writes one head with one of the
    statuses 200, 304, 400, 404, 500 and then either ends the response
    or, with status 200, pipes one file into it. *)
Theorem requestListener_answers_once (req : IncomingMessage) :
  answeredOnce (requestListener url_parse fileUriFsPath dirname stat req).
Proof.
  unfold requestListener.
  destruct (negb (JS.truthyOpt (url req)));
    [apply serveError_answeredOnce; unfold knownStatus; auto|].
  unfold handleRequest.
  destruct (url_parse _) as [parsed|e]; cbn [bindExc];
    [|apply serveError_answeredOnce; unfold knownStatus; auto 6].
  destruct (bool_decide (pathname parsed = Some _)).
  { destruct (query parsed !! js "path") as [[filePath|l]|];
      try (apply serveError_answeredOnce; unfold knownStatus; auto).
    destruct (fileUriFsPath filePath) as [fsPath|e]; cbn [bindExc];
      [|apply serveError_answeredOnce; unfold knownStatus; auto 6].
    destruct (JS.truthy fsPath);
      [apply serveFile_answeredOnce
      |apply serveError_answeredOnce; unfold knownStatus; auto]. }
  destruct (bool_decide (pathname parsed = Some _));
    [apply serveFile_answeredOnce|].
  destruct (bool_decide (pathname parsed = Some _)).
  { left. do 3 eexists. split; [reflexivity|]. unfold knownStatus. auto. }
  destruct (JS.truthyOpt (pathname parsed));
    [|apply serveError_answeredOnce; unfold knownStatus; auto 6].
  destruct (JS.startsWith _ _);
    destruct (URIDecode.decodeURIComponent _) as [d|e]; cbn [bindExc];
    try apply serveFile_answeredOnce;
    apply serveError_answeredOnce; unfold knownStatus; auto 6.
Qed.

End AnswerFacts.

(** ** Server: the weak validator identifies the file state *)

Section EtagFacts.
Import Server ServerSpec AnswerSpec.

Lemma app_dash_inv (a a' r r' : jsstring) :
  Forall (fun c => c <> DASH) a ->
  Forall (fun c => c <> DASH) a' ->
  a ++ DASH :: r = a' ++ DASH :: r' ->
  a = a' /\ r = r'.
Proof.
  intros Ha. revert a'.
  induction Ha as [|c a Hc _ IH]; intros a' Ha' H.
  - destruct Ha' as [|c' a' Hc' _]; simpl in H.
    + injection H as ->. split; reflexivity.
    + injection H as H _. congruence.
  - destruct Ha' as [|c' a' Hc' Ha']; simpl in H.
    + injection H as H _. congruence.
    + injection H as -> H. destruct (IH a' Ha' H) as [-> ->].
      split; reflexivity.
Qed.

(** Two file states have the same validator exactly when their inode
    numbers and sizes are the same Numbers and their time values agree. *)
Lemma etagOf_same_numbers (st st' : Stats) :
  etagOf st = etagOf st' <-> validatorNumbers st = validatorNumbers st'.
Proof.
  unfold etagOf, validatorNumbers. cbn [JS.join]. split.
  - intros H.
    apply app_inv_head in H. apply app_inv_head in H.
    apply app_inv_tail in H.
    change (js "-") with [DASH] in H.
    change (?a ++ [DASH] ++ ?b) with (a ++ DASH :: b) in H.
    apply app_dash_inv in H as [Hino H]; try apply numberToString_no_dash.
    change ([DASH] ++ ?b) with (DASH :: b) in H.
    apply app_dash_inv in H as [Hsize Hmtime];
      try apply numberToString_no_dash.
    apply numberToString_inj in Hino. apply numberToString_inj in Hsize.
    apply stringOfNumber_getTime_inj in Hmtime.
    rewrite Hino, Hsize, Hmtime. reflexivity.
  - intros [= Hino Hsize Hmtime].
    rewrite (numberToString_same _ _ Hino), (numberToString_same _ _ Hsize),
      Hmtime.
    reflexivity.
Qed.

Variable stat : jsstring -> option Stats.

(** The validator tells file states apart as far as JavaScript sees
    them.  A validator issued for a state whose inode number, size or
    modification time is another Number never gives 304: the file is
    sent again with its present validator.  A validator issued for a
    state with the same three Numbers gives 304, also when the 64-bit
    inode numbers differ and only become the same double. *)
Theorem stale_validator_resends (req : IncomingMessage) (filePath : jsstring)
    (st old : Stats) :
  stat (Path.normalize filePath) = Some st ->
  headers req !! js "if-none-match" = Some (etagOf old) ->
  (validatorNumbers old <> validatorNumbers st ->
   serveFile stat req filePath []
   = [WriteHead 200
        [(js "Content-Type", contentTypeOf (Path.normalize filePath));
         (js "Etag", etagOf st)];
      PipeFile (Path.normalize filePath)])
  /\ (validatorNumbers old = validatorNumbers st ->
      serveFile stat req filePath [] = [WriteHead 304 []; End None]).
Proof.
  intros Hstat Hhdr. unfold serveFile. rewrite Hstat, Hhdr. split.
  - intros Hold. rewrite bool_decide_eq_false_2; [reflexivity|].
    intros H. apply Hold, etagOf_same_numbers. congruence.
  - intros Hsame. apply etagOf_same_numbers in Hsame.
    rewrite Hsame, bool_decide_eq_true_2 by reflexivity. reflexivity.
Qed.

End EtagFacts.

Lemma stale_validator_resends_witness :
  Server.serveFile Sample.stat
    (Sample.request (js "/out/vs/loader.js")
       [(js "if-none-match", Server.etagOf Sample.bigInodeStats)])
    (js "/srv/fxcode/out/vs/loader.js") []
  = [Server.WriteHead 200
       [(js "Content-Type", js "text/javascript");
        (js "Etag", JS.litq "W/'52-30213-1604311200500'")];
     Server.PipeFile (js "/srv/fxcode/out/vs/loader.js")]
  /\ Server.serveFile (fun _ => Some Sample.nextInodeStats)
       (Sample.request (js "/out/vs/loader.js")
          [(js "if-none-match", Server.etagOf Sample.bigInodeStats)])
       (js "/srv/fxcode/out/vs/loader.js") []
     = [Server.WriteHead 304 []; Server.End None]
  /\ Server.etagOf Sample.bigInodeStats
     = JS.litq "W/'9007199254740992-30213-1604311200500'".
Proof.
  split; [|split].
  - rewrite (proj1 (stale_validator_resends Sample.stat
                      (Sample.request (js "/out/vs/loader.js")
                         [(js "if-none-match",
                           Server.etagOf Sample.bigInodeStats)])
                      (js "/srv/fxcode/out/vs/loader.js")
                      Sample.loaderStats Sample.bigInodeStats
                      eq_refl eq_refl)).
    + vm_compute. reflexivity.
    + vm_compute. discriminate.
  - apply (proj2 (stale_validator_resends (fun _ => Some Sample.nextInodeStats)
                    (Sample.request (js "/out/vs/loader.js")
                       [(js "if-none-match",
                         Server.etagOf Sample.bigInodeStats)])
                    (js "/srv/fxcode/out/vs/loader.js")
                    Sample.nextInodeStats Sample.bigInodeStats
                    eq_refl eq_refl)).
    vm_compute. reflexivity.
  - vm_compute. reflexivity.
Defined.

(** ** Server: the file that is served is the file that was resolved *)

Section NormalFormFacts.
Import Server ServerSpec AnswerSpec.

Lemma join_plain_nonempty (seg : jsstring) (segs : list jsstring) :
  Forall plain (seg :: segs) -> JS.join [Path.SLASH] (seg :: segs) <> [].
Proof.
  intros Hplain. inversion Hplain as [|? ? (Hne & _) _]; subst.
  destruct seg; [congruence|]. destruct segs; discriminate.
Qed.

Lemma normalize_absoluteForm (x : jsstring) :
  Path.isAbsolute x = true ->
  Path.normalize x
  = absoluteForm (pathSegments x) (Path.trailingSeparator x).
Proof.
  intros Habs. destruct x as [|c x]; [discriminate|].
  unfold Path.normalize. rewrite Habs.
  change (negb true) with false.
  change (Path.normalizeString (c :: x) false)
    with (JS.join [Path.SLASH] (pathSegments (c :: x))).
  pose proof (pathSegments_plain (c :: x)) as Hplain.
  unfold absoluteForm.
  destruct (pathSegments (c :: x)) as [|seg segs]; [reflexivity|].
  pose proof (join_plain_nonempty seg segs Hplain) as Hne.
  destruct (JS.join [Path.SLASH] (seg :: segs)) as [|j0 jrest];
    [congruence|].
  destruct (Path.trailingSeparator (c :: x)); [reflexivity|].
  rewrite app_nil_r. reflexivity.
Qed.

Lemma last_join_plain (seg : jsstring) (segs : list jsstring) :
  Forall plain (seg :: segs) ->
  last (JS.join [Path.SLASH] (seg :: segs)) <> Some Path.SLASH.
Proof.
  revert seg. induction segs as [|seg' segs IH]; intros seg Hplain.
  - inversion Hplain as [|? ? (Hne & _ & _ & Hns) _]; subst. simpl.
    destruct (last seg) as [c|] eqn:E; [|discriminate].
    intros H. injection H as ->.
    apply last_Some in E as (l' & ->).
    apply Forall_app in Hns as [_ Hc]. inversion Hc. congruence.
  - inversion Hplain as [|? ? _ Hrest]; subst.
    change (JS.join [Path.SLASH] (seg :: seg' :: segs))
      with (seg ++ Path.SLASH :: JS.join [Path.SLASH] (seg' :: segs)).
    pose proof (join_plain_nonempty seg' segs Hrest) as Hne.
    destruct (JS.join [Path.SLASH] (seg' :: segs)) as [|j0 jrest] eqn:E;
      [congruence|].
    rewrite last_app_cons, last_cons_cons, <- E. apply IH, Hrest.
Qed.

Lemma trailingSeparator_absoluteForm (seg : jsstring) (segs : list jsstring)
    (trailing : bool) :
  Forall plain (seg :: segs) ->
  Path.trailingSeparator (absoluteForm (seg :: segs) trailing) = trailing.
Proof.
  intros Hplain. unfold absoluteForm, Path.trailingSeparator.
  pose proof (join_plain_nonempty seg segs Hplain) as Hne.
  pose proof (last_join_plain seg segs Hplain) as Hlast.
  destruct (JS.join [Path.SLASH] (seg :: segs)) as [|j0 jrest] eqn:E;
    [congruence|].
  destruct trailing.
  - change (Path.SLASH :: (j0 :: jrest) ++ [Path.SLASH])
      with ((Path.SLASH :: j0 :: jrest) ++ [Path.SLASH]).
    rewrite last_snoc. reflexivity.
  - rewrite app_nil_r, last_cons_cons.
    destruct (last (j0 :: jrest)) as [c|]; [|reflexivity].
    destruct (N.eqb_spec c Path.SLASH); [congruence | reflexivity].
Qed.

(** Normalising an absolute path twice changes nothing more. *)
Lemma normalize_idempotent (x : jsstring) :
  Path.isAbsolute x = true ->
  Path.normalize (Path.normalize x) = Path.normalize x.
Proof.
  intros Habs.
  destruct (split_normalize x Habs) as (Habs' & _ & _).
  rewrite (normalize_absoluteForm (Path.normalize x) Habs').
  rewrite (pathSegments_normalize x Habs).
  rewrite !(normalize_absoluteForm x Habs).
  pose proof (pathSegments_plain x) as Hplain.
  destruct (pathSegments x) as [|seg segs] eqn:E; [reflexivity|].
  rewrite (trailingSeparator_absoluteForm seg segs _ Hplain). reflexivity.
Qed.

Lemma requestedFile_normal (root p file : jsstring) :
  Path.isAbsolute root = true ->
  requestedFile root p = Ok file ->
  Path.normalize file = file.
Proof.
  intros Hroot. unfold requestedFile.
  destruct (URIDecode.decodeURIComponent _) as [d|e]; cbn [bindExc];
    [|discriminate].
  intros H. injection H as <-.
  destruct root as [|r root]; [discriminate|].
  unfold Path.join. cbn [Path.joinArgs].
  destruct (Path.normalize d) as [|n nd] eqn:En.
  - apply normalize_idempotent. exact Hroot.
  - apply normalize_idempotent. exact Hroot.
Qed.

Lemma APP_ROOT_absolute (dirname : jsstring) :
  Path.isAbsolute dirname = true ->
  Path.isAbsolute (APP_ROOT dirname) = true.
Proof.
  intros Habs. destruct dirname as [|c dirname]; [discriminate|].
  unfold APP_ROOT, Path.join. cbn [Path.joinArgs].
  change (js "../../../..") with (46 :: js "./../../..").
  cbn [Path.joinArgs].
  apply split_normalize. exact Habs.
Qed.

Variable url_parse : jsstring -> Exc UrlWithParsedQuery.
Variable fileUriFsPath : jsstring -> Exc jsstring.
Variable dirname : jsstring.
Variable stat : jsstring -> option Stats.

Lemma requestListener_ordinary (req : IncomingMessage)
    (parsed : UrlWithParsedQuery) (p file : jsstring) :
  JS.truthyOpt (url req) = true ->
  url_parse (JS.toString (url req)) = Ok parsed ->
  pathname parsed = Some p ->
  p <> [] -> p <> js "/" -> p <> js "/manifest.json" ->
  p <> js "/vscode-remote-resource" ->
  requestedFile (APP_ROOT dirname) p = Ok file ->
  requestListener url_parse fileUriFsPath dirname stat req
  = serveFile stat req file [].
Proof.
  intros Hurl Hparse Hpath Hne Hroot Hmanifest Hremote Hfile.
  unfold requestListener, handleRequest.
  rewrite Hurl, Hparse. cbn [negb bindExc]. rewrite Hpath.
  rewrite !bool_decide_eq_false_2 by congruence.
  destruct p as [|c p]; [congruence|].
  cbn [JS.truthyOpt JS.truthy JS.toString].
  unfold requestedFile in Hfile.
  change (length (js "/static/")) with 8%nat.
  destruct (JS.startsWith (js "/static/") (c :: p));
    destruct (URIDecode.decodeURIComponent _) as [d|e];
    cbn [bindExc] in Hfile |- *; congruence.
Qed.

(** With an absolute [__dirname], a request for an ordinary path is
    decided by the file [path.join(APP_ROOT, normalize(decode(path)))]
    itself: 404 when its [stat] fails, and otherwise, unless the
    request carries the file's validator, 200 with the file's content
    type and validator and that very file piped into the response. *)
Theorem ordinary_request_end_to_end (req : IncomingMessage)
    (parsed : UrlWithParsedQuery) (p file : jsstring) :
  Path.isAbsolute dirname = true ->
  JS.truthyOpt (url req) = true ->
  url_parse (JS.toString (url req)) = Ok parsed ->
  pathname parsed = Some p ->
  p <> [] -> p <> js "/" -> p <> js "/manifest.json" ->
  p <> js "/vscode-remote-resource" ->
  requestedFile (APP_ROOT dirname) p = Ok file ->
  (stat file = None ->
   requestListener url_parse fileUriFsPath dirname stat req
   = [WriteHead 404 [(js "Content-Type", js "text/plain")];
      End (Some (js "Not found"))])
  /\ (forall st,
        stat file = Some st ->
        headers req !! js "if-none-match" <> Some (etagOf st) ->
        requestListener url_parse fileUriFsPath dirname stat req
        = [WriteHead 200
             [(js "Content-Type", contentTypeOf file);
              (js "Etag", etagOf st)];
           PipeFile file]).
Proof.
  intros Hdir Hurl Hparse Hpath Hne Hroot Hmanifest Hremote Hfile.
  rewrite (requestListener_ordinary req parsed p file Hurl Hparse Hpath Hne
             Hroot Hmanifest Hremote Hfile).
  pose proof (requestedFile_normal _ p file (APP_ROOT_absolute dirname Hdir)
                Hfile) as Hnormal.
  unfold serveFile. rewrite Hnormal. split.
  - intros ->. reflexivity.
  - intros st -> Hetag. rewrite bool_decide_eq_false_2 by exact Hetag.
    reflexivity.
Qed.

End NormalFormFacts.

(** ** Game view: the keys the game holds pressed *)

Section KeyMirrorFacts.
Import GameView GameViewSpec GameViewElement GameViewElementSpec.

Lemma truthyAt_setAt (arr : BoolArray) (i k : nat) (v : bool) :
  truthyAt (setAt arr i v) k = if (k =? i)%nat then v else truthyAt arr k.
Proof.
  unfold truthyAt, setAt.
  destruct (Nat.eqb_spec k i) as [->|Hne].
  - destruct (decide (i < length arr)%nat) as [Hlt|Hge].
    + rewrite list_lookup_insert_eq by exact Hlt. reflexivity.
    + rewrite lookup_app_r by lia.
      rewrite list_lookup_middle by (rewrite length_replicate; reflexivity).
      reflexivity.
  - destruct (decide (i < length arr)%nat) as [Hlt|Hge].
    + rewrite list_lookup_insert_ne by congruence. reflexivity.
    + destruct (decide (k < length arr)%nat) as [Hk|Hk].
      * rewrite lookup_app_l by exact Hk. reflexivity.
      * rewrite lookup_app_r by lia.
        rewrite (lookup_ge_None_2 arr k) by lia.
        destruct (decide (k - length arr < i - length arr)%nat) as [Hin|Hout].
        -- rewrite lookup_app_l by (rewrite length_replicate; exact Hin).
           rewrite lookup_replicate_2 by exact Hin. reflexivity.
        -- rewrite lookup_ge_None_2; [reflexivity|].
           rewrite length_app, length_replicate. simpl. lia.
Qed.

Lemma gameKeys_app (l1 l2 : list Call) (pressed : nat -> bool) :
  gameKeys (l1 ++ l2) pressed = gameKeys l2 (gameKeys l1 pressed).
Proof.
  revert pressed. induction l1 as [|c l1 IH]; intros pressed; [reflexivity|].
  destruct c as [[]| | | | |]; simpl; apply IH.
Qed.

Lemma gameKeys_handled (effects : list Effect) (pressed : nat -> bool) :
  gameKeys (Handled <$> effects) pressed = fold_left keyUpdate effects pressed.
Proof.
  revert pressed. induction effects as [|e effects IH]; intros pressed;
    [reflexivity|].
  destruct e; simpl; apply IH.
Qed.

Lemma fold_keyUpdate_ext (effects : list Effect) (p q : nat -> bool) :
  (forall k, p k = q k) ->
  forall k, fold_left keyUpdate effects p k = fold_left keyUpdate effects q k.
Proof.
  revert p q. induction effects as [|e effects IH]; intros p q Hpq k;
    [apply Hpq|].
  simpl. apply IH. intros k'. destruct e; simpl; auto.
  destruct (k' =? vk)%nat; auto.
Qed.

Lemma gameKeys_ext (log : list Call) (p q : nat -> bool) :
  (forall k, p k = q k) ->
  forall k, gameKeys log p k = gameKeys log q k.
Proof.
  revert p q. induction log as [|c log IH]; intros p q Hpq k; [apply Hpq|].
  destruct c as [[]| | | | |]; simpl; apply IH; auto.
  intros k'. destruct (k' =? vk)%nat; auto.
Qed.

(** Releasing the keys [ks] one after the other. *)
Lemma fold_release_keys (ks : list nat) (pressed : nat -> bool) (k : nat) :
  fold_left keyUpdate ((fun vk => SetKeyState vk false) <$> ks) pressed k
  = if bool_decide (k ∈ ks) then false else pressed k.
Proof.
  revert pressed. induction ks as [|vk ks IH]; intros pressed; [reflexivity|].
  simpl. rewrite IH.
  destruct (Nat.eqb_spec k vk) as [->|Hne].
  - rewrite (bool_decide_eq_true_2 (vk ∈ vk :: ks)) by apply list_elem_of_here.
    destruct (bool_decide (vk ∈ ks)); reflexivity.
  - destruct (bool_decide (k ∈ ks)) eqn:E.
    + apply bool_decide_eq_true in E.
      rewrite bool_decide_eq_true_2 by (apply list_elem_of_further, E).
      reflexivity.
    + apply bool_decide_eq_false in E.
      rewrite bool_decide_eq_false_2; [reflexivity|].
      intros Hin. apply elem_of_cons in Hin as [->|Hin]; contradiction.
Qed.

Lemma fold_keyUpdate_buttons (bs : list nat) (pressed : nat -> bool) :
  fold_left keyUpdate
    ((fun b => SetMouseButtonState (Z.of_nat b) false) <$> bs) pressed
  = pressed.
Proof. induction bs as [|b bs IH]; [reflexivity | exact IH]. Qed.

Lemma activeFrom_elem (arr : BoolArray) (k : nat) :
  k ∈ activeFrom 0 arr <-> truthyAt arr k = true.
Proof.
  pose proof (activeFrom_count arr 0 k) as Hcount.
  rewrite Nat.sub_0_r in Hcount.
  destruct (decide (0 <= k)%nat); [|lia].
  rewrite list_elem_of_In. split.
  - intros Hin. apply (count_occ_In Nat.eq_dec) in Hin.
    destruct (truthyAt arr k); [reflexivity | lia].
  - intros Htrue. apply (count_occ_In Nat.eq_dec).
    rewrite Hcount, Htrue. lia.
Qed.

(** [_resetStates] keeps the game and [_keysState] in step. *)
Lemma resetStates_mirrors (g : GameView) (pressed : nat -> bool) :
  mirrors g pressed ->
  mirrors (_resetStates g).1 (fold_left keyUpdate (_resetStates g).2 pressed).
Proof.
  intros Hm k. rewrite resetStates_spec. cbn [fst snd _keysState].
  rewrite released_truthyAt.
  rewrite !fold_left_app. rewrite fold_keyUpdate_buttons.
  rewrite fold_release_keys. simpl.
  destruct (bool_decide (k ∈ activeFrom 0 (_keysState g))) eqn:E;
    [reflexivity|].
  apply bool_decide_eq_false in E. rewrite activeFrom_elem in E.
  rewrite Hm. destruct (truthyAt (_keysState g) k); congruence.
Qed.

Lemma keydown_mirrors (e : KeyboardEvent) (g : GameView)
    (pressed : nat -> bool) :
  mirrors g pressed ->
  mirrors (_handleKeydown e g).1
          (fold_left keyUpdate (_handleKeydown e g).2 pressed).
Proof.
  intros Hm. unfold _handleKeydown.
  destruct (negb (_acceptInput g)); [exact Hm|].
  destruct (bool_decide _ && shiftKey e).
  { destruct (_fullscreenActive g), (_pointerLocked g); exact Hm. }
  destruct (truthyAt (_keysState g) _) eqn:Hdown; [exact Hm|].
  intros k. cbn [fst snd withKeys _keysState].
  rewrite truthyAt_setAt.
  destruct (length (key e) =? 1)%nat; [|destruct (2 <? length (key e))%nat];
    simpl; rewrite Hm; reflexivity.
Qed.

Lemma keyup_mirrors (e : KeyboardEvent) (g : GameView)
    (pressed : nat -> bool) :
  mirrors g pressed ->
  mirrors (_handleKeyup e g).1
          (fold_left keyUpdate (_handleKeyup e g).2 pressed).
Proof.
  intros Hm. unfold _handleKeyup.
  destruct (negb (_acceptInput g)); [exact Hm|].
  intros k. cbn [fst snd withKeys _keysState].
  rewrite truthyAt_setAt. simpl. rewrite Hm. reflexivity.
Qed.

Lemma mousedown_mirrors (e : MouseEvent) (g : GameView)
    (pressed : nat -> bool) :
  mirrors g pressed ->
  mirrors (_handleMousedown e g).1
          (fold_left keyUpdate (_handleMousedown e g).2 pressed).
Proof.
  intros Hm. unfold _handleMousedown.
  destruct (isObservingMode g && isLMB e), (negb (isLMB e));
    match goal with
    | |- context [isControlingMode ?g1] => destruct (isControlingMode g1)
    end;
    try match goal with
    | |- context [negb (_pointerLocked ?g1) && ?b] =>
        destruct (negb (_pointerLocked g1) && b)
    end; exact Hm.
Qed.

Lemma mouseup_mirrors (e : MouseEvent) (g : GameView)
    (pressed : nat -> bool) :
  mirrors g pressed ->
  mirrors (_handleMouseup e g).1
          (fold_left keyUpdate (_handleMouseup e g).2 pressed).
Proof.
  intros Hm. unfold _handleMouseup.
  destruct (isObservingMode g && isLMB e).
  - pose proof (resetStates_mirrors (withAcceptInput g false) pressed Hm)
      as Hreset.
    destruct (_resetStates (withAcceptInput g false)) as [g1 log1].
    destruct (isControlingMode g1); cbn [fst snd] in *;
      rewrite ?fold_left_app; exact Hreset.
  - destruct (isControlingMode g); exact Hm.
Qed.

Lemma pointerLockChange_mirrors (locked : bool) (g : GameView)
    (pressed : nat -> bool) :
  mirrors g pressed ->
  mirrors (_handlePointerLockChange locked g).1
          (fold_left keyUpdate (_handlePointerLockChange locked g).2 pressed).
Proof.
  intros Hm. unfold _handlePointerLockChange.
  set (g1 := {| _mode := _mode g; _keysState := _keysState g;
                _buttonsState := _buttonsState g; _acceptInput := locked;
                _pointerLocked := locked;
                _fullscreenActive := _fullscreenActive g |}).
  assert (Hm1 : mirrors g1 pressed) by exact Hm.
  destruct (negb locked && _pointerLocked g).
  - pose proof (resetStates_mirrors g1 pressed Hm1) as Hreset.
    destruct (_resetStates g1) as [g2 log2]. cbn [fst snd] in *.
    destruct (negb (eqb locked (_pointerLocked g)));
      rewrite fold_left_app; exact Hreset.
  - destruct (negb (eqb locked (_pointerLocked g))); exact Hm1.
Qed.

(** Every event keeps the game and [_keysState] in step. *)
Lemma dispatch_mirrors (ev : Event) (g : GameView) (pressed : nat -> bool) :
  mirrors g pressed ->
  mirrors (dispatch ev g).1 (gameKeys (dispatch ev g).2 pressed).
Proof.
  intros Hm. destruct ev; cbn [dispatch handled fst snd];
    rewrite ?gameKeys_handled.
  - apply keydown_mirrors, Hm.
  - apply keyup_mirrors, Hm.
  - apply mousedown_mirrors, Hm.
  - apply mouseup_mirrors, Hm.
  - unfold _handleMousewheel. destruct (_acceptInput g); exact Hm.
  - exact Hm.
  - unfold _handleDocumentMouseMove.
    destruct (_pointerLocked g && negb onElement); exact Hm.
  - apply resetStates_mirrors, Hm.
  - apply pointerLockChange_mirrors, Hm.
  - unfold _handleFullscreenChange. destruct active; exact Hm.
  - exact Hm.
  - exact Hm.
  - unfold lockPointer. destruct (negb (isControlingMode g)); exact Hm.
  - unfold enterFullscreen. destruct (negb (isControlingMode g)); exact Hm.
Qed.

Lemma run_mirrors (events : list Event) (g : GameView)
    (pressed : nat -> bool) :
  mirrors g pressed ->
  mirrors (run events g).1 (gameKeys (run events g).2 pressed).
Proof.
  revert g pressed. induction events as [|ev events IH]; intros g pressed Hm;
    [exact Hm|].
  cbn [run].
  pose proof (dispatch_mirrors ev g pressed Hm) as Hstep.
  destruct (dispatch ev g) as [g1 calls1].
  specialize (IH g1 _ Hstep).
  destruct (run events g1) as [g2 calls2]. cbn [fst snd] in *.
  rewrite gameKeys_app. exact IH.
Qed.

Lemma run_app (events1 events2 : list Event) (g : GameView) :
  run (events1 ++ events2) g
  = ((run events2 (run events1 g).1).1,
     (run events1 g).2 ++ (run events2 (run events1 g).1).2).
Proof.
  revert g. induction events1 as [|ev events1 IH]; intros g.
  - simpl. destruct (run events2 g); reflexivity.
  - cbn [run app]. destruct (dispatch ev g) as [g1 calls1].
    rewrite IH. destruct (run events1 g1) as [g2 calls2].
    cbn [fst snd]. destruct (run events2 g2) as [g3 calls3].
    cbn [fst snd]. rewrite app_assoc. reflexivity.
Qed.

(** Whatever events and API calls a fresh element goes through, the
    keys the game holds pressed are exactly those [_keysState] marks. *)
Theorem game_keys_mirror_keysState (events : list Event) (k : nat) :
  gameKeys (run events initial).2 nothingPressed k
  = truthyAt (_keysState (run events initial).1) k.
Proof.
  apply (run_mirrors events initial nothingPressed).
  intros k'. unfold nothingPressed, truthyAt. simpl. reflexivity.
Qed.

(** After any history, a window blur leaves no key pressed in the
    game, and so does the loss of the pointer lock. *)
Theorem blur_leaves_no_key_stuck (events : list Event) (k : nat) :
  gameKeys (run (events ++ [WindowBlur]) initial).2 nothingPressed k = false
  /\ (_pointerLocked (run events initial).1 = true ->
      gameKeys (run (events ++ [PointerLockChange false]) initial).2
        nothingPressed k = false).
Proof.
  split.
  - rewrite (run_mirrors (events ++ [WindowBlur]) initial nothingPressed)
      by (intros k'; reflexivity).
    rewrite run_app. cbn [fst snd run dispatch handled _handleWindowBlur].
    destruct (_resetStates (run events initial).1) as [g1 log1] eqn:E.
    cbn [fst].
    replace g1 with (_resetStates (run events initial).1).1 by (rewrite E; reflexivity).
    rewrite resetStates_spec. apply released_truthyAt.
  - intros Hlocked.
    rewrite (run_mirrors (events ++ [PointerLockChange false]) initial
               nothingPressed) by (intros k'; reflexivity).
    rewrite run_app. cbn [fst snd run dispatch handled].
    unfold _handlePointerLockChange. rewrite Hlocked. cbn [negb andb].
    rewrite resetStates_spec. cbn [fst snd _keysState].
    apply released_truthyAt.
Qed.

End KeyMirrorFacts.

(** ** Game view: single handlers *)

Section HandlerFacts.
Import GameView GameViewSpec GameViewElement GameViewElementSpec.

(** [mapKey] gives Shift, Ctrl and Alt their sided codes: 16 becomes
    160 at location 1 and 161 elsewhere, 17 becomes 162 or 163, 18
    becomes 164 or 165.  Every other code is unchanged, so the generic
    codes 16, 17 and 18 never leave [mapKey], and mapping twice changes
    nothing more. *)
Theorem mapKey_sided_modifiers (which location location' : nat) :
  mapKey 16 location = (if (location =? 1)%nat then 160 else 161)%nat
  /\ mapKey 17 location = (if (location =? 1)%nat then 162 else 163)%nat
  /\ mapKey 18 location = (if (location =? 1)%nat then 164 else 165)%nat
  /\ (which <> 16%nat -> which <> 17%nat -> which <> 18%nat ->
      mapKey which location = which)
  /\ mapKey which location <> 16%nat
  /\ mapKey which location <> 17%nat
  /\ mapKey which location <> 18%nat
  /\ mapKey (mapKey which location) location' = mapKey which location.
Proof.
  split; [reflexivity|]. split; [reflexivity|]. split; [reflexivity|].
  unfold mapKey.
  destruct (Nat.eqb_spec which 18) as [->|H18].
  { destruct (location =? 1)%nat; repeat split; try discriminate;
      intros; congruence. }
  destruct (Nat.eqb_spec which 17) as [->|H17].
  { destruct (location =? 1)%nat; repeat split; try discriminate;
      intros; congruence. }
  destruct (Nat.eqb_spec which 16) as [->|H16].
  { destruct (location =? 1)%nat; repeat split; try discriminate;
      intros; congruence. }
  repeat split; try assumption.
  destruct (Nat.eqb_spec which 18); [contradiction|].
  destruct (Nat.eqb_spec which 17); [contradiction|].
  destruct (Nat.eqb_spec which 16); [contradiction|]. reflexivity.
Qed.

Lemma mapKey_sided_modifiers_witness :
  mapKey 65 0 = 65%nat /\ mapKey 16 1 = 160%nat /\ mapKey 16 2 = 161%nat
  /\ mapKey 17 1 = 162%nat /\ mapKey 17 2 = 163%nat
  /\ mapKey 18 1 = 164%nat /\ mapKey 18 0 = 165%nat.
Proof.
  destruct (mapKey_sided_modifiers 65 0 0) as (_ & _ & _ & Hsame & _).
  destruct (mapKey_sided_modifiers 0 1 0) as (H16l & H17l & H18l & _).
  destruct (mapKey_sided_modifiers 0 2 0) as (H16r & H17r & _).
  destruct (mapKey_sided_modifiers 0 0 0) as (_ & _ & H18r & _).
  split; [apply Hsame; discriminate|].
  split; [exact H16l|]. split; [exact H16r|].
  split; [exact H17l|]. split; [exact H17r|].
  split; [exact H18l | exact H18r].
Defined.

(** While input is captured, a key that is held down reaches the game
    once: the repeated keydown of the same key makes no bridge call and
    changes nothing. *)
Theorem keydown_repeat_is_silent (e : KeyboardEvent) (g : GameView) :
  _acceptInput g = true ->
  ordinaryKey e ->
  _handleKeydown e (_handleKeydown e g).1
  = ((_handleKeydown e g).1, [PreventDefault; StopPropagation]).
Proof.
  unfold ordinaryKey. intros Haccept Hkey. unfold _handleKeydown.
  rewrite Haccept, Hkey. cbn [negb].
  destruct (truthyAt (_keysState g) (mapKey (which e) (location e))) eqn:Hdown.
  - cbn [fst]. rewrite Haccept, Hdown. reflexivity.
  - cbn [fst withKeys _acceptInput _keysState]. rewrite Haccept.
    rewrite truthyAt_setAt, Nat.eqb_refl. reflexivity.
Qed.

Lemma keydown_repeat_is_silent_witness :
  _handleKeydown
    {| key := js "w"; shiftKey := false; which := 87; location := 0 |}
    (_handleKeydown
       {| key := js "w"; shiftKey := false; which := 87; location := 0 |}
       (withAcceptInput initial true)).1
  = ((_handleKeydown
        {| key := js "w"; shiftKey := false; which := 87; location := 0 |}
        (withAcceptInput initial true)).1,
     [PreventDefault; StopPropagation]).
Proof.
  apply keydown_repeat_is_silent; vm_compute; reflexivity.
Defined.

(** A keydown and the keyup of the same key, while input is captured,
    leave that key released and every other key as it was, whatever
    holes the array has or gets. *)
Theorem keydown_keyup_round_trip (e : KeyboardEvent) (g : GameView) (k : nat) :
  _acceptInput g = true ->
  ordinaryKey e ->
  truthyAt (_keysState (_handleKeyup e (_handleKeydown e g).1).1) k
  = if (k =? mapKey (which e) (location e))%nat then false
    else truthyAt (_keysState g) k.
Proof.
  unfold ordinaryKey. intros Haccept Hkey.
  assert (Haccept1 : _acceptInput (_handleKeydown e g).1 = true).
  { unfold _handleKeydown. rewrite Haccept, Hkey. cbn [negb].
    destruct (truthyAt _ _); exact Haccept. }
  unfold _handleKeyup. rewrite Haccept1. cbn [negb fst withKeys _keysState].
  rewrite truthyAt_setAt.
  destruct (Nat.eqb_spec k (mapKey (which e) (location e))) as [->|Hne];
    [reflexivity|].
  unfold _handleKeydown. rewrite Haccept, Hkey. cbn [negb].
  destruct (truthyAt (_keysState g) (mapKey (which e) (location e)));
    cbn [fst withKeys _keysState]; [reflexivity|].
  rewrite truthyAt_setAt.
  destruct (Nat.eqb_spec k (mapKey (which e) (location e)));
    [contradiction | reflexivity].
Qed.

Lemma keydown_keyup_round_trip_witness :
  truthyAt
    (_keysState
       (_handleKeyup
          {| key := js "Alt"; shiftKey := false; which := 18; location := 2 |}
          (_handleKeydown
             {| key := js "Alt"; shiftKey := false; which := 18;
                location := 2 |}
             (withKeys (withAcceptInput initial true)
                       [None; Some true])).1).1) 1
  = true.
Proof.
  rewrite keydown_keyup_round_trip; vm_compute; reflexivity.
Defined.

(** Shift+Escape, the hint's way out of the pointer lock, never reaches
    the game: with the pointer locked the handler leaves the element as
    it is and calls neither [setKeyState] nor [setInputChar].  It asks
    the browser to leave the pointer lock exactly when input is
    captured; with capture off it calls nothing at all.  When the
    browser reports the lock lost, input capture ends and no key stays
    marked. *)
Theorem shift_escape_releases_capture (e : KeyboardEvent) (g : GameView) :
  _pointerLocked g = true ->
  key e = js "Escape" ->
  shiftKey e = true ->
  (_handleKeydown e g).1 = g
  /\ (In ExitPointerLock (_handleKeydown e g).2 <-> _acceptInput g = true)
  /\ (_acceptInput g = false -> (_handleKeydown e g).2 = [])
  /\ (forall vk state, ~ In (SetKeyState vk state) (_handleKeydown e g).2)
  /\ (forall c, ~ In (SetInputChar c) (_handleKeydown e g).2)
  /\ _acceptInput (_handlePointerLockChange false g).1 = false
  /\ _pointerLocked (_handlePointerLockChange false g).1 = false
  /\ (forall k,
        truthyAt (_keysState (_handlePointerLockChange false g).1) k = false).
Proof.
  intros Hlocked Hkey Hshift.
  unfold _handleKeydown, _handlePointerLockChange.
  rewrite Hlocked, Hkey, Hshift.
  rewrite bool_decide_eq_true_2 by reflexivity. cbn [negb andb fst snd].
  rewrite resetStates_spec. cbn [fst snd _acceptInput _pointerLocked _keysState].
  destruct (_acceptInput g); cbn [negb fst snd].
  - split; [reflexivity|].
    split; [split; [reflexivity|];
            intros _; destruct (_fullscreenActive g); simpl; auto|].
    split; [discriminate|].
    split; [intros vk state; destruct (_fullscreenActive g); simpl;
            intuition discriminate|].
    split; [intros c; destruct (_fullscreenActive g); simpl;
            intuition discriminate|].
    split; [reflexivity|]. split; [reflexivity|].
    intros k. apply released_truthyAt.
  - split; [reflexivity|].
    split; [split; [intros []|discriminate]|].
    split; [reflexivity|].
    split; [intros vk state []|].
    split; [intros c []|].
    split; [reflexivity|]. split; [reflexivity|].
    intros k. apply released_truthyAt.
Qed.

Lemma shift_escape_releases_capture_witness :
  (_handleKeydown
     {| key := js "Escape"; shiftKey := true; which := 27; location := 0 |}
     {| _mode := ModeControling; _keysState := [Some true];
        _buttonsState := []; _acceptInput := true; _pointerLocked := true;
        _fullscreenActive := true |}).2
  = [PreventDefault; StopPropagation; ExitFullscreen; ExitPointerLock]
  /\ _pointerLocked
       (run [PointerLockChange true; SetMode ModeObserving;
             Mousedown {| button := 0 |}; Mouseup {| button := 0 |}]
            initial).1
     = true
  /\ (_handleKeydown
        {| key := js "Escape"; shiftKey := true; which := 27; location := 0 |}
        (run [PointerLockChange true; SetMode ModeObserving;
              Mousedown {| button := 0 |}; Mouseup {| button := 0 |}]
             initial).1).2
     = [].
Proof.
  split; [vm_compute; reflexivity|].
  split; [vm_compute; reflexivity|].
  apply (shift_escape_releases_capture
           {| key := js "Escape"; shiftKey := true; which := 27;
              location := 0 |}
           (run [PointerLockChange true; SetMode ModeObserving;
                 Mousedown {| button := 0 |}; Mouseup {| button := 0 |}]
                initial).1);
    vm_compute; reflexivity.
Defined.

(** A pointerlockchange event always sets [_pointerLocked] and
    [_acceptInput] to the reported state.  When that state is the one
    the element had, nothing is called and no key or button state
    changes; when it differs, the host is told first:
    [setRawMouseCapture], the element's own pointerlockchange event and
    the hint, in this order. *)
Theorem pointerLockChange_reports_changes (locked : bool) (g : GameView) :
  _pointerLocked (_handlePointerLockChange locked g).1 = locked
  /\ _acceptInput (_handlePointerLockChange locked g).1 = locked
  /\ (locked = _pointerLocked g ->
      (_handlePointerLockChange locked g).2 = []
      /\ _keysState (_handlePointerLockChange locked g).1 = _keysState g
      /\ _buttonsState (_handlePointerLockChange locked g).1
         = _buttonsState g)
  /\ (locked <> _pointerLocked g ->
      exists rest,
        (_handlePointerLockChange locked g).2
        = [SetRawMouseCapture locked; DispatchPointerLockChange locked;
           HintActive locked] ++ rest).
Proof.
  unfold _handlePointerLockChange.
  destruct locked, (_pointerLocked g) eqn:Hwas; cbn [negb andb eqb];
    rewrite ?resetStates_spec; cbn [fst snd];
    repeat split; try congruence; try (intros _; eexists; reflexivity);
    try (intros; repeat split; reflexivity).
Qed.

Lemma pointerLockChange_reports_changes_witness :
  (_handlePointerLockChange false initial).2 = []
  /\ exists rest,
       (_handlePointerLockChange true initial).2
       = [SetRawMouseCapture true; DispatchPointerLockChange true;
          HintActive true] ++ rest.
Proof.
  destruct (pointerLockChange_reports_changes false initial)
    as (_ & _ & Hsame & _).
  destruct (pointerLockChange_reports_changes true initial)
    as (_ & _ & _ & Hdiff).
  split; [apply Hsame; reflexivity | apply Hdiff; discriminate].
Defined.

(** In observing mode the left button only opens and closes input
    capture: pressing it starts capture and calls nothing, releasing it
    ends capture with no key left marked; no handler of a mouse button
    reports a pressed button to the game or asks for the pointer lock. *)
Theorem observing_mode_hold_to_capture (e : MouseEvent) (g : GameView) :
  isObservingMode g = true ->
  (isLMB e = true ->
   _handleMousedown e g = (withAcceptInput g true, [])
   /\ _acceptInput (_handleMouseup e g).1 = false
   /\ (forall k, truthyAt (_keysState (_handleMouseup e g).1) k = false))
  /\ (forall b,
        ~ In (SetMouseButtonState b true) (_handleMousedown e g).2
        /\ ~ In (SetMouseButtonState b true) (_handleMouseup e g).2)
  /\ ~ In RequestPointerLock (_handleMousedown e g).2.
Proof.
  intros Hobs.
  assert (Hctl : isControlingMode g = false).
  { unfold isObservingMode, isControlingMode in *.
    apply N.eqb_eq in Hobs. rewrite Hobs. reflexivity. }
  unfold _handleMousedown, _handleMouseup. rewrite Hobs.
  destruct (isLMB e); cbn [andb negb].
  - rewrite resetStates_spec.
    change (isControlingMode (withAcceptInput g true))
      with (isControlingMode g).
    cbn [fst snd]. 
    change (isControlingMode _) with (isControlingMode g).
    rewrite Hctl. cbn [fst snd _acceptInput _keysState withAcceptInput].
    split.
    { intros _. split; [reflexivity|]. split; [reflexivity|].
      intros k. apply released_truthyAt. }
    split; [|simpl; tauto].
    intros b. split; [simpl; tauto|].
    rewrite !in_app_iff. intros [H|[H|[H|H]]].
    + destruct H as [H|[]]. discriminate.
    + destruct H as [H|[]]. discriminate.
    + apply in_map_iff in H as (x & Hx & _). discriminate.
    + apply in_map_iff in H as (x & Hx & _). discriminate.
  - rewrite Hctl. cbn [fst snd].
    split; [discriminate|].
    split; [|simpl; intuition discriminate].
    intros b. split; simpl; intuition discriminate.
Qed.

Lemma observing_mode_hold_to_capture_witness :
  _handleMousedown {| button := 0 |}
    (GameViewElement.withMode initial ModeObserving)
  = (withAcceptInput (GameViewElement.withMode initial ModeObserving) true, []).
Proof.
  apply (observing_mode_hold_to_capture {| button := 0 |}
           (GameViewElement.withMode initial ModeObserving));
    reflexivity.
Defined.

End HandlerFacts.

(** ** Game view: the draw loop and the listeners *)

Section LifecycleFacts.
Import GameViewElement GameViewElementSpec.

Lemma filter_other_handle (h : N) :
  List.filter (fun h' => negb (h' =? h)) [h] = [].
Proof. simpl. rewrite N.eqb_refl. reflexivity. Qed.

Lemma renderStep_oneFrame (st : RenderStep) (r : Renderer) :
  oneFrame r -> oneFrame (renderStep st r).
Proof.
  unfold oneFrame. intros Hone. destruct st as [| |h]; simpl.
  - unfold pauseRendering.
    destruct (animationFrame r) as [h|] eqn:E; simpl; [|rewrite E; exact Hone].
    rewrite Hone. apply filter_other_handle.
  - unfold unpauseRendering.
    destruct (animationFrame r) as [h|] eqn:E; simpl.
    + rewrite E. exact Hone.
    + rewrite Hone. reflexivity.
  - unfold frame. rewrite Hone.
    destruct (animationFrame r) as [h0|] eqn:E; simpl.
    + destruct (N.eqb_spec h h0) as [->|Hne]; simpl.
      * rewrite N.eqb_refl. reflexivity.
      * rewrite E. exact Hone.
    + rewrite E. exact Hone.
Qed.

(** However [pauseRendering], [unpauseRendering] and the browser's
    frames follow each other, at most one frame request is outstanding,
    and it is the one [animationFrame] holds; while the element is
    paused no frame draws. *)
Theorem draw_loop_single_request (steps : list RenderStep) (h : N) :
  oneFrame (renderRun steps idle)
  /\ (animationFrame (renderRun steps idle) = None ->
      frame h (renderRun steps idle) = renderRun steps idle)
  /\ unpauseRendering (unpauseRendering (renderRun steps idle))
     = unpauseRendering (renderRun steps idle)
  /\ draws (pauseRendering (renderRun steps idle))
     = draws (renderRun steps idle).
Proof.
  assert (Hone : oneFrame (renderRun steps idle)).
  { unfold renderRun.
    assert (Hgen : forall r, oneFrame r ->
              oneFrame (fold_left (fun r st => renderStep st r) steps r)).
    { induction steps as [|st steps IH]; intros r Hr; [exact Hr|].
      simpl. apply IH, renderStep_oneFrame, Hr. }
    apply Hgen. reflexivity. }
  split; [exact Hone|].
  split.
  { intros Hpaused. unfold frame. unfold oneFrame in Hone.
    rewrite Hone, Hpaused. reflexivity. }
  split.
  { unfold unpauseRendering.
    destruct (animationFrame (renderRun steps idle)) eqn:E; simpl;
      [rewrite E|]; reflexivity. }
  unfold pauseRendering.
  destruct (animationFrame (renderRun steps idle)); reflexivity.
Qed.

Lemma draw_loop_single_request_witness :
  pendingFrames (renderRun [Unpause; Unpause; Frame 1; Unpause] idle) = [2]
  /\ frame 2 (renderRun [Unpause; Frame 1; Pause] idle)
     = renderRun [Unpause; Frame 1; Pause] idle.
Proof.
  split; [vm_compute; reflexivity|].
  apply (draw_loop_single_request [Unpause; Frame 1; Pause] 2).
  reflexivity.
Defined.

Lemma removed_are_own : removedListeners = ownListeners.
Proof. reflexivity. Qed.

Lemma fold_remove (ls reg : list Listener) :
  fold_left (fun reg l => removeEventListener l reg) ls reg
  = List.filter (fun l' => negb (bool_decide (l' ∈ ls))) reg.
Proof.
  revert reg. induction ls as [|l ls IH]; intros reg; cbn [fold_left].
  - induction reg as [|x reg IHreg]; [reflexivity|].
    cbn [List.filter].
    rewrite (bool_decide_eq_false_2 (x ∈ [])) by apply not_elem_of_nil.
    cbn [negb]. rewrite <- IHreg. reflexivity.
  - rewrite IH. unfold removeEventListener.
    induction reg as [|x reg IHreg]; [reflexivity|].
    cbn [List.filter].
    destruct (decide (x = l)) as [->|Hne].
    + rewrite (bool_decide_eq_true_2 (l = l)) by reflexivity. cbn [negb].
      rewrite (bool_decide_eq_true_2 (l ∈ l :: ls)) by apply list_elem_of_here.
      cbn [negb]. exact IHreg.
    + rewrite (bool_decide_eq_false_2 (x = l)) by exact Hne.
      cbn [negb List.filter].
      rewrite IHreg.
      destruct (decide (x ∈ ls)) as [Hin|Hout].
      * rewrite (bool_decide_eq_true_2 (x ∈ ls)) by exact Hin.
        rewrite (bool_decide_eq_true_2 (x ∈ l :: ls))
          by (apply list_elem_of_further, Hin).
        reflexivity.
      * rewrite (bool_decide_eq_false_2 (x ∈ ls)) by exact Hout.
        rewrite (bool_decide_eq_false_2 (x ∈ l :: ls)); [reflexivity|].
        intros Hin. apply elem_of_cons in Hin as [->|Hin]; contradiction.
Qed.

Lemma fold_add (ls reg : list Listener) :
  exists extra,
    fold_left (fun reg l => addEventListener l reg) ls reg = reg ++ extra
    /\ Forall (fun l => l ∈ ls) extra
    /\ (forall l, l ∈ ls -> l ∈ reg ++ extra).
Proof.
  revert reg. induction ls as [|l ls IH]; intros reg; simpl.
  - exists []. rewrite app_nil_r. split; [reflexivity|].
    split; [constructor|]. intros l Hl. apply elem_of_nil in Hl. contradiction.
  - unfold addEventListener at 2.
    destruct (bool_decide (l ∈ reg)) eqn:E.
    + apply bool_decide_eq_true in E.
      destruct (IH reg) as (extra & Heq & Hall & Hcover).
      exists extra. split; [exact Heq|]. split.
      * eapply Forall_impl; [exact Hall|]. intros x Hx.
        apply list_elem_of_further, Hx.
      * intros x Hx. apply elem_of_cons in Hx as [->|Hx];
          [apply elem_of_app; left; exact E | apply Hcover, Hx].
    + destruct (IH (reg ++ [l])) as (extra & Heq & Hall & Hcover).
      exists (l :: extra). rewrite Heq, <- app_assoc. split; [reflexivity|].
      split.
      * constructor; [apply list_elem_of_here|].
        eapply Forall_impl; [exact Hall|]. intros x Hx.
        apply list_elem_of_further, Hx.
      * intros x Hx. apply elem_of_cons in Hx as [->|Hx].
        -- apply elem_of_app. right. apply list_elem_of_here.
        -- specialize (Hcover x Hx). rewrite <- app_assoc in Hcover.
           exact Hcover.
Qed.

Lemma filter_all_out (ls extra : list Listener) :
  Forall (fun l => l ∈ ls) extra ->
  List.filter (fun l' => negb (bool_decide (l' ∈ ls))) extra = [].
Proof.
  induction 1 as [|x extra Hx _ IH]; [reflexivity|].
  cbn [List.filter].
  rewrite (bool_decide_eq_true_2 (x ∈ ls)) by exact Hx. exact IH.
Qed.

Lemma fold_add_present (ls reg : list Listener) :
  (forall l, l ∈ ls -> l ∈ reg) ->
  fold_left (fun reg l => addEventListener l reg) ls reg = reg.
Proof.
  revert reg. induction ls as [|l ls IH]; intros reg Hall; [reflexivity|].
  simpl. unfold addEventListener at 2.
  rewrite bool_decide_eq_true_2 by (apply Hall, list_elem_of_here).
  apply IH. intros x Hx. apply Hall, list_elem_of_further, Hx.
Qed.

(** Connecting the element and disconnecting it again leaves none of
    its ten listeners registered and every other listener in place, in
    its order, and leaves no frame request behind; connecting an element
    that is connected already registers nothing twice. *)
Theorem connect_disconnect_leaves_nothing (pg : Page) :
  oneFrame (renderer pg) ->
  listeners (disconnectedCallback (connectedCallback pg))
    = List.filter (fun l => negb (bool_decide (l ∈ ownListeners)))
                  (listeners pg)
  /\ (forall l, l ∈ ownListeners ->
        l ∉ listeners (disconnectedCallback (connectedCallback pg)))
  /\ pendingFrames (renderer (disconnectedCallback (connectedCallback pg)))
     = []
  /\ animationFrame (renderer (disconnectedCallback (connectedCallback pg)))
     = None
  /\ listeners (connectedCallback (connectedCallback pg))
     = listeners (connectedCallback pg).
Proof.
  intros Hone.
  assert (Hlist : listeners (disconnectedCallback (connectedCallback pg))
                  = List.filter
                      (fun l => negb (bool_decide (l ∈ ownListeners)))
                      (listeners pg)).
  { cbn [disconnectedCallback connectedCallback listeners].
    unfold _removeEventListeners, _addEventListeners.
    rewrite removed_are_own, fold_remove.
    destruct (fold_add ownListeners (listeners pg))
      as (extra & -> & Hall & _).
    rewrite List.filter_app, (filter_all_out _ _ Hall), app_nil_r.
    reflexivity. }
  split; [exact Hlist|].
  split.
  { intros l Hown Hin. rewrite Hlist in Hin.
    apply list_elem_of_In, filter_In in Hin as [_ Hout].
    rewrite bool_decide_eq_true_2 in Hout by exact Hown. discriminate. }
  assert (Hr : oneFrame (pauseRendering (unpauseRendering (renderer pg)))).
  { apply (renderStep_oneFrame Pause), (renderStep_oneFrame Unpause), Hone. }
  assert (Hnone : animationFrame
                    (pauseRendering (unpauseRendering (renderer pg))) = None).
  { unfold pauseRendering, unpauseRendering.
    destruct (animationFrame (renderer pg)) eqn:E; simpl;
      [rewrite E|]; reflexivity. }
  split.
  { cbn [disconnectedCallback connectedCallback renderer].
    unfold oneFrame in Hr. rewrite Hr, Hnone. reflexivity. }
  split; [exact Hnone|].
  cbn [connectedCallback listeners]. unfold _addEventListeners.
  destruct (fold_add ownListeners (listeners pg)) as (extra & -> & _ & Hcover).
  apply fold_add_present, Hcover.
Qed.

Lemma connect_disconnect_leaves_nothing_witness :
  listeners
    (disconnectedCallback
       (connectedCallback
          {| listeners :=
               [ {| target := OnDocument; type := js "keydown";
                    callback := Foreign 7; capture := false |} ];
             renderer := idle |}))
  = [ {| target := OnDocument; type := js "keydown";
         callback := Foreign 7; capture := false |} ].
Proof.
  rewrite (proj1 (connect_disconnect_leaves_nothing
                    {| listeners :=
                         [ {| target := OnDocument; type := js "keydown";
                              callback := Foreign 7; capture := false |} ];
                       renderer := idle |} eq_refl)).
  vm_compute. reflexivity.
Defined.

End LifecycleFacts.

(** ** Credential store: passwords read back, and local storage *)

Section CredentialRoundTrips.
Import Credentials CredentialsSpec CredentialsRun.

Lemma getPassword_current (s : jsstring) (a : option jsstring) (p : Provider) :
  (getPassword s a p).2 = lookupPassword s a (current p)
  /\ current (getPassword s a p).1 = current p
  /\ stored (getPassword s a p).1 = stored p.
Proof.
  unfold getPassword, current, credentials.
  destruct (_credentials p) eqn:E; cbn [fst snd _credentials stored];
    rewrite ?E; repeat split.
Qed.

Lemma lookup_skips_others (s a : jsstring) (l l' : list ICredential) :
  (forall c, In c l -> matches s a c = false) ->
  lookupPassword s (Some a) (l ++ l') = lookupPassword s (Some a) l'.
Proof.
  induction l as [|c l IH]; intros Hno; [reflexivity|].
  cbn [app lookupPassword].
  assert (Hc : matches s a c = false) by (apply Hno; left; reflexivity).
  unfold matches in Hc.
  replace (bool_decide (a = account c)) with (bool_decide (account c = a))
    by (apply bool_decide_ext; split; congruence).
  rewrite Hc. apply IH. intros c' Hin. apply Hno. right. exact Hin.
Qed.

Lemma others_no_match (s a : jsstring) (creds : list ICredential) :
  forall c, In c (others s a creds) -> matches s a c = false.
Proof.
  intros c Hin. apply others_In in Hin as [_ Hno].
  destruct (matches s a c) eqn:E; [|reflexivity].
  apply matches_iff in E. contradiction.
Qed.

(** The password that [setPassword] stored is the one [getPassword]
    answers for that service and account, whatever was stored before;
    after [deletePassword] the answer is null. *)
Theorem password_round_trip (s a pw : jsstring) (p : Provider) :
  (getPassword s (Some a) (setPassword s a pw p)).2 = Some pw
  /\ (getPassword s (Some a) (deletePassword s a p).1).2 = None.
Proof.
  split.
  - rewrite (proj1 (getPassword_current _ _ _)), setPassword_current.
    rewrite lookup_skips_others by apply others_no_match.
    cbn [lookupPassword]. rewrite !bool_decide_eq_true_2 by reflexivity.
    reflexivity.
  - rewrite (proj1 (getPassword_current _ _ _)), deletePassword_current.
    rewrite <- (app_nil_r (others s a (current p))).
    rewrite lookup_skips_others by apply others_no_match. reflexivity.
Qed.

Lemma lookup_others_other (s a s' a' : jsstring) (creds tail : list ICredential) :
  (s', a') <> (s, a) ->
  lookupPassword s (Some a) (others s' a' creds ++ tail)
  = match lookupPassword s (Some a) creds with
    | Some pw => Some pw
    | None => lookupPassword s (Some a) tail
    end.
Proof.
  intros Hne. induction creds as [|c creds IH]; [reflexivity|].
  unfold others in *. cbn [List.filter lookupPassword].
  destruct (bool_decide (service c = s) && bool_decide (a = account c)) eqn:Ehit.
  - apply andb_true_iff in Ehit as [Hs Ha].
    apply bool_decide_eq_true in Hs, Ha.
    assert (Hkeep : matches s' a' c = false).
    { destruct (matches s' a' c) eqn:E; [|reflexivity].
      apply matches_iff in E as [Hs' Ha']. exfalso. apply Hne. congruence. }
    rewrite Hkeep. cbn [negb app lookupPassword].
    rewrite (bool_decide_eq_true_2 (service c = s)) by exact Hs.
    rewrite (bool_decide_eq_true_2 (a = account c)) by exact Ha.
    reflexivity.
  - destruct (negb (matches s' a' c)); [|exact IH].
    cbn [app lookupPassword]. rewrite Ehit. exact IH.
Qed.

(** Storing or deleting the password of one (service, account) pair
    leaves the answer of [getPassword] for every other pair as it was. *)
Theorem other_accounts_untouched (s a s' a' pw : jsstring) (p : Provider) :
  (s', a') <> (s, a) ->
  (getPassword s (Some a) (setPassword s' a' pw p)).2
    = (getPassword s (Some a) p).2
  /\ (getPassword s (Some a) (deletePassword s' a' p).1).2
     = (getPassword s (Some a) p).2.
Proof.
  intros Hne.
  rewrite !(proj1 (getPassword_current _ _ _)).
  rewrite setPassword_current, deletePassword_current.
  split.
  - rewrite (lookup_others_other s a s' a' _ _ Hne).
    destruct (lookupPassword s (Some a) (current p)); [reflexivity|].
    cbn [lookupPassword service account password].
    destruct (bool_decide (s' = s) && bool_decide (a = a')) eqn:E;
      [|reflexivity].
    apply andb_true_iff in E as [Hs Ha].
    apply bool_decide_eq_true in Hs, Ha. exfalso. apply Hne. congruence.
  - rewrite <- (app_nil_r (others s' a' (current p))).
    rewrite (lookup_others_other s a s' a' _ _ Hne).
    destruct (lookupPassword s (Some a) (current p)); reflexivity.
Qed.

Lemma other_accounts_untouched_witness :
  (getPassword (js "gitlab") (Some (js "ada"))
     (setPassword (js "github") (js "ada") (js "new")
        (fresh (Some [ {| service := js "gitlab"; account := js "ada";
                          password := js "pw" |} ])))).2
  = Some (js "pw").
Proof.
  assert (Hne : (js "github", js "ada") <> (js "gitlab", js "ada"))
    by (vm_compute; discriminate).
  rewrite (proj1 (other_accounts_untouched (js "gitlab") (js "ada")
                    (js "github") (js "ada") (js "new") _ Hne)).
  vm_compute. reflexivity.
Defined.

Lemma others_nothing_found (s a : jsstring) (creds : list ICredential) :
  existsb (matches s a) creds = false -> others s a creds = creds.
Proof.
  unfold others. induction creds as [|c creds IH]; [reflexivity|].
  cbn [existsb List.filter]. intros H.
  apply orb_false_iff in H as [Hc Hrest].
  rewrite Hc. cbn [negb]. rewrite IH by exact Hrest. reflexivity.
Qed.

Lemma apply_keeps_reload (op : Op) (p : Provider) :
  current (reload p) = current p ->
  current (reload (apply op p)) = current (apply op p).
Proof.
  unfold reload, fresh. intros Hsync.
  destruct op as [s a|s a pw|s a]; cbn [apply].
  - destruct (getPassword_current s a p) as (_ & Hcur & Hst).
    rewrite Hcur, Hst. exact Hsync.
  - rewrite setPassword_stored. reflexivity.
  - rewrite deletePassword_current.
    unfold current, credentials in Hsync |- *. cbn [_credentials stored] in *.
    unfold deletePassword, save, credentials.
    destruct (_credentials p) as [creds|] eqn:E; cbn [fst snd] in *.
    + destruct (existsb (matches s a) creds) eqn:Efound;
        cbn [_credentials stored fst snd default]; [reflexivity|].
      rewrite Hsync. symmetry. apply others_nothing_found, Efound.
    + destruct (existsb (matches s a) (default [] (stored p))) eqn:Efound;
        cbn [_credentials stored fst snd default]; [reflexivity|].
      symmetry. apply others_nothing_found, Efound.
Qed.

(** Whatever calls are made on a provider, local storage follows: a
    provider created by a reload of the page works on the same
    credentials, so no stored password is lost and no deleted one comes
    back. *)
Theorem storage_follows_credentials (ops : list Op)
    (item : option (list ICredential)) :
  current (reload (applyAll ops (fresh item)))
  = current (applyAll ops (fresh item)).
Proof.
  unfold applyAll.
  assert (Hgen : forall p, current (reload p) = current p ->
            current (reload (fold_left (fun p op => apply op p) ops p))
            = current (fold_left (fun p op => apply op p) ops p)).
  { induction ops as [|op ops IH]; intros p Hp; [exact Hp|].
    simpl. apply IH, apply_keeps_reload, Hp. }
  apply Hgen. reflexivity.
Qed.

End CredentialRoundTrips.

Lemma ordinary_request_end_to_end_witness :
  Server.requestListener Sample.url_parse Sample.fileUriFsPath Sample.dirname
    Sample.stat (Sample.request (js "/static/out/vs/loader.js") [])
  = [Server.WriteHead 200
       [(js "Content-Type", js "text/javascript");
        (js "Etag", Server.etagOf Sample.loaderStats)];
     Server.PipeFile (js "/srv/fxcode/out/vs/loader.js")].
Proof.
  rewrite (proj2 (ordinary_request_end_to_end Sample.url_parse
                    Sample.fileUriFsPath Sample.dirname Sample.stat
                    (Sample.request (js "/static/out/vs/loader.js") [])
                    {| Server.pathname := Some (js "/static/out/vs/loader.js");
                       Server.query := ∅ |}
                    (js "/static/out/vs/loader.js")
                    (js "/srv/fxcode/out/vs/loader.js")
                    eq_refl eq_refl eq_refl eq_refl
                    ltac:(vm_compute; discriminate)
                    ltac:(vm_compute; discriminate)
                    ltac:(vm_compute; discriminate)
                    ltac:(vm_compute; discriminate)
                    ltac:(vm_compute; reflexivity))
            Sample.loaderStats).
  - vm_compute. reflexivity.
  - vm_compute. reflexivity.
  - vm_compute. discriminate.
Defined.

(** ** Game view: what no event does *)

Section SafetyFacts.
Import GameView GameViewSpec GameViewElement GameViewElementSpec.

Lemma resetStates_only_releases (g : GameView) (e : Effect) :
  In e (_resetStates g).2 ->
  e = SetInputChar (CharString NUL)
  \/ (exists k, e = SetKeyState k false)
  \/ (exists b, e = SetMouseButtonState (Z.of_nat b) false).
Proof.
  rewrite resetStates_spec. cbn [snd]. rewrite !in_app_iff.
  intros [H|[H|H]].
  - destruct H as [<-|[]]. left. reflexivity.
  - apply in_map_iff in H as (k & <- & _). right. left. eauto.
  - apply in_map_iff in H as (b & <- & _). right. right. eauto.
Qed.

Lemma in_handled (e : Effect) (effects : list Effect) :
  In (Handled e) (Handled <$> effects) -> In e effects.
Proof.
  intros H. apply in_map_iff in H as (e' & Heq & Hin).
  injection Heq as ->. exact Hin.
Qed.

(** Whatever event arrives while input capture is off, the game is
    told of no key press. *)
Theorem no_key_press_without_capture (ev : Event) (g : GameView) (k : nat) :
  _acceptInput g = false ->
  ~ In (Handled (SetKeyState k true)) (dispatch ev g).2.
Proof.
  intros Hoff Hin.
  destruct ev; cbn [dispatch handled snd fst] in Hin.
  - apply in_handled in Hin. unfold _handleKeydown in Hin.
    rewrite Hoff in Hin. exact Hin.
  - apply in_handled in Hin. unfold _handleKeyup in Hin.
    rewrite Hoff in Hin. exact Hin.
  - apply in_handled in Hin. unfold _handleMousedown in Hin.
    destruct (isObservingMode g && isLMB e), (negb (isLMB e));
      match type of Hin with
      | context [isControlingMode ?g1] => destruct (isControlingMode g1)
      end;
      try match type of Hin with
      | context [negb (_pointerLocked ?g1) && ?b] =>
          destruct (negb (_pointerLocked g1) && b)
      end;
      simpl in Hin; intuition discriminate.
  - apply in_handled in Hin. unfold _handleMouseup in Hin.
    destruct (isObservingMode g && isLMB e).
    + pose proof (resetStates_only_releases (withAcceptInput g false)) as Hrel.
      destruct (_resetStates (withAcceptInput g false)) as [g1 log1].
      cbn [snd] in Hrel.
      destruct (isControlingMode g1); cbn [snd] in Hin;
        rewrite !in_app_iff in Hin;
        destruct Hin as [Hin|Hin]; try (simpl in Hin; intuition discriminate);
        try (destruct Hin as [Hin|Hin];
             [|simpl in Hin; intuition discriminate]);
        apply Hrel in Hin as [Hin|[[k' Hin]|[b Hin]]]; discriminate.
    + destruct (isControlingMode g); simpl in Hin; intuition discriminate.
  - unfold _handleMousewheel in Hin. rewrite Hoff in Hin.
    simpl in Hin. intuition discriminate.
  - simpl in Hin. intuition discriminate.
  - unfold _handleDocumentMouseMove in Hin.
    destruct (_pointerLocked g && negb onElement); simpl in Hin;
      intuition discriminate.
  - apply in_handled in Hin.
    apply resetStates_only_releases in Hin as [Hin|[[k' Hin]|[b Hin]]];
      discriminate.
  - apply in_handled in Hin. unfold _handlePointerLockChange in Hin.
    match type of Hin with
    | context [_resetStates ?g1] =>
        pose proof (resetStates_only_releases g1) as Hrel;
        destruct (_resetStates g1) as [g2 log2]
    end.
    cbn [snd] in Hrel.
    destruct (negb locked && _pointerLocked g),
             (negb (eqb locked (_pointerLocked g)));
      cbn [snd] in Hin; rewrite ?in_app_iff in Hin;
      try (simpl in Hin; intuition discriminate);
      destruct Hin as [Hin|Hin]; try (simpl in Hin; intuition discriminate);
      apply Hrel in Hin as [Hin|[[k' Hin]|[b Hin]]]; discriminate.
  - unfold _handleFullscreenChange in Hin.
    destruct active; simpl in Hin; intuition discriminate.
  - simpl in Hin. intuition discriminate.
  - simpl in Hin. intuition discriminate.
  - unfold lockPointer in Hin.
    destruct (negb (isControlingMode g)); simpl in Hin; intuition discriminate.
  - unfold enterFullscreen in Hin.
    destruct (negb (isControlingMode g)); simpl in Hin; intuition discriminate.
Qed.

Lemma no_key_press_without_capture_witness :
  ~ In (Handled (SetKeyState 87 true))
       (dispatch
          (Keydown {| key := js "w"; shiftKey := false; which := 87;
                      location := 0 |})
          initial).2.
Proof.
  apply no_key_press_without_capture. reflexivity.
Defined.

(** The element asks for the pointer lock or for the full screen only
    when the event leaves it in controlling mode. *)
Theorem grabs_only_in_controlling_mode (ev : Event) (g : GameView) :
  In (Handled RequestPointerLock) (dispatch ev g).2
  \/ In RequestFullscreen (dispatch ev g).2 ->
  isControlingMode (dispatch ev g).1 = true.
Proof.
  intros Hgrab.
  assert (Hin : exists c, (c = Handled RequestPointerLock
                           \/ c = RequestFullscreen)
                          /\ In c (dispatch ev g).2)
    by (destruct Hgrab; eauto).
  clear Hgrab. destruct Hin as (c & Hc & Hin).
  assert (Hnot : forall effects g',
            (forall e, In e effects -> e <> RequestPointerLock) ->
            In c (Handled <$> effects) -> isControlingMode g' = true).
  { intros effects g' Hno H. apply in_map_iff in H as (e & <- & He).
    destruct Hc as [Hc|Hc]; [|discriminate].
    injection Hc as ->. exfalso. exact (Hno _ He eq_refl). }
  destruct ev; cbn [dispatch handled snd fst] in *.
  - eapply Hnot; [|exact Hin]. intros e0. unfold _handleKeydown.
    destruct (negb (_acceptInput g)); [intros []|].
    destruct (bool_decide _ && shiftKey e);
      [destruct (_fullscreenActive g), (_pointerLocked g)|
       destruct (truthyAt _ _);
       [|destruct (length (key e) =? 1)%nat;
         [|destruct (2 <? length (key e))%nat]]];
      simpl; intuition (subst; discriminate).
  - eapply Hnot; [|exact Hin]. intros e0. unfold _handleKeyup.
    destruct (negb (_acceptInput g)); simpl; intuition (subst; discriminate).
  - apply in_map_iff in Hin as (e0 & <- & He).
    destruct Hc as [Hc|Hc]; [injection Hc as ->|discriminate].
    unfold _handleMousedown in *.
    destruct (isObservingMode g && isLMB e) eqn:Eobs.
    + apply andb_true_iff in Eobs as [Eobs _].
      assert (Hctl : isControlingMode (withAcceptInput g true) = false).
      { unfold isObservingMode, isControlingMode in *. cbn [_mode withAcceptInput].
        apply N.eqb_eq in Eobs. rewrite Eobs. reflexivity. }
      rewrite Hctl in He |- *. cbn [snd] in He.
      destruct (negb (isLMB e)); simpl in He; intuition discriminate.
    + destruct (isControlingMode g) eqn:Ectl.
      * destruct (negb (_pointerLocked g) && isLMB e); cbn [fst];
          exact Ectl.
      * cbn [snd] in He.
        destruct (negb (isLMB e)); simpl in He; intuition discriminate.
  - eapply Hnot; [|exact Hin]. intros e0 He. unfold _handleMouseup in He.
    destruct (isObservingMode g && isLMB e).
    + pose proof (resetStates_only_releases (withAcceptInput g false)) as Hrel.
      destruct (_resetStates (withAcceptInput g false)) as [g1 log1].
      cbn [snd] in Hrel.
      destruct (isControlingMode g1); cbn [snd] in He;
        rewrite !in_app_iff in He;
        destruct He as [He|He]; try (simpl in He; intuition (subst; discriminate));
        try (destruct He as [He|He];
             [|simpl in He; intuition (subst; discriminate)]);
        apply Hrel in He as [He|[[k' He]|[b He]]]; subst; discriminate.
    + destruct (isControlingMode g); simpl in He;
        intuition (subst; discriminate).
  - unfold _handleMousewheel in Hin.
    destruct (_acceptInput g); simpl in Hin;
      destruct Hc; subst; intuition discriminate.
  - simpl in Hin. destruct Hc; subst; intuition discriminate.
  - unfold _handleDocumentMouseMove in Hin.
    destruct (_pointerLocked g && negb onElement); simpl in Hin;
      destruct Hc; subst; intuition discriminate.
  - eapply Hnot; [|exact Hin]. intros e0 He.
    apply resetStates_only_releases in He as [He|[[k' He]|[b He]]];
      subst; discriminate.
  - eapply Hnot; [|exact Hin]. intros e0 He.
    unfold _handlePointerLockChange in He.
    match type of He with
    | context [_resetStates ?g1] =>
        pose proof (resetStates_only_releases g1) as Hrel;
        destruct (_resetStates g1) as [g2 log2]
    end.
    cbn [snd] in Hrel.
    destruct (negb locked && _pointerLocked g),
             (negb (eqb locked (_pointerLocked g)));
      cbn [snd] in He; rewrite ?in_app_iff in He;
      try (simpl in He; intuition (subst; discriminate));
      destruct He as [He|He];
      try (simpl in He; intuition (subst; discriminate));
      apply Hrel in He as [He|[[k' He]|[b He]]]; subst; discriminate.
  - unfold _handleFullscreenChange in Hin.
    destruct active; simpl in Hin; destruct Hc; subst; intuition discriminate.
  - simpl in Hin. destruct Hc; subst; intuition discriminate.
  - reflexivity.
  - unfold lockPointer in Hin.
    destruct (isControlingMode g) eqn:Ectl; [reflexivity|].
    simpl in Hin. destruct Hc; subst; intuition discriminate.
  - unfold enterFullscreen in Hin.
    destruct (isControlingMode g) eqn:Ectl; [reflexivity|].
    simpl in Hin. destruct Hc; subst; intuition discriminate.
Qed.

Lemma grabs_only_in_controlling_mode_witness :
  isControlingMode
    (dispatch EnterFullscreenControlingMode
       (GameViewElement.withMode initial ModeObserving)).1 = true.
Proof.
  apply grabs_only_in_controlling_mode. right. simpl. auto.
Defined.

End SafetyFacts.

(** ** Server: the workbench page and the negotiated extension *)

Section RouteFacts.
Import Server ServerSpec AnswerSpec.

Lemma joinArgs_glue (j : jsstring) (args : list jsstring) :
  Forall (fun a => a <> []) args ->
  Path.joinArgs (Some j) args
  = Some (j ++ flat_map (fun a => Path.SLASH :: a) args).
Proof.
  intros Hall. revert j.
  induction Hall as [|a args Ha _ IH]; intros j; cbn [Path.joinArgs flat_map].
  - rewrite app_nil_r. reflexivity.
  - destruct a as [|c a]; [congruence|].
    rewrite IH, <- app_assoc. reflexivity.
Qed.

Lemma literal_plain (seg : jsstring) :
  bool_decide (seg = []) = false ->
  bool_decide (seg = Path.dot) = false ->
  bool_decide (seg = Path.dotdot) = false ->
  forallb (fun c => negb (c =? Path.SLASH)) seg = true ->
  plain seg.
Proof.
  intros H1 H2 H3 H4.
  apply bool_decide_eq_false in H1, H2, H3.
  repeat split; try assumption.
  unfold noSlash. apply Forall_forall. intros c Hc.
  apply list_elem_of_In in Hc.
  rewrite forallb_forall in H4. specialize (H4 c Hc).
  destruct (N.eqb_spec c Path.SLASH); [discriminate | assumption].
Qed.

Variable url_parse : jsstring -> Exc UrlWithParsedQuery.
Variable fileUriFsPath : jsstring -> Exc jsstring.
Variable dirname : jsstring.
Variable stat : jsstring -> option Stats.

(** With an absolute [__dirname], the pathname "/" is answered from the
    development page of the workbench, which lies below the application
    root under out/vs/fxdk/browser/workbench. *)
Theorem root_serves_workbench_page (req : IncomingMessage)
    (parsed : UrlWithParsedQuery) :
  Path.isAbsolute dirname = true ->
  JS.truthyOpt (url req) = true ->
  url_parse (JS.toString (url req)) = Ok parsed ->
  pathname parsed = Some (js "/") ->
  requestListener url_parse fileUriFsPath dirname stat req
  = serveFile stat req (WEB_MAIN_DEV dirname) []
  /\ pathSegments (WEB_MAIN_DEV dirname)
     = pathSegments (APP_ROOT dirname)
         ++ [js "out"; js "vs"; js "fxdk"; js "browser"; js "workbench";
             js "workbench-dev.html"]
  /\ withinRoot (APP_ROOT dirname) (WEB_MAIN_DEV dirname) = true.
Proof.
  intros Hdir Hurl Hparse Hpath.
  split.
  { unfold requestListener, handleRequest.
    rewrite Hurl, Hparse. cbn [negb bindExc]. rewrite Hpath.
    decide_literals. reflexivity. }
  pose proof (APP_ROOT_absolute dirname Hdir) as Hroot.
  unfold WEB_MAIN_DEV.
  destruct (APP_ROOT dirname) as [|r root] eqn:Eroot; [discriminate|].
  unfold Path.join.
  match goal with
  | |- context [Path.joinArgs None ((r :: root) :: ?args)] =>
      change (Path.joinArgs None ((r :: root) :: args))
        with (Path.joinArgs (Some (r :: root)) args)
  end.
  rewrite joinArgs_glue
    by (repeat constructor; vm_compute; discriminate).
  set (tail := js "out/vs/fxdk/browser/workbench/workbench-dev.html").
  assert (Htail : flat_map (fun a => Path.SLASH :: a)
                    [js "out"; js "vs"; js "fxdk"; js "browser";
                     js "workbench"; js "workbench-dev.html"]
                  = Path.SLASH :: tail) by (vm_compute; reflexivity).
  rewrite Htail.
  assert (Hx : Path.isAbsolute ((r :: root) ++ Path.SLASH :: tail) = true)
    by exact Hroot.
  assert (Hsegs : pathSegments (Path.normalize ((r :: root) ++ Path.SLASH :: tail))
                  = pathSegments (r :: root)
                      ++ [js "out"; js "vs"; js "fxdk"; js "browser";
                          js "workbench"; js "workbench-dev.html"]).
  { rewrite (pathSegments_normalize _ Hx).
    unfold pathSegments at 1. unfold Path.normSegments.
    rewrite split_app, fold_left_app.
    assert (Hsplit : JS.split Path.SLASH tail
                     = [js "out"; js "vs"; js "fxdk"; js "browser";
                        js "workbench"; js "workbench-dev.html"])
      by (vm_compute; reflexivity).
    rewrite Hsplit.
    assert (Hplain : Forall plain
                       [js "out"; js "vs"; js "fxdk"; js "browser";
                        js "workbench"; js "workbench-dev.html"])
      by (repeat (apply Forall_cons_2;
                    [apply literal_plain; vm_compute; reflexivity|]);
          apply Forall_nil_2).
    rewrite fold_normStep_tame
      by (eapply Forall_impl; [exact Hplain|]; intros s Hs; right; exact Hs).
    rewrite (dropEmpty_plain _ Hplain).
    rewrite rev_app_distr, rev_involutive. reflexivity. }
  split; [exact Hsegs|].
  unfold withinRoot. rewrite Hsegs, isPrefix_app.
  rewrite (proj1 (split_normalize _ Hx)). reflexivity.
Qed.

(** An accepted upgrade announces permessage-deflate to the client
    exactly when it tells the runtime to use it, and that is exactly
    when the client's Sec-WebSocket-Extensions header mentions it; the
    handshake has the four fixed lines and at most this fifth one. *)
Theorem deflate_is_negotiated (req : IncomingMessage)
    (effects : list SocketEffect) :
  upgradeListener url_parse req = Ok effects ->
  ~ rejected (Ok effects) ->
  exists (q : gmap jsstring QueryValue) (deflate : bool),
    effects
    = [SocketOnError;
       SocketWrite
         (JS.join CRLF
            (firstn 4 (handshakeHeaders req)
               ++ (if deflate
                   then [js "Sec-WebSocket-Extensions: permessage-deflate; server_max_window_bits=15"]
                   else []))
            ++ CRLF ++ CRLF);
       HandleWebSocket q deflate]
    /\ deflate
       = JS.includes (js "permessage-deflate")
           (JS.toString (headers req !! js "sec-websocket-extensions"))
    /\ (headers req !! js "sec-websocket-extensions" = None ->
        deflate = false).
Proof.
  unfold rejected, upgradeListener.
  intros Hrun Hnot.
  destruct (negb (bool_decide _) || negb (JS.truthyOpt (url req)));
    [congruence|].
  destruct (url_parse _) as [parsed|e]; cbn [bindExc] in Hrun; [|discriminate].
  destruct (negb (JS.truthyOpt (tokenOf (query parsed)))); [congruence|].
  injection Hrun as <-.
  exists (query parsed), (permessageDeflateOf req).
  unfold permessageDeflateOf, handshakeHeaders.
  split; [|split; [reflexivity|]].
  - destruct (JS.includes _ _); reflexivity.
  - intros ->. vm_compute. reflexivity.
Qed.

End RouteFacts.

Lemma root_serves_workbench_page_witness :
  Server.requestListener
    (fun _ => Ok {| Server.pathname := Some (js "/"); Server.query := ∅ |})
    Sample.fileUriFsPath Sample.dirname Sample.stat (Sample.request (js "/") [])
  = Server.serveFile Sample.stat (Sample.request (js "/") [])
      (js "/srv/fxcode/out/vs/fxdk/browser/workbench/workbench-dev.html") [].
Proof.
  rewrite (proj1 (root_serves_workbench_page
                    (fun _ => Ok {| Server.pathname := Some (js "/");
                                    Server.query := ∅ |})
                    Sample.fileUriFsPath Sample.dirname Sample.stat
                    (Sample.request (js "/") [])
                    {| Server.pathname := Some (js "/"); Server.query := ∅ |}
                    eq_refl eq_refl eq_refl eq_refl)).
  vm_compute. reflexivity.
Defined.

Lemma deflate_is_negotiated_witness :
  exists q deflate data,
    Server.upgradeListener Sample.url_parse
      (Sample.request Sample.tokenTarget
         [(js "upgrade", js "websocket");
          (js "sec-websocket-key", js "dGhlIHNhbXBsZSBub25jZQ==");
          (js "sec-websocket-extensions",
           js "permessage-deflate; client_max_window_bits")])
    = Ok [Server.SocketOnError; Server.SocketWrite data;
          Server.HandleWebSocket q deflate]
    /\ deflate = true.
Proof.
  destruct (Server.upgradeListener Sample.url_parse
              (Sample.request Sample.tokenTarget
                 [(js "upgrade", js "websocket");
                  (js "sec-websocket-key", js "dGhlIHNhbXBsZSBub25jZQ==");
                  (js "sec-websocket-extensions",
                   js "permessage-deflate; client_max_window_bits")]))
    as [effects|e] eqn:Hrun; [|vm_compute in Hrun; discriminate].
  destruct (deflate_is_negotiated Sample.url_parse _ effects Hrun)
    as (q & deflate & -> & Hdeflate & _).
  - unfold ServerSpec.rejected. vm_compute in Hrun. congruence.
  - exists q, deflate. eexists. split; [reflexivity|].
    rewrite Hdeflate. vm_compute. reflexivity.
Defined.

(** ** Settings search: the cache and the merged result *)

Section SearchFacts.
Import SearchResultModel.

Context {ISetting ISettingMatch Metadata : Type}.
Variable key : ISetting -> jsstring.
Variable setting : ISettingMatch -> ISetting.

Abbreviation State := (State ISettingMatch Metadata).
Abbreviation Call := (Call ISettingMatch Metadata).
Abbreviation ISearchResult := (ISearchResult ISettingMatch Metadata).

Lemma snd_resultsAsGroup (st : State) :
  snd (resultsAsGroup key setting st) = snd (getUniqueResults key setting st).
Proof.
  unfold resultsAsGroup.
  destruct (getUniqueResults key setting st) as [unique st']. reflexivity.
Qed.

Lemma fst_resultsAsGroup (st : State) :
  settings (fst (resultsAsGroup key setting st))
  = flat_map (fun r => map setting (filterMatches r))
      (omap (fun r => r) (fst (getUniqueResults key setting st))).
Proof.
  unfold resultsAsGroup.
  destruct (getUniqueResults key setting st) as [unique st']. reflexivity.
Qed.

Lemma getUniqueResults_coherent (st : State) :
  (forall u, cachedUniqueSearchResults st = Some u ->
     exists raw, rawSearchResults st = Some raw /\ u = uniqueOf key setting raw) ->
  forall u, cachedUniqueSearchResults (snd (getUniqueResults key setting st)) = Some u ->
    exists raw,
      rawSearchResults (snd (getUniqueResults key setting st)) = Some raw
      /\ u = uniqueOf key setting raw.
Proof.
  intros Hst u. unfold getUniqueResults.
  destruct (cachedUniqueSearchResults st) as [cached|] eqn:Ecache.
  - cbn [snd]. rewrite Ecache. intros Hu. apply Hst. exact Hu.
  - destruct (rawSearchResults st) as [raw|] eqn:Eraw; cbn [snd].
    + cbn [cachedUniqueSearchResults rawSearchResults].
      intros [= <-]. exists raw. split; reflexivity.
    + rewrite Ecache. discriminate.
Qed.

Lemma call_coherent (st : State) (c : Call) :
  (forall u, cachedUniqueSearchResults st = Some u ->
     exists raw, rawSearchResults st = Some raw /\ u = uniqueOf key setting raw) ->
  forall u, cachedUniqueSearchResults (call key setting st c) = Some u ->
    exists raw,
      rawSearchResults (call key setting st c) = Some raw
      /\ u = uniqueOf key setting raw.
Proof.
  intros Hst. destruct c as [type result| | |]; cbn [call].
  - intros u. cbn [setResult cachedUniqueSearchResults]. discriminate.
  - apply getUniqueResults_coherent. exact Hst.
  - exact Hst.
  - rewrite snd_resultsAsGroup. apply getUniqueResults_coherent. exact Hst.
Qed.

Lemma run_coherent (calls : list Call) :
  forall u, cachedUniqueSearchResults (run key setting calls) = Some u ->
    exists raw,
      rawSearchResults (run key setting calls) = Some raw
      /\ u = uniqueOf key setting raw.
Proof.
  unfold run.
  assert (Hgen : forall st : State,
            (forall u, cachedUniqueSearchResults st = Some u ->
               exists raw, rawSearchResults st = Some raw
                           /\ u = uniqueOf key setting raw) ->
            forall u,
              cachedUniqueSearchResults (fold_left (call key setting) calls st)
              = Some u ->
              exists raw,
                rawSearchResults (fold_left (call key setting) calls st) = Some raw
                /\ u = uniqueOf key setting raw).
  { induction calls as [|c calls IH]; intros st Hst; cbn [fold_left].
    - exact Hst.
    - apply IH. apply call_coherent. exact Hst. }
  apply Hgen. intros u. cbn. discriminate.
Qed.

Lemma getUniqueResults_run (calls : list Call) :
  fst (getUniqueResults key setting (run key setting calls))
  = match rawSearchResults (run key setting calls) with
    | Some raw => uniqueOf key setting raw
    | None => []
    end.
Proof.
  pose proof (run_coherent calls) as Hco.
  unfold getUniqueResults.
  destruct (cachedUniqueSearchResults (run key setting calls)) as [cached|].
  - destruct (Hco cached eq_refl) as (raw & -> & ->). reflexivity.
  - destruct (rawSearchResults (run key setting calls)); reflexivity.
Qed.

Lemma at_setAt_same {A : Type} (arr : list (option A)) (i : nat) (v : option A) :
  at_ (setAt arr i v) i = v.
Proof.
  revert arr. induction i as [|i IH]; intros [|x arr]; cbn; try reflexivity.
  - apply (IH []).
  - apply IH.
Qed.

Lemma at_nil {A : Type} (j : nat) : at_ (@nil (option A)) j = None.
Proof. destruct j; reflexivity. Qed.

Lemma at_setAt_other {A : Type} (arr : list (option A)) (i j : nat)
    (v : option A) :
  i <> j -> at_ (setAt arr i v) j = at_ arr j.
Proof.
  revert arr j. induction i as [|i IH]; intros arr j Hij.
  - destruct j as [|j]; [congruence|].
    destruct arr as [|x arr]; cbn [setAt].
    + rewrite at_nil. destruct j; reflexivity.
    + reflexivity.
  - destruct j as [|j].
    + destruct arr; reflexivity.
    + assert (Hij' : i <> j) by congruence.
      destruct arr as [|x arr]; cbn [setAt].
      * change (at_ (None :: setAt [] i v) (S j)) with (at_ (setAt [] i v) j).
        rewrite (IH [] j Hij'), !at_nil. reflexivity.
      * change (at_ (x :: setAt arr i v) (S j)) with (at_ (setAt arr i v) j).
        rewrite (IH arr j Hij'). reflexivity.
Qed.

(** SearchResultModel.getUniqueResults, setResult: whatever calls were
    made on a fresh model, [getUniqueResults] returns what its body
    computes from the raw results of that moment (and the empty array
    when none was ever set): the cache never serves an older state. *)
Theorem unique_results_never_stale (calls : list Call) :
  fst (getUniqueResults key setting (run key setting calls))
  = match getRawResults (run key setting calls) with
    | Some raw => uniqueOf key setting raw
    | None => []
    end.
Proof.
  unfold getRawResults.
  pose proof (run_coherent calls) as Hcoherent.
  unfold getUniqueResults.
  destruct (cachedUniqueSearchResults (run key setting calls)) as [cached|].
  - destruct (Hcoherent cached eq_refl) as (raw & -> & ->). reflexivity.
  - destruct (rawSearchResults (run key setting calls)); reflexivity.
Qed.

(** SearchResultModel.setResult: a result that is set is the one of its
    kind found afterwards, the result of the other kind stays, and the
    local result is handed out as it was set. *)
Theorem set_result_replaces_its_kind (calls : list Call)
    (type other : SearchResultIdx) (result : option ISearchResult) :
  type <> other ->
  exists raw,
    getRawResults (setResult type result (run key setting calls)) = Some raw
    /\ at_ raw (idx type) = result
    /\ at_ raw (idx other)
       = at_ (default [] (getRawResults (run key setting calls))) (idx other)
    /\ at_ (fst (getUniqueResults key setting
                   (setResult Local result (run key setting calls))))
           (idx Local)
       = result.
Proof.
  intros Hne. eexists. split; [reflexivity|].
  split; [apply at_setAt_same|].
  split.
  - apply at_setAt_other. destruct type, other; cbn; congruence.
  - unfold getUniqueResults, setResult.
    cbn [cachedUniqueSearchResults rawSearchResults fst].
    unfold uniqueOf. cbn [at_ lookup]. 
    change (at_ (setAt (default [] (rawSearchResults (run key setting calls)))
                   (idx Local) result) (idx Local) = result).
    apply at_setAt_same.
Qed.

Lemma filter_keeps_all (r : list ISettingMatch) :
  List.filter
    (fun m => negb (bool_decide (key (setting m) ∈ (∅ : gset jsstring)))) r
  = r.
Proof.
  induction r as [|m r IH]; cbn [List.filter]; [reflexivity|].
  rewrite bool_decide_eq_false_2 by set_solver.
  cbn [negb]. rewrite IH. reflexivity.
Qed.

(** SearchResultModel.getUniqueResults: while there is no local result,
    the remote result is handed out with all its matches. *)
Theorem remote_alone_is_unfiltered (calls : list Call)
    (raw : list (option ISearchResult)) (r : ISearchResult) :
  getRawResults (run key setting calls) = Some raw ->
  at_ raw (idx Local) = None ->
  at_ raw (idx Remote) = Some r ->
  fst (getUniqueResults key setting (run key setting calls)) = [None; Some r].
Proof.
  unfold getRawResults. intros Hraw Hlocal Hremote.
  rewrite getUniqueResults_run, Hraw.
  unfold uniqueOf. rewrite Hlocal, Hremote.
  rewrite filter_keeps_all. destruct r. reflexivity.
Qed.

(** SearchResultModel.resultsAsGroup: with a local and a remote result
    that each match a setting key at most once, the group of search
    results lists every matched key exactly once, the local matches
    first and in their order. *)
Theorem search_group_lists_each_key_once (calls : list Call)
    (raw : list (option ISearchResult)) (l r : ISearchResult) :
  getRawResults (run key setting calls) = Some raw ->
  at_ raw (idx Local) = Some l ->
  at_ raw (idx Remote) = Some r ->
  NoDup (keysOf key setting l) ->
  NoDup (keysOf key setting r) ->
  let group := fst (resultsAsGroup key setting (run key setting calls)) in
  NoDup (map key (settings group))
  /\ (forall k, In k (map key (settings group))
        <-> In k (keysOf key setting l) \/ In k (keysOf key setting r))
  /\ firstn (length (filterMatches l)) (settings group)
     = map setting (filterMatches l).
Proof.
  intros Hraw Hlocal Hremote Hl Hr group. unfold getRawResults in Hraw.
  assert (Hset : settings group
                 = map setting (filterMatches l)
                   ++ map setting
                        (List.filter
                           (fun m => negb (bool_decide
                              (key (setting m)
                               ∈ (list_to_set (keysOf key setting l) : gset jsstring))))
                           (filterMatches r))).
  { unfold group. rewrite fst_resultsAsGroup, getUniqueResults_run, Hraw.
    unfold uniqueOf. rewrite Hlocal, Hremote.
    cbn [omap mbind option_bind list_omap flat_map filterMatches].
    rewrite app_nil_r. reflexivity. }
  assert (Hkeys : map key (settings group)
                  = keysOf key setting l
                    ++ List.filter
                         (fun k => negb (bool_decide
                            (k ∈ (list_to_set (keysOf key setting l) : gset jsstring))))
                         (keysOf key setting r)).
  { rewrite Hset, map_app. unfold keysOf. rewrite !map_map. f_equal.
    clear. induction (filterMatches r) as [|m ms IH]; cbn [List.filter map];
      [reflexivity|].
    destruct (negb (bool_decide _)); cbn [map]; rewrite IH; reflexivity. }
  split; [|split].
  - rewrite Hkeys. apply NoDup_app. split; [exact Hl|]. split.
    + intros k Hk Hk'. apply list_elem_of_In, filter_In in Hk'.
      destruct Hk' as [_ Hk'].
      rewrite bool_decide_eq_true_2 in Hk' by (apply elem_of_list_to_set; exact Hk).
      discriminate.
    + apply NoDup_ListNoDup, List.NoDup_filter, NoDup_ListNoDup. exact Hr.
  - intros k. rewrite Hkeys, in_app_iff, filter_In. split.
    + intros [Hk|[Hk _]]; [left|right]; exact Hk.
    + intros [Hk|Hk]; [left; exact Hk|].
      destruct (decide (k ∈ (list_to_set (keysOf key setting l) : gset jsstring)))
        as [Hin|Hout].
      * left. apply elem_of_list_to_set in Hin.
        apply list_elem_of_In. exact Hin.
      * right. split; [exact Hk|].
        rewrite bool_decide_eq_false_2 by exact Hout. reflexivity.
  - rewrite Hset.
    rewrite <- (length_map setting (filterMatches l)).
    rewrite firstn_app, Nat.sub_diag, firstn_all. cbn [firstn].
    apply app_nil_r.
Qed.

End SearchFacts.

Lemma set_result_replaces_its_kind_witness :
  exists raw,
    SearchResultModel.getRawResults
      (SearchResultModel.setResult SearchResultModel.Remote
         (Some {| SearchResultModel.filterMatches := [js "editor.fontSize"];
                  SearchResultModel.metadata := @None unit |})
         (SearchResultModel.run (fun k : jsstring => k) (fun m : jsstring => m) []))
    = Some raw
    /\ length raw = 2%nat.
Proof.
  destruct (set_result_replaces_its_kind
              (fun k : jsstring => k) (fun m : jsstring => m) []
              SearchResultModel.Remote SearchResultModel.Local
              (Some {| SearchResultModel.filterMatches := [js "editor.fontSize"];
                       SearchResultModel.metadata := @None unit |}))
    as (raw & Hraw & _); [discriminate|].
  exists raw. split; [exact Hraw|].
  vm_compute in Hraw. injection Hraw as <-. reflexivity.
Defined.

Lemma remote_alone_is_unfiltered_witness :
  fst (SearchResultModel.getUniqueResults
         (fun k : jsstring => k) (fun m : jsstring => m)
         (SearchResultModel.run (fun k : jsstring => k) (fun m : jsstring => m)
            [SearchResultModel.CallSetResult SearchResultModel.Remote
               (Some {| SearchResultModel.filterMatches :=
                          [js "editor.fontSize"; js "editor.tabSize"];
                        SearchResultModel.metadata := @None unit |});
             SearchResultModel.CallGetUniqueResults]))
  = [None;
     Some {| SearchResultModel.filterMatches :=
               [js "editor.fontSize"; js "editor.tabSize"];
             SearchResultModel.metadata := @None unit |}].
Proof.
  apply (remote_alone_is_unfiltered
           (fun k : jsstring => k) (fun m : jsstring => m) _
           [None;
            Some {| SearchResultModel.filterMatches :=
                      [js "editor.fontSize"; js "editor.tabSize"];
                    SearchResultModel.metadata := @None unit |}]);
    reflexivity.
Defined.

Lemma search_group_lists_each_key_once_witness :
  SearchResultModel.settings
    (fst (SearchResultModel.resultsAsGroup
            (fun k : jsstring => k) (fun m : jsstring => m)
            (SearchResultModel.run (fun k : jsstring => k) (fun m : jsstring => m)
               [SearchResultModel.CallSetResult SearchResultModel.Remote
                  (Some {| SearchResultModel.filterMatches :=
                             [js "editor.fontSize"; js "editor.tabSize"];
                           SearchResultModel.metadata := @None unit |});
                SearchResultModel.CallResultsAsGroup;
                SearchResultModel.CallSetResult SearchResultModel.Local
                  (Some {| SearchResultModel.filterMatches :=
                             [js "editor.tabSize"; js "files.eol"];
                           SearchResultModel.metadata := @None unit |})])))
  = [js "editor.tabSize"; js "files.eol"; js "editor.fontSize"]
  /\ NoDup [js "editor.tabSize"; js "files.eol"; js "editor.fontSize"].
Proof.
  assert (Hsettings :
    SearchResultModel.settings
      (fst (SearchResultModel.resultsAsGroup
              (fun k : jsstring => k) (fun m : jsstring => m)
              (SearchResultModel.run (fun k : jsstring => k) (fun m : jsstring => m)
                 [SearchResultModel.CallSetResult SearchResultModel.Remote
                    (Some {| SearchResultModel.filterMatches :=
                               [js "editor.fontSize"; js "editor.tabSize"];
                             SearchResultModel.metadata := @None unit |});
                  SearchResultModel.CallResultsAsGroup;
                  SearchResultModel.CallSetResult SearchResultModel.Local
                    (Some {| SearchResultModel.filterMatches :=
                               [js "editor.tabSize"; js "files.eol"];
                             SearchResultModel.metadata := @None unit |})])))
    = [js "editor.tabSize"; js "files.eol"; js "editor.fontSize"])
    by (vm_compute; reflexivity).
  split; [exact Hsettings|].
  pose proof (search_group_lists_each_key_once
                (fun k : jsstring => k) (fun m : jsstring => m)
                [SearchResultModel.CallSetResult SearchResultModel.Remote
                   (Some {| SearchResultModel.filterMatches :=
                              [js "editor.fontSize"; js "editor.tabSize"];
                            SearchResultModel.metadata := @None unit |});
                 SearchResultModel.CallResultsAsGroup;
                 SearchResultModel.CallSetResult SearchResultModel.Local
                   (Some {| SearchResultModel.filterMatches :=
                              [js "editor.tabSize"; js "files.eol"];
                            SearchResultModel.metadata := @None unit |})]
                _ _ _ eq_refl eq_refl eq_refl) as Hthm.
  cbv zeta in Hthm. rewrite Hsettings, map_id in Hthm.
  apply Hthm; apply (bool_decide_unpack _); vm_compute; exact I.
Defined.
